(** * Route sequencing engine of the delivery-manifest optimizer

    A shallow embedding of [src/lambda/optimizedriverroutes/optimizedriverroutes.py]:
    the matrix builder ([calculate_distance_matrix]), the Clarke-Wright savings
    merge ([optimize_with_savings_algorithm]), the chunk partitioner and the
    nearest-neighbour loops ([optimize_route_with_routes_api],
    [optimize_chunk_with_routes_api]) and the timing model of
    [export_driver_routes_to_csv] and [lambda_handler].

    Python exceptions are explicit results, [while] loops take fuel, and the
    floating-point operations are the fields of a class, instantiated at the
    end with binary64 floats.

    The rest of the file is embedded after the engine: the geocoding
    ([get_coordinates], [geocode_addresses_parallel]), the table updates
    ([update_route_sequence]) and the handler ([lambda_handler]), whose calls
    to the table, the bucket and the providers are the fields of a record of
    services. *)

From Stdlib Require Import String Ascii DecimalString.
From Stdlib Require Import List Arith ZArith Lia Bool Permutation.
From Stdlib Require Import Sorting.Sorted.
From Stdlib Require Import Floats.
Import ListNotations.

Set Implicit Arguments.

(** ** Results of Python computations *)

Inductive exn : Set :=
| IndexError | ValueError | TypeError | AttributeError | OverflowError | URLError.

(** [Ok a]: the code returns [a]; [Raise e]: it raises [e]; [OutOfFuel]: a
    [while] loop has not finished within the fuel it was given. *)
Inductive res (A : Type) : Type :=
| Ok (a : A)
| Raise (e : exn)
| OutOfFuel.

Arguments Ok {A} a.
Arguments Raise {A} e.
Arguments OutOfFuel {A}.

Definition bind {A B : Type} (c : res A) (k : A -> res B) : res B :=
  match c with
  | Ok a => k a
  | Raise e => Raise e
  | OutOfFuel => OutOfFuel
  end.

(** A call that returns or raises, and never loops. *)
Definition call {A : Type} (r : exn + A) : res A :=
  match r with
  | inl e => Raise e
  | inr a => Ok a
  end.

Declare Scope res_scope.
Delimit Scope res_scope with res.
Notation "x <- c ;; k" := (bind c (fun x => k))
  (at level 61, c at next level, right associativity) : res_scope.
Notation "' p <- c ;; k" := (bind c (fun x => let p := x in k))
  (at level 61, p pattern, c at next level, right associativity) : res_scope.
Open Scope res_scope.

(** [for x in l: acc = f acc x], where the body may raise. *)
Fixpoint foldM {A B : Type} (f : B -> A -> res B) (l : list A) (acc : B) : res B :=
  match l with
  | [] => Ok acc
  | x :: l' => acc' <- f acc x ;; foldM f l' acc'
  end.

(** [[f x for x in l]], where [f] may raise. *)
Fixpoint mapM {A B : Type} (f : A -> res B) (l : list A) : res (list B) :=
  match l with
  | [] => Ok []
  | x :: l' => y <- f x ;; ys <- mapM f l' ;; Ok (y :: ys)
  end.

(** ** Python lists *)

(** [l[i]] for a non-negative [i]. *)
Definition index {A : Type} (l : list A) (i : nat) : res A :=
  match nth_error l i with
  | Some a => Ok a
  | None => Raise IndexError
  end.

(** [l[-1]]. *)
Definition index_last {A : Type} (l : list A) : res A :=
  match rev l with
  | a :: _ => Ok a
  | [] => Raise IndexError
  end.

(** [l.remove(x)]: drops the first occurrence, [ValueError] when there is none. *)
Fixpoint list_remove (l : list nat) (x : nat) : res (list nat) :=
  match l with
  | [] => Raise ValueError
  | y :: l' => if Nat.eqb y x then Ok l'
               else (r <- list_remove l' x ;; Ok (y :: r))
  end.

(** [l[i] = v]. *)
Fixpoint list_set {A : Type} (l : list A) (i : nat) (v : A) : res (list A) :=
  match l, i with
  | [], _ => Raise IndexError
  | _ :: l', 0 => Ok (v :: l')
  | a :: l', S i' => r <- list_set l' i' v ;; Ok (a :: r)
  end.

(** [l.pop(i)], keeping the list only. *)
Fixpoint list_pop {A : Type} (l : list A) (i : nat) : res (list A) :=
  match l, i with
  | [], _ => Raise IndexError
  | _ :: l', 0 => Ok l'
  | a :: l', S i' => r <- list_pop l' i' ;; Ok (a :: r)
  end.

(** [x in l]. *)
Definition mem (x : nat) (l : list nat) : bool := existsb (Nat.eqb x) l.

(** [range(a, b)]. *)
Definition range (a b : nat) : list nat := seq a (b - a).

(** [range(a, b, step)] for a positive [step]: CPython's length formula. *)
Definition range_step (a b step : nat) : list nat :=
  map (fun k => a + k * step) (seq 0 ((b - a + step - 1) / step)).

(** [l[a:b]] for non-negative bounds. *)
Definition slice {A : Type} (l : list A) (a b : nat) : list A :=
  firstn (b - a) (skipn a l).

(** [enumerate(l)]. *)
Definition enumerate {A : Type} (l : list A) : list (nat * A) :=
  combine (seq 0 (length l)) l.

(** ** Decoded JSON, as [json.loads] returns it *)

#[local] Unset Elimination Schemes.
Inductive json (N : Type) : Type :=
| JNull
| JBool (b : bool)
| JNum (x : N)
| JStr (s : string)
| JArr (l : list (json N))
| JObj (fields : list (string * json N)).
#[local] Set Elimination Schemes.

Arguments JNull {N}.
Arguments JBool {N} b.
Arguments JNum {N} x.
Arguments JStr {N} s.
Arguments JArr {N} l.
Arguments JObj {N} fields.

(** ** Floating-point numbers

    The numbers the code computes with: Python floats for coordinates and
    numpy float64 for matrix cells. *)

Class Arith : Type := {
  num : Type;
  zero : num;
  inf : num;                       (* float('inf') *)
  add : num -> num -> num;
  sub : num -> num -> num;
  ltb : num -> num -> bool;        (* x < y *)
  pow2 : num -> exn + num;         (* x ** 2, OverflowError on overflow *)
  root : num -> num;               (* x ** 0.5 on a non-negative x *)
  float64_of : json num -> exn + num
                                   (* numpy storing a value in a float64 cell *)
}.

Section Engine.

Context {F : Arith}.

(** A coordinate is a (longitude, latitude) pair. *)
Definition coord : Type := (num * num)%type.

(** [((a[0] - p[0]) ** 2 + (a[1] - p[1]) ** 2) ** 0.5] *)
Definition euclid (current_point point : coord) : res num :=
  dx2 <- call (pow2 (sub (fst current_point) (fst point))) ;;
  dy2 <- call (pow2 (sub (snd current_point) (snd point))) ;;
  Ok (root (add dx2 dy2)).

(** ** Nearest neighbour, as written in [optimize_route_with_routes_api] *)

(** The [for idx in remaining_points] loop; [nearest_idx = -1] is [None]. *)
Fixpoint nearest_scan (location_coords : list coord) (current_point : coord)
    (remaining_points : list nat) (nearest_idx : option nat) (min_distance : num)
  : res (option nat * num) :=
  match remaining_points with
  | [] => Ok (nearest_idx, min_distance)
  | idx :: rest =>
      point <- index location_coords idx ;;
      dist <- euclid current_point point ;;
      if ltb dist min_distance
      then nearest_scan location_coords current_point rest (Some idx) dist
      else nearest_scan location_coords current_point rest nearest_idx min_distance
  end.

(** The variables the [while] loop updates. *)
Record nn_state : Type := mk_nn {
  current_point : coord;
  remaining_points : list nat;
  route : list nat
}.

(** One iteration of the body of [while remaining_points]. *)
Definition nn_body (location_coords : list coord) (s : nn_state) : res nn_state :=
  '(nearest_idx, _) <-
     nearest_scan location_coords (current_point s) (remaining_points s) None inf ;;
  match nearest_idx with
  | Some i =>
      p <- index location_coords i ;;
      r <- list_remove (remaining_points s) i ;;
      Ok (mk_nn p r (route s ++ [i]))
  | None => Ok s
  end.

(** [while remaining_points: body]; returns [route]. *)
Fixpoint nn_while (fuel : nat) (location_coords : list coord) (s : nn_state)
  : res (list nat) :=
  match remaining_points s with
  | [] => Ok (route s)
  | _ :: _ =>
      match fuel with
      | 0 => OutOfFuel
      | S fuel' => s' <- nn_body location_coords s ;; nn_while fuel' location_coords s'
      end
  end.

(** The state after [k] executions of the loop body. *)
Fixpoint nn_iter (k : nat) (location_coords : list coord) (s : nn_state) : res nn_state :=
  match k with
  | 0 => Ok s
  | S k' => s' <- nn_body location_coords s ;; nn_iter k' location_coords s'
  end.

Definition nn_init (start_coords : coord) (location_coords : list coord) : nn_state :=
  mk_nn start_coords (range 0 (length location_coords)) [].

(** Lines 232-261: the nearest-neighbour part of [optimize_route_with_routes_api]. *)
Definition nearest_neighbor_route (fuel : nat) (start_coords : coord)
    (location_coords : list coord) : res (list nat) :=
  nn_while fuel location_coords (nn_init start_coords location_coords).

(** ** [optimize_chunk_with_routes_api] *)

Fixpoint chunk_scan (chunk_coords : list coord) (current : coord)
    (remaining : list nat) (nearest_idx : option nat) (min_distance : num)
  : res (option nat) :=
  match remaining with
  | [] => Ok nearest_idx
  | idx :: rest =>
      point <- index chunk_coords idx ;;
      dist <- euclid current point ;;
      if ltb dist min_distance
      then chunk_scan chunk_coords current rest (Some idx) dist
      else chunk_scan chunk_coords current rest nearest_idx min_distance
  end.

Fixpoint chunk_while (fuel : nat) (chunk_coords : list coord) (current : coord)
    (remaining : list nat) (route : list nat) : res (list nat) :=
  match remaining with
  | [] => Ok route
  | _ :: _ =>
      match fuel with
      | 0 => OutOfFuel
      | S fuel' =>
          nearest_idx <- chunk_scan chunk_coords current remaining None inf ;;
          match nearest_idx with
          | Some i =>
              p <- index chunk_coords i ;;
              r <- list_remove remaining i ;;
              chunk_while fuel' chunk_coords p r (route ++ [i])
          | None => chunk_while fuel' chunk_coords current remaining route
          end
      end
  end.

Definition optimize_chunk_with_routes_api (fuel : nat) (start_coords : coord)
    (chunk_coords : list coord) : res (list nat) :=
  chunk_while fuel chunk_coords start_coords (range 0 (length chunk_coords)) [].

(** ** Savings merge: [optimize_with_savings_algorithm] *)

Definition matrix : Type := list (list num).

(** [m[a][b]] *)
Definition cell (m : matrix) (a b : nat) : res num :=
  row <- index m a ;; index row b.

(** An entry [(i, j, saving)] of [savings]. *)
Definition saving_entry : Type := (nat * nat * num)%type.

(** The two [for] loops that fill [savings]. *)
Definition pair_savings (start_idx : nat) (duration_matrix : matrix) (n : nat)
  : res (list saving_entry) :=
  foldM (fun savings i =>
    foldM (fun savings j =>
      d0i <- cell duration_matrix start_idx i ;;
      d0j <- cell duration_matrix start_idx j ;;
      dij <- cell duration_matrix i j ;;
      Ok (savings ++ [(i, j, sub (add d0i d0j) dij)]))
    (range (i + 1) n) savings)
  (range 1 n) [].

(** [savings.sort(key=lambda x: x[2], reverse=True)]: a stable sort, largest
    saving first, entries of equal saving in the order they were generated. *)
Fixpoint insert_desc (x : saving_entry) (l : list saving_entry) : list saving_entry :=
  match l with
  | [] => [x]
  | y :: l' => if ltb (snd x) (snd y) then y :: insert_desc x l' else x :: l
  end.

Definition sort_desc (l : list saving_entry) : list saving_entry :=
  fold_right insert_desc [] l.

(** [for idx, route in enumerate(routes)]: the last route holding [i], the
    last route holding [j]. *)
Fixpoint locate (i j : nat) (routes : list (list nat)) (idx : nat)
    (route_i route_j : option nat) : option nat * option nat :=
  match routes with
  | [] => (route_i, route_j)
  | route :: rest =>
      locate i j rest (S idx)
        (if mem i route then Some idx else route_i)
        (if mem j route then Some idx else route_j)
  end.

Definition option_nat_eqb (a b : option nat) : bool :=
  match a, b with
  | Some x, Some y => Nat.eqb x y
  | None, None => true
  | _, _ => false
  end.

(** [r[0] == x or r[-1] == x] *)
Definition at_end (r : list nat) (x : nat) : res bool :=
  h <- index r 0 ;;
  if Nat.eqb h x then Ok true else (l <- index_last r ;; Ok (Nat.eqb l x)).

(** The body of [for i, j, _ in savings] once both routes are found at
    positions [a] and [b]. *)
Definition merge_at (routes : list (list nat)) (i j a b : nat) : res (list (list nat)) :=
  r_i <- index routes a ;;
  i_at_end <- at_end r_i i ;;
  r_j <- index routes b ;;
  j_at_end <- at_end r_j j ;;
  if i_at_end && j_at_end then
    h_i <- index r_i 0 ;;
    h_j <- index r_j 0 ;;
    routes' <-
      (if Nat.eqb h_i i then
         if Nat.eqb h_j j
         then list_set routes b (rev r_j ++ r_i)
         else list_set routes b (r_j ++ r_i)
       else
         if Nat.eqb h_j j
         then list_set routes a (r_i ++ r_j)
         else list_set routes a (rev r_i ++ r_j)) ;;
    list_pop routes' (Nat.max a b)
  else Ok routes.

(** The body of [for i, j, _ in savings]. [routes[None]] raises [TypeError]. *)
Definition merge_pair (routes : list (list nat)) (e : saving_entry)
  : res (list (list nat)) :=
  let '(i, j, _) := e in
  let '(route_i, route_j) := locate i j routes 0 None None in
  if option_nat_eqb route_i route_j then Ok routes
  else
    match route_i, route_j with
    | Some a, Some b => merge_at routes i j a b
    | _, _ => Raise TypeError
    end.

Definition optimize_with_savings_algorithm (start_idx : nat)
    (distance_matrix duration_matrix : matrix) : res (list nat) :=
  let n := length distance_matrix in
  if n <=? 2 then Ok (range 1 n)
  else
    savings <- pair_savings start_idx duration_matrix n ;;
    let savings := sort_desc savings in
    let routes := map (fun i => [i]) (range 1 n) in
    _ <- list_set (repeat false n) start_idx true ;;  (* visited[start_idx] = True *)
    routes <- foldM merge_pair savings routes ;;
    let final_route := concat routes in
    Ok (map (fun i => i - 1) final_route).

(** ** Matrix builder: [calculate_distance_matrix] *)

(** What [urlopen] and [json.loads] give: an exception or the decoded body. *)
Inductive http_result : Type :=
| HttpFail (e : exn)
| HttpJson (data : json num).

Fixpoint assoc (k : string) (fields : list (string * json num)) : option (json num) :=
  match fields with
  | [] => None
  | (k', v) :: rest => if String.eqb k k' then Some v else assoc k rest
  end.

(** [d.get(k, default)] *)
Definition dict_get (d : json num) (k : string) (default : json num) : res (json num) :=
  match d with
  | JObj fields =>
      Ok (match assoc k fields with Some v => v | None => default end)
  | _ => Raise AttributeError
  end.

(** [k in d] for a dict [d]. *)
Definition dict_has (d : json num) (k : string) : res bool :=
  match d with
  | JObj fields =>
      Ok (match assoc k fields with Some _ => true | None => false end)
  | _ => Raise TypeError
  end.

(** [v == "OK"] *)
Definition is_OK (v : json num) : bool :=
  match v with
  | JStr s => String.eqb s "OK"
  | _ => false
  end.

(** The items a [for] loop over [v] sees. *)
Definition iter (v : json num) : res (list (json num)) :=
  match v with
  | JArr l => Ok l
  | JObj fields => Ok (map (fun kv => JStr (fst kv)) fields)
  | JStr s => Ok (map (fun c => JStr (String c EmptyString)) (list_ascii_of_string s))
  | _ => Raise TypeError
  end.

(** [np.zeros((n, n))] *)
Definition zeros (n : nat) : matrix := repeat (repeat zero n) n.

(** [m[i][j] = v] *)
Definition matrix_set (m : matrix) (i j : nat) (v : json num) : res matrix :=
  row <- index m i ;;
  x <- call (float64_of v) ;;
  row' <- list_set row j x ;;
  list_set m i row'.

(** The body of [for j, element in enumerate(...)]. *)
Definition fill_cell (i : nat) (ms : matrix * matrix) (je : nat * json num)
  : res (matrix * matrix) :=
  let '(j, element) := je in
  st <- dict_get element "status" JNull ;;
  if is_OK st then
    d <- dict_get element "distance" (JObj []) ;;
    distance <- dict_get d "value" (JNum zero) ;;
    t <- dict_get element "duration" (JObj []) ;;
    duration <- dict_get t "value" (JNum zero) ;;
    in_traffic <- dict_has element "duration_in_traffic" ;;
    duration <-
      (if in_traffic
       then (dit <- dict_get element "duration_in_traffic" (JObj []) ;;
             dict_get dit "value" duration)
       else Ok duration) ;;
    distance_matrix <- matrix_set (fst ms) i j distance ;;
    duration_matrix <- matrix_set (snd ms) i j duration ;;
    Ok (distance_matrix, duration_matrix)
  else Ok ms.

(** The body of [for i, row in enumerate(...)]. *)
Definition fill_row (ms : matrix * matrix) (ir : nat * json num) : res (matrix * matrix) :=
  let '(i, row) := ir in
  elements <- dict_get row "elements" (JArr []) ;;
  elements <- iter elements ;;
  foldM (fill_cell i) (enumerate elements) ms.

(** The body of the [try]. *)
Definition matrix_of_response (locations : list coord) (response : http_result)
  : res (option matrix * option matrix) :=
  data <- match response with
          | HttpFail e => Raise e
          | HttpJson data => Ok data
          end ;;
  st <- dict_get data "status" JNull ;;
  if is_OK st then
    let matrix_size := length locations in
    rows <- dict_get data "rows" (JArr []) ;;
    rows <- iter rows ;;
    ms <- foldM fill_row (enumerate rows) (zeros matrix_size, zeros matrix_size) ;;
    Ok (Some (fst ms), Some (snd ms))
  else Ok (None, None).

(** [try: ... except Exception: return None, None]. The request URL, built
    before the [try] from the coordinates, is not part of the model: [response]
    is what came back. *)
Definition calculate_distance_matrix (locations : list coord) (response : http_result)
  : res (option matrix * option matrix) :=
  match matrix_of_response locations response with
  | Raise _ => Ok (None, None)
  | r => r
  end.

(** The element the two loops see at row [i], column [j] of the reply. *)
Definition element_at (data : json num) (i j : nat) : option (json num) :=
  match (rows <- dict_get data "rows" (JArr []) ;; iter rows) with
  | Ok rows =>
      match nth_error rows i with
      | Some row =>
          match (elements <- dict_get row "elements" (JArr []) ;; iter elements) with
          | Ok elements => nth_error elements j
          | _ => None
          end
      | None => None
      end
  | _ => None
  end.

(** [element] is a cell of status OK whose [duration_in_traffic] holds the
    value [v]. *)
Definition reports_traffic (element : json num) (v : json num) : Prop :=
  exists fields status in_traffic,
    element = JObj fields /\
    assoc "status" fields = Some status /\ is_OK status = true /\
    assoc "duration_in_traffic" fields = Some (JObj in_traffic) /\
    assoc "value" in_traffic = Some v.

(** ** Chunk partitioner and route entry point: [optimize_route_with_routes_api] *)

Definition MAX_STOPS_PER_REQUEST : nat := 25.

(** [[l[i:i+size] for i in range(0, len(l), size)]] *)
Definition chunks_of (l : list nat) (chunk_size : nat) : list (list nat) :=
  map (fun i => slice l i (i + chunk_size)) (range_step 0 (length l) chunk_size).

(** The body of [for chunk in chunks]. *)
Definition refine_chunk (fuel : nat) (start_coords : coord) (location_coords : list coord)
    (refined_indices : list nat) (chunk : list nat) : res (list nat) :=
  chunk_coords <- mapM (index location_coords) chunk ;;
  refined_chunk <- optimize_chunk_with_routes_api fuel start_coords chunk_coords ;;
  picked <- mapM (index chunk) refined_chunk ;;
  Ok (refined_indices ++ picked).

(** [response] is the provider's answer to the matrix request, should the
    function make one. *)
Definition optimize_route_with_routes_api (fuel : nat) (start_coords : coord)
    (location_coords : list coord) (response : http_result) : res (list nat) :=
  let total_locations := length location_coords + 1 in
  if MAX_STOPS_PER_REQUEST + 1 <? total_locations then
    let all_coords := start_coords :: location_coords in
    '(distance_matrix, duration_matrix) <- calculate_distance_matrix all_coords response ;;
    match distance_matrix, duration_matrix with
    | Some distance_matrix, Some duration_matrix =>
        optimized_indices <-
          optimize_with_savings_algorithm 0 distance_matrix duration_matrix ;;
        let chunk_size := MAX_STOPS_PER_REQUEST - 1 in
        let chunks := chunks_of optimized_indices chunk_size in
        foldM (refine_chunk fuel start_coords location_coords) chunks []
    | _, _ => Ok (range 0 (length location_coords))
    end
  else nearest_neighbor_route fuel start_coords location_coords.

(** ** Well-formed inputs *)

(** The distance from [p] to [q] is computed without error and is below
    [float('inf')]: neither infinite nor NaN. *)
Definition finite_distance (p q : coord) : bool :=
  match euclid p q with
  | Ok d => ltb d inf
  | _ => false
  end.

(** The distance from [current_point] to the stop of index [idx], as the
    scan computes it. *)
Definition dist_of (location_coords : list coord) (current_point : coord) (idx : nat)
  : res num :=
  point <- index location_coords idx ;; euclid current_point point.

(** All the distances the nearest-neighbour loop can ask for are finite. *)
Definition finite_distances (start_coords : coord) (location_coords : list coord) : bool :=
  forallb (fun p => forallb (finite_distance p) location_coords)
          (start_coords :: location_coords).

(** What the nearest-neighbour loop maintains: the current position is the
    depot or a stop, the unvisited indices are valid and distinct, and none of
    them is on the route. *)
Record nn_invariant (start_coords : coord) (location_coords : list coord)
    (s : nn_state) : Prop := {
  inv_current : In (current_point s) (start_coords :: location_coords);
  inv_bound : forall x, In x (remaining_points s) -> x < length location_coords;
  inv_nodup : NoDup (remaining_points s);
  inv_fresh : forall x, In x (remaining_points s) -> ~ In x (route s)
}.

End Engine.

(** ** Timing model: [export_driver_routes_to_csv] and [lambda_handler] *)

(** A delivery item; [RouteSequence] is the key that may be missing. *)
Record delivery : Type := mk_delivery {
  PK : string;
  PostcodeRaw : string;
  Address : string;
  CustomerName : string;
  CustomerPhone : string;
  RouteSequence : option nat
}.

(** A data row of the exported CSV. *)
Record csv_row : Type := mk_row {
  row_sequence : nat;
  row_delivery : string;
  row_postcode : string;
  row_address : string;
  row_name : string;
  row_phone : string;
  EstimatedArrivalTime : string;
  EstimatedDuration : string
}.

(** [x.get("RouteSequence", 999)] *)
Definition sort_key (d : delivery) : nat :=
  match RouteSequence d with
  | Some s => s
  | None => 999
  end.

(** [sorted(deliveries, key=...)]: stable, smallest key first. *)
Fixpoint insert_by_key (d : delivery) (l : list delivery) : list delivery :=
  match l with
  | [] => [d]
  | y :: l' => if sort_key y <? sort_key d then y :: insert_by_key d l' else d :: l
  end.

Definition sorted_by_sequence (deliveries : list delivery) : list delivery :=
  fold_right insert_by_key [] deliveries.

Definition decimal (n : nat) : string := NilZero.string_of_uint (Nat.to_uint n).

(** [f"{n:02d}"] *)
Definition fmt_02d (n : nat) : string :=
  if n <? 10 then ("0" ++ decimal n)%string else decimal n.

Definition start_time : nat := 9 * 60.

(** The [for idx, delivery in enumerate(sorted_deliveries)] loop. *)
Fixpoint eta_rows (ds : list (nat * delivery)) (cumulative_time : nat) : list csv_row :=
  match ds with
  | [] => []
  | (idx, d) :: rest =>
      match RouteSequence d with
      | None => eta_rows rest cumulative_time
      | Some s =>
          let drive_time := if idx =? 0 then 20 else 8 in
          let service_time := 5 in
          let cumulative_time := cumulative_time + drive_time in
          let arrival_minutes := start_time + cumulative_time in
          let hours := arrival_minutes / 60 in
          let minutes := arrival_minutes mod 60 in
          let arrival_time := (fmt_02d hours ++ ":" ++ fmt_02d minutes)%string in
          let cumulative_time := cumulative_time + service_time in
          mk_row s (PK d) (PostcodeRaw d) (Address d) (CustomerName d) (CustomerPhone d)
                 arrival_time (decimal (drive_time + service_time) ++ " min")%string
          :: eta_rows rest cumulative_time
      end
  end.

(** The data rows [export_driver_routes_to_csv] writes. *)
Definition export_driver_routes_to_csv (deliveries : list delivery) : list csv_row :=
  eta_rows (enumerate (sorted_by_sequence deliveries)) 0.

(** [estimated_duration] of [lambda_handler], in minutes. *)
Definition estimated_duration (num_stops : Z) : Z :=
  let avg_drive_time := 8%Z in
  let avg_service_time := 5%Z in
  let depot_to_first_time := 20%Z in
  (depot_to_first_time + (num_stops - 1) * avg_drive_time + num_stops * avg_service_time)%Z.

(** ** The instance at binary64 floats *)

(** [x ** 2.0] of a Python float: [OverflowError] when a finite [x] overflows. *)
Definition float_pow2 (x : float) : exn + float :=
  let y := (x * x)%float in
  if is_infinity y && negb (is_infinity x) then inl OverflowError else inr y.

(** numpy's conversion of a decoded JSON value: numbers and booleans convert,
    the other values are refused (numeric strings are not modelled). *)
Definition float_of_json (v : json float) : exn + float :=
  match v with
  | JNum x => inr x
  | JBool b => inr (if b then 1%float else 0%float)
  | JStr _ => inl ValueError
  | _ => inl TypeError
  end.

#[export] Instance binary64 : Arith := {|
  num := float;
  zero := 0%float;
  inf := infinity;
  add := PrimFloat.add;
  sub := PrimFloat.sub;
  ltb := PrimFloat.ltb;
  pow2 := float_pow2;
  root := PrimFloat.sqrt;
  float64_of := float_of_json
|}.

(** ** Concrete inputs *)

Definition pt (x y : float) : @coord binary64 := (x, y).

(** Depot (0,0) and stops (1,0), (5,0), (2,0). *)
Definition depot0 : @coord binary64 := pt 0 0.
Definition stops3 : list (@coord binary64) := [pt 1 0; pt 5 0; pt 2 0].

(** Depot (0,0) and three stops at distance 1 from it. *)
Definition stops_tied : list (@coord binary64) := [pt 1 0; pt 0 1; pt (-1) 0].

(** [float(n)] for a small [n]. *)
Fixpoint float_of_nat (n : nat) : float :=
  match n with
  | 0 => 0%float
  | S k => (float_of_nat k + 1)%float
  end.

(** [n] stops on a line east of the depot: stop [i] at (i+1, 0). *)
Definition stops_on_line (n : nat) : list (@coord binary64) :=
  map (fun i => pt (float_of_nat (S i)) 0) (seq 0 n).

(** A cell of a provider reply that reports [v] metres and [v] seconds. *)
Definition element_ok (v : float) : json float :=
  JObj [("status", JStr "OK");
        ("distance", JObj [("value", JNum v)]);
        ("duration", JObj [("value", JNum v)])]%string.

(** A cell for which the provider found no route. *)
Definition element_failed : json float :=
  JObj [("status", JStr "ZERO_RESULTS")]%string.

(** A provider reply of status OK over [n] locations with cell [(i, j)] given
    by [cell_of]. *)
Definition reply_of (cell_of : nat -> nat -> json float) (n : nat) : http_result :=
  HttpJson
    (JObj [("status", JStr "OK");
           ("rows",
            JArr (map (fun i => JObj [("elements", JArr (map (cell_of i) (seq 0 n)))])
                      (seq 0 n)))]%string).

(** The reply for the depot and [n] stops on the line: driving [|i - j|]. *)
Definition line_reply (n : nat) : http_result :=
  reply_of (fun i j => element_ok (float_of_nat (Nat.max i j - Nat.min i j))) (S n).

(** The reply in which no pair of locations has a route. *)
Definition failed_reply (n : nat) : http_result :=
  reply_of (fun _ _ => element_failed) (S n).

(** Durations in seconds between the depot and three stops: stops 1 and 3
    are 60 s apart, stops 2 and 3 are 60 s apart, stops 1 and 2 are 300 s
    apart, and the depot is 600 s from each. *)
Definition durations4 : @matrix binary64 :=
  [[0; 600; 600; 600];
   [600; 0; 300; 60];
   [600; 300; 0; 60];
   [600; 60; 60; 0]]%float.

(** A cell that reports 90 s, and 120 s in traffic. *)
Definition element_in_traffic : json float :=
  JObj [("status", JStr "OK");
        ("distance", JObj [("value", JNum 1000%float)]);
        ("duration", JObj [("value", JNum 90%float)]);
        ("duration_in_traffic", JObj [("value", JNum 120%float)])]%string.

(** The reply for a depot and one stop, every cell in traffic. *)
Definition traffic_reply : json float :=
  JObj [("status", JStr "OK");
        ("rows",
         JArr [JObj [("elements", JArr [element_in_traffic; element_in_traffic])];
               JObj [("elements", JArr [element_in_traffic; element_in_traffic])]])]%string.

(** Three deliveries of one driver, sequenced, as the table returns them. *)
Definition delivery_a : delivery :=
  mk_delivery "DELIVERY#a" "NW10 7PR" "1 Britannia Way" "A. Shah" "0700" (Some 1).
Definition delivery_b : delivery :=
  mk_delivery "DELIVERY#b" "W3 6UU" "2 Park Royal Road" "B. Ito" "0701" (Some 2).
Definition delivery_c : delivery :=
  mk_delivery "DELIVERY#c" "HA0 1AA" "3 Ealing Road" "C. Diaz" "0702" (Some 3).

(** ** Replies the matrix builder reads to the end *)

(** The distance and the duration the loop body reads from an element of
    status OK, before it stores them. *)
Definition element_values {F : Arith} (element : json num) : res (json num * json num) :=
  d <- dict_get element "distance" (JObj []) ;;
  distance <- dict_get d "value" (JNum zero) ;;
  t <- dict_get element "duration" (JObj []) ;;
  duration <- dict_get t "value" (JNum zero) ;;
  in_traffic <- dict_has element "duration_in_traffic" ;;
  duration <-
    (if in_traffic
     then (dit <- dict_get element "duration_in_traffic" (JObj []) ;;
           dict_get dit "value" duration)
     else Ok duration) ;;
  Ok (distance, duration).

(** numpy converts the value. *)
Definition converts {F : Arith} (v : json num) : bool :=
  match float64_of v with
  | inr _ => true
  | inl _ => false
  end.

(** Nothing raises for the element at row [i], column [j] of a reply over [n]
    locations: its status can be read and, when it is OK, the cell is inside
    the matrices and the two values can be read and converted. *)
Definition cell_ok {F : Arith} (n i : nat) (je : nat * json num) : bool :=
  let '(j, element) := je in
  match dict_get element "status" JNull with
  | Ok st =>
      if is_OK st then
        match element_values element with
        | Ok (distance, duration) =>
            (i <? n) && (j <? n) && converts distance && converts duration
        | _ => false
        end
      else true
  | _ => false
  end.

(** Nothing raises for row [i]. *)
Definition row_ok {F : Arith} (n : nat) (ir : nat * json num) : bool :=
  let '(i, row) := ir in
  match (elements <- dict_get row "elements" (JArr []) ;; iter elements) with
  | Ok elements => forallb (cell_ok n i) (enumerate elements)
  | _ => false
  end.

(** A reply of status OK that the two loops read to the end. *)
Definition complete_reply {F : Arith} (n : nat) (data : json num) : bool :=
  match dict_get data "status" JNull with
  | Ok st =>
      is_OK st &&
      match (rows <- dict_get data "rows" (JArr []) ;; iter rows) with
      | Ok rows => forallb (row_ok n) (enumerate rows)
      | _ => false
      end
  | _ => false
  end.

(** ** Geocoding: [get_coordinates] and [geocode_addresses_parallel] *)

(** What a subscript can raise: [KeyError], or another exception. *)
Inductive lookup_error : Set :=
| KeyError
| Other (e : exn).

(** Evaluation inside a [try] whose subscripts may raise. *)
Definition and_then {E A B : Type} (c : E + A) (k : A -> E + B) : E + B :=
  match c with
  | inl e => inl e
  | inr a => k a
  end.

Declare Scope try_scope.
Delimit Scope try_scope with try.
Notation "x <~ c ;; k" := (and_then c (fun x => k))
  (at level 61, c at next level, right associativity) : try_scope.

(** A Python dict in insertion order. *)
Fixpoint dict_lookup {V : Type} (k : string) (d : list (string * V)) : option V :=
  match d with
  | [] => None
  | (k', v) :: rest => if String.eqb k k' then Some v else dict_lookup k rest
  end.

(** [d[k] = v] *)
Fixpoint dict_store {V : Type} (k : string) (v : V) (d : list (string * V))
  : list (string * V) :=
  match d with
  | [] => [(k, v)]
  | (k', v') :: rest =>
      if String.eqb k k' then (k', v) :: rest else (k', v') :: dict_store k v rest
  end.

Section Geocoding.

Context {F : Arith}.

(** [bool(x)] for a number [x]. *)
Variable nonzero : num -> bool.

(** [d[k]] for a string [k]. *)
Definition subscript (d : json num) (k : string) : lookup_error + json num :=
  match d with
  | JObj fields =>
      match assoc k fields with
      | Some v => inr v
      | None => inl KeyError
      end
  | _ => inl (Other TypeError)
  end.

(** [v[0]] *)
Definition first_item (v : json num) : lookup_error + json num :=
  match v with
  | JArr (x :: _) => inr x
  | JArr [] => inl (Other IndexError)
  | JStr (String c _) => inr (JStr (String c EmptyString))
  | JStr EmptyString => inl (Other IndexError)
  | JObj _ => inl KeyError
  | _ => inl (Other TypeError)
  end.

(** [bool(v)] *)
Definition truthy (v : json num) : bool :=
  match v with
  | JNull => false
  | JBool b => b
  | JNum x => nonzero x
  | JStr EmptyString => false
  | JStr _ => true
  | JArr [] => false
  | JArr _ => true
  | JObj [] => false
  | JObj _ => true
  end.

(** The body of the [try] of [get_coordinates]; the two [print]s and the
    [time.sleep] of the branches that return [None] are left out. *)
Definition geocode_reply (response : http_result)
  : lookup_error + option (json num * json num) :=
  (data <~ match response with
           | HttpFail e => inl (Other e)
           | HttpJson data => inr data
           end ;;
   status <~ subscript data "status" ;;
   found <~ (if is_OK status
             then (results <~ subscript data "results" ;; inr (truthy results))
             else inr false) ;;
   if found : bool then
     results <~ subscript data "results" ;;
     first <~ first_item results ;;
     geometry <~ subscript first "geometry" ;;
     location <~ subscript geometry "location" ;;
     results' <~ subscript data "results" ;;
     first' <~ first_item results' ;;
     formatted_address <~ subscript first' "formatted_address" ;;
     lng <~ subscript location "lng" ;;
     lat <~ subscript location "lat" ;;
     inr (Some (lng, lat))
   else inr None)%try.

(** [try: ... except Exception: return None] *)
Definition get_coordinates (response : http_result) : option (json num * json num) :=
  match geocode_reply response with
  | inr r => r
  | inl _ => None
  end.

End Geocoding.

(** [geocode_addresses_parallel]: [lookup address] is what [get_coordinates]
    returns for it. The pool's [map] gives the results in the order of the
    addresses, and the workers share nothing. *)
Definition geocode_addresses_parallel {C : Type} (lookup : string -> option C)
    (addresses : list string) : list (string * C) :=
  fold_left (fun address_to_coords address =>
               match lookup address with
               | Some coords => dict_store address coords address_to_coords
               | None => address_to_coords
               end) addresses [].

(** ** Persisting the order: [update_route_sequence] *)

(** An item of the deliveries table; a missing attribute is [None]. *)
Record item : Type := mk_item {
  item_PK : option string;
  item_SK : option string;
  item_DriverID : option string;
  item_PostcodeRaw : option string;
  item_Address : option string;
  item_CustomerName : option string;
  item_CustomerPhone : option string;
  item_RouteSequence : option nat
}.

(** [d.get(key, default)] *)
Definition get_or {A : Type} (o : option A) (default : A) : A :=
  match o with
  | Some a => a
  | None => default
  end.

(** [delivery["RouteSequence"] = n] *)
Definition set_sequence (d : item) (n : nat) : item :=
  mk_item (item_PK d) (item_SK d) (item_DriverID d) (item_PostcodeRaw d)
          (item_Address d) (item_CustomerName d) (item_CustomerPhone d) (Some n).

(** [l[i] = v] for an [i] known to be in range. *)
Fixpoint replace_at {A : Type} (l : list A) (i : nat) (v : A) : list A :=
  match l, i with
  | [], _ => []
  | _ :: l', 0 => v :: l'
  | a :: l', S i' => a :: replace_at l' i' v
  end.

(** A successful [table.update_item]: key and sequence number. *)
Definition write : Type := (string * string * nat)%type.

(** The body of the loop of [update_route_sequence], with its [try]:
    [update_item pk sk n] tells whether the table accepts the update. The state
    is the count, the deliveries and the updates made so far. *)
Definition update_one (update_item : string -> string -> nat -> bool)
    (st : nat * list item * list write) (io : nat * nat) : nat * list item * list write :=
  let '(success_count, deliveries, written) := st in
  let '(i, original_index) := io in
  match nth_error deliveries original_index with
  | None => st                                         (* IndexError *)
  | Some delivery =>
      match item_PK delivery, item_SK delivery with
      | Some delivery_id, Some sk_value =>
          if update_item delivery_id sk_value (i + 1)
          then (success_count + 1,
                replace_at deliveries original_index (set_sequence delivery (i + 1)),
                written ++ [(delivery_id, sk_value, i + 1)])
          else st                                      (* the update raised *)
      | _, _ => st                                     (* KeyError *)
      end
  end.

Definition update_route_sequence (update_item : string -> string -> nat -> bool)
    (deliveries : list item) (optimized_sequence : list nat)
  : nat * list item * list write :=
  fold_left (update_one update_item) (enumerate optimized_sequence) (0, deliveries, []).

(** The update that position [i] of the optimized sequence asks for, when the
    delivery of index [original_index] exists and has its two keys. *)
Definition request_of (deliveries : list item) (io : nat * nat) : option write :=
  let '(i, original_index) := io in
  match nth_error deliveries original_index with
  | Some delivery =>
      match item_PK delivery, item_SK delivery with
      | Some delivery_id, Some sk_value => Some (delivery_id, sk_value, i + 1)
      | _, _ => None
      end
  | None => None
  end.

(** Whether the [try] of that position runs to its end. *)
Definition accepted (update_item : string -> string -> nat -> bool)
    (deliveries : list item) (io : nat * nat) : bool :=
  match request_of deliveries io with
  | Some (delivery_id, sk_value, n) => update_item delivery_id sk_value n
  | None => false
  end.

(** What [export_driver_routes_to_csv] reads of an item. *)
Definition delivery_of_item (d : item) : delivery :=
  mk_delivery (get_or (item_PK d) EmptyString) (get_or (item_PostcodeRaw d) EmptyString)
              (get_or (item_Address d) EmptyString)
              (get_or (item_CustomerName d) EmptyString)
              (get_or (item_CustomerPhone d) EmptyString) (item_RouteSequence d).

(** ** The handler: [lambda_handler] *)

Definition BUCKET_NAME : string := "delivery-manifest-bucket".

Definition START_LOCATION : string := "1-3 Britannia Way, London NW10 7PR".

(** [f"{z}"] for an integer. *)
Definition decimal_int (z : Z) : string :=
  if (z <? 0)%Z then ("-" ++ decimal (Z.to_nat (- z)))%string else decimal (Z.to_nat z).

(** [s.add(x)], the set kept in insertion order. Python iterates a set in an
    order of its own; the handler only builds a dict from the set, which it
    looks up by key and tests for emptiness. *)
Definition set_add (x : string) (s : list string) : list string :=
  if existsb (String.eqb x) s then s else s ++ [x].

(** [grouped_deliveries[driver_id].append(delivery)], after the key is created
    when it is new. *)
Fixpoint group_append (driver_id : string) (delivery : item)
    (grouped_deliveries : list (string * list item)) : list (string * list item) :=
  match grouped_deliveries with
  | [] => [(driver_id, [delivery])]
  | (k, ds) :: rest =>
      if String.eqb driver_id k then (k, ds ++ [delivery]) :: rest
      else (k, ds) :: group_append driver_id delivery rest
  end.

(** The entry of [results["driver_routes"]] of one driver. *)
Record driver_route : Type := mk_driver_route {
  dr_stops : nat;
  dr_csv_url : string;
  dr_route : list string
}.

(** The [results] dict of the handler. *)
Record run_results : Type := mk_results {
  optimized_drivers : nat;
  total_deliveries_sequenced : nat;
  driver_routes : list (string * driver_route);
  route_durations : list (string * string)
}.

(** The body of a response: a message, or the results handed to [json.dumps]. *)
Inductive body : Type :=
| Message (text : string)
| Completed (r : run_results).

Record response : Type := mk_response {
  statusCode : nat;
  response_body : body
}.

(** What an invocation has changed outside: the accepted table updates and the
    objects put in the bucket, each with its key and the data rows of its file,
    in order. *)
Record effects : Type := mk_effects {
  updates : list write;
  uploads : list (string * list csv_row)
}.

Section Handler.

Context {F : Arith}.

(** [str.strip] *)
Variable strip : string -> string.

(** The services the handler calls. [geocode address] is what
    [get_coordinates] returns for the address, longitude and latitude being
    numbers; [matrix_reply] is the provider's answer to a matrix request;
    [update_item] tells whether the table accepts an update; [put_object] is
    the exception of an upload, if any; [time_now driver] is [int(time.time())]
    when the driver's file is named. *)
Record services : Type := mk_services {
  scan : exn + list item;
  geocode : string -> option coord;
  matrix_reply : list coord -> http_result;
  update_item : string -> string -> nat -> bool;
  put_object : string -> list csv_row -> option exn;
  time_now : string -> nat
}.

(** [delivery.get("PostcodeRaw", default).strip()], the default being the empty
    string. *)
Definition postcode_of (delivery : item) : string :=
  strip (get_or (item_PostcodeRaw delivery) EmptyString).

Definition is_empty (s : string) : bool :=
  match s with
  | EmptyString => true
  | _ => false
  end.

(** The body of [for delivery in deliveries]. *)
Definition group_step (st : list (string * list item) * list string) (delivery : item)
  : list (string * list item) * list string :=
  let '(grouped_deliveries, unique_addresses) := st in
  let postcode := postcode_of delivery in
  if is_empty postcode then st
  else
    let unique_addresses := set_add postcode unique_addresses in
    let driver_id := get_or (item_DriverID delivery) "Unassigned"%string in
    (group_append driver_id delivery grouped_deliveries, unique_addresses).

Definition group_deliveries (deliveries : list item)
  : list (string * list item) * list string :=
  fold_left group_step deliveries ([], [START_LOCATION]).

(** The [for index, stop in enumerate(stops)] loop: the coordinates, the
    original index and the postcode of each stop that was geocoded. *)
Definition geocoded_stops (address_to_coords : list (string * coord)) (stops : list item)
  : list (coord * nat * string) :=
  flat_map (fun '(index, stop) =>
              let postcode := postcode_of stop in
              match dict_lookup postcode address_to_coords with
              | Some coords => [(coords, index, postcode)]
              | None => []
              end) (enumerate stops).

Definition s3_key_of (driver_id : string) (timestamp : nat) : string :=
  ("driver_routes/" ++ driver_id ++ "_optimized_route_" ++ decimal timestamp ++ ".csv")%string.

(** The body of [for driver, stops in grouped_deliveries.items()]. An
    exception leaves the handler; the effects made before it stay. *)
Definition optimize_driver (sv : services) (fuel : nat)
    (address_to_coords : list (string * coord)) (start_coords : coord)
    (results : run_results) (done : effects) (driver : string) (stops : list item)
  : effects * res run_results :=
  let located := geocoded_stops address_to_coords stops in
  let location_coords := map (fun t => fst (fst t)) located in
  let original_indices := map (fun t => snd (fst t)) located in
  let postcode_mapping := map (fun t => snd t) located in
  if length location_coords <? 2 then (done, Ok results)
  else
    match optimize_route_with_routes_api fuel start_coords location_coords
            (matrix_reply sv (start_coords :: location_coords)) with
    | Ok [] => (done, Ok results)
    | Ok optimized_sequence =>
        match (original_optimized_sequence <-
                 mapM (index original_indices) optimized_sequence ;;
               route_postcodes <- mapM (index postcode_mapping) optimized_sequence ;;
               Ok (original_optimized_sequence, route_postcodes)) with
        | Ok (original_optimized_sequence, route_postcodes) =>
            let '(deliveries_updated, stops, written) :=
              update_route_sequence (update_item sv) stops original_optimized_sequence in
            let done := mk_effects (updates done ++ written) (uploads done) in
            let rows := export_driver_routes_to_csv (map delivery_of_item stops) in
            let s3_key := s3_key_of driver (time_now sv driver) in
            match put_object sv s3_key rows with
            | Some e => (done, Raise e)
            | None =>
                let done := mk_effects (updates done) (uploads done ++ [(s3_key, rows)]) in
                let num_stops := length original_optimized_sequence in
                (done,
                 Ok (mk_results
                       (optimized_drivers results + 1)
                       (total_deliveries_sequenced results + deliveries_updated)
                       (dict_store driver
                          (mk_driver_route
                             (length original_optimized_sequence)
                             ("s3://" ++ BUCKET_NAME ++ "/" ++ s3_key)%string
                             (START_LOCATION :: route_postcodes))
                          (driver_routes results))
                       (dict_store driver
                          (decimal_int (estimated_duration (Z.of_nat num_stops))
                           ++ " minutes")%string
                          (route_durations results))))
            end
        | Raise e => (done, Raise e)
        | OutOfFuel => (done, OutOfFuel)
        end
    | Raise e => (done, Raise e)
    | OutOfFuel => (done, OutOfFuel)
    end.

Fixpoint optimize_drivers (sv : services) (fuel : nat)
    (address_to_coords : list (string * coord)) (start_coords : coord)
    (grouped_deliveries : list (string * list item)) (results : run_results) (done : effects)
  : effects * res run_results :=
  match grouped_deliveries with
  | [] => (done, Ok results)
  | (driver, stops) :: rest =>
      match optimize_driver sv fuel address_to_coords start_coords results done
              driver stops with
      | (done, Ok results) =>
          optimize_drivers sv fuel address_to_coords start_coords rest results done
      | stopped => stopped
      end
  end.

(** The deliveries the grouping loop files under [driver]: those with a
    postcode whose driver, ["Unassigned"] when it has none, is [driver]. *)
Definition filed_under (driver : string) (delivery : item) : bool :=
  negb (is_empty (postcode_of delivery))
  && String.eqb (get_or (item_DriverID delivery) "Unassigned"%string) driver.

Definition no_effects : effects := mk_effects [] [].

Definition lambda_handler (sv : services) (fuel : nat) : effects * res response :=
  match scan sv with
  | inl _ => (no_effects, Ok (mk_response 500 (Message "Failed to scan DynamoDB table")))
  | inr [] => (no_effects, Ok (mk_response 400 (Message "No deliveries found")))
  | inr deliveries =>
      let '(grouped_deliveries, unique_addresses) := group_deliveries deliveries in
      let address_to_coords := geocode_addresses_parallel (geocode sv) unique_addresses in
      match address_to_coords with
      | [] => (no_effects, Ok (mk_response 400 (Message "Failed to fetch coordinates")))
      | _ =>
          match dict_lookup START_LOCATION address_to_coords with
          | None =>
              (no_effects,
               Ok (mk_response 400 (Message "Failed to geocode start location")))
          | Some start_coords =>
              match optimize_drivers sv fuel address_to_coords start_coords
                      grouped_deliveries (mk_results 0 0 [] []) no_effects with
              | (done, Ok results) => (done, Ok (mk_response 200 (Completed results)))
              | (done, Raise e) => (done, Raise e)
              | (done, OutOfFuel) => (done, OutOfFuel)
              end
          end
      end
  end.

End Handler.

(** ** Concrete table items *)

Definition item_of (pk postcode : string) : item :=
  mk_item (Some pk) (Some "METADATA"%string) (Some "Driver 1"%string) (Some postcode)
          None None None None.

Definition items3 : list item :=
  [item_of "DELIVERY#1" "NW10 7PR"; item_of "DELIVERY#2" "W5 2BS";
   item_of "DELIVERY#3" "HA0 1EH"].

(** A table that refuses every update to sequence number 2. *)
Definition refuses_second (pk sk : string) (n : nat) : bool := negb (n =? 2).

(** A table that accepts every update. *)
Definition accepts_all (pk sk : string) (n : nat) : bool := true.

(** ** Concrete services *)

(** A geocoder that knows the depot and the postcodes of [items3]. *)
Definition geocoder0 (address : string) : option (@coord binary64) :=
  if String.eqb address START_LOCATION then Some depot0
  else if String.eqb address "NW10 7PR" then Some (pt 1 0)
  else if String.eqb address "W5 2BS" then Some (pt 5 0)
  else if String.eqb address "HA0 1EH" then Some (pt 2 0)
  else None.

(** A table that holds [items3] and accepts every update, a bucket that
    accepts every file, and a matrix provider that is down. *)
Definition services0 : @services binary64 :=
  mk_services (inr items3) geocoder0 (fun _ => HttpFail URLError) accepts_all
              (fun _ _ => None) (fun _ => 1000).

(** The coordinates found for the depot and the postcodes of [items3]. *)
Definition address_book0 : list (string * @coord binary64) :=
  [(START_LOCATION, depot0); ("NW10 7PR"%string, pt 1 0); ("W5 2BS"%string, pt 5 0);
   ("HA0 1EH"%string, pt 2 0)].

(** Twenty-six deliveries of one driver, on the line of [stops_on_line], and
    the coordinates found for them. *)
Definition items26 : list item :=
  map (fun i => item_of ("DELIVERY#" ++ decimal i) ("PC" ++ decimal i)) (seq 0 26).

Definition address_book26 : list (string * @coord binary64) :=
  (START_LOCATION, depot0)
  :: map (fun i => (("PC" ++ decimal i)%string, pt (float_of_nat (S i)) 0)) (seq 0 26).

(** The services of [services0], with a matrix provider that finds no route
    between any two locations. *)
Definition services26 : @services binary64 :=
  mk_services (inr items26) (fun a => dict_lookup a address_book26)
              (fun _ => failed_reply 26) accepts_all (fun _ _ => None) (fun _ => 1000).

(** [str.strip] on strings that have no white space at either end. *)
Definition stripped (s : string) : string := s.

(** One delivery of another driver. *)
Definition item_d : item :=
  mk_item (Some "DELIVERY#4"%string) (Some "METADATA"%string) (Some "Driver 2"%string)
          (Some "W5 2BS"%string) None None None None.

(** ** The exported rows, position by position *)

(** ["RouteSequence" in delivery] *)
Definition sequenced (d : delivery) : bool :=
  match RouteSequence d with
  | Some _ => true
  | None => false
  end.

(** [f"{hours:02d}:{minutes:02d}"] for [m] minutes after midnight. *)
Definition clock (m : nat) : string :=
  (fmt_02d (m / 60) ++ ":" ++ fmt_02d (m mod 60))%string.

(** The drive time of the first exported row: 20 minutes when the delivery
    that sorts first is sequenced, 8 when it is one the loop skips. *)
Definition first_leg (deliveries : list delivery) : nat :=
  match sorted_by_sequence deliveries with
  | d :: _ => if sequenced d then 20 else 8
  | [] => 20
  end.

(** * Properties *)

Unset Implicit Arguments.

(** ** Results and lists *)

Lemma index_Ok {A : Type} (l : list A) (i : nat) (a : A) :
  index l i = Ok a <-> nth_error l i = Some a.
Proof.
  unfold index. destruct (nth_error l i); split; intros H; inversion H; reflexivity.
Qed.

Lemma index_lt {A : Type} (l : list A) (i : nat) :
  i < length l -> exists a, index l i = Ok a /\ In a l.
Proof.
  intros H. destruct (nth_error l i) as [a|] eqn:E.
  - exists a. split; [apply index_Ok; exact E | eapply nth_error_In; exact E].
  - apply nth_error_None in E. lia.
Qed.

Lemma list_remove_split (l : list nat) (x : nat) :
  In x l ->
  exists l1 l2, l = l1 ++ x :: l2 /\ ~ In x l1 /\ list_remove l x = Ok (l1 ++ l2).
Proof.
  induction l as [|y l IH]; simpl; intros H; [contradiction|].
  destruct (Nat.eqb_spec y x) as [->|Hne].
  - exists [], l. repeat split; auto.
  - destruct H as [H|H]; [congruence|].
    destruct (IH H) as (l1 & l2 & -> & Hn & ->).
    exists (y :: l1), l2. simpl. repeat split; auto.
    intros [E|E]; [congruence | auto].
Qed.

(** ** The nearest-neighbour loop *)

Section NearestNeighbor.

Context {F : Arith}.
Variable start_coords : coord.
Variable location_coords : list coord.
Hypothesis finite : finite_distances start_coords location_coords = true.

Lemma finite_In (p q : coord) :
  In p (start_coords :: location_coords) -> In q location_coords ->
  exists d, euclid p q = Ok d /\ ltb d inf = true.
Proof.
  intros Hp Hq. unfold finite_distances in finite.
  rewrite forallb_forall in finite. specialize (finite p Hp).
  rewrite forallb_forall in finite. specialize (finite q Hq).
  unfold finite_distance in finite.
  destruct (euclid p q) as [d| |]; try discriminate.
  exists d; auto.
Qed.

Lemma nearest_scan_total (cur : coord) (rem : list nat) (best : option nat) (m : num) :
  In cur (start_coords :: location_coords) ->
  (forall x, In x rem -> x < length location_coords) ->
  exists best' m',
    nearest_scan location_coords cur rem best m = Ok (best', m') /\
    (best' = best \/ exists x, best' = Some x /\ In x rem).
Proof.
  intros Hcur. revert best m.
  induction rem as [|idx rest IH]; intros best m Hrem; simpl.
  - exists best, m. auto.
  - destruct (@index_lt _ location_coords idx) as (p & Hp & Hin);
      [apply Hrem; left; reflexivity|].
    rewrite Hp; simpl.
    destruct (finite_In _ _ Hcur Hin) as (d & Hd & _). rewrite Hd; simpl.
    destruct (ltb d m).
    + destruct (IH (Some idx) d) as (b & m' & E & Hb);
        [intros; apply Hrem; right; assumption|].
      exists b, m'. split; [exact E|]. right.
      destruct Hb as [->|(x & -> & Hx)]; [exists idx | exists x]; simpl; auto.
    + destruct (IH best m) as (b & m' & E & Hb); [intros; apply Hrem; right; assumption|].
      exists b, m'. split; [exact E|].
      destruct Hb as [->|(x & -> & Hx)]; [left; reflexivity | right; exists x; simpl; auto].
Qed.

Lemma nearest_scan_some (cur : coord) (rem : list nat) :
  In cur (start_coords :: location_coords) ->
  (forall x, In x rem -> x < length location_coords) ->
  rem <> [] ->
  exists x m', nearest_scan location_coords cur rem None inf = Ok (Some x, m') /\ In x rem.
Proof.
  intros Hcur Hrem Hne. destruct rem as [|idx rest]; [congruence|]. simpl.
  destruct (@index_lt _ location_coords idx) as (p & Hp & Hin);
    [apply Hrem; left; reflexivity|].
  rewrite Hp; simpl.
  destruct (finite_In _ _ Hcur Hin) as (d & Hd & Hlt). rewrite Hd; simpl. rewrite Hlt.
  destruct (nearest_scan_total cur rest (Some idx) d Hcur) as (b & m' & E & Hb);
    [intros; apply Hrem; right; assumption|].
  destruct Hb as [->|(x & -> & Hx)]; [exists idx, m' | exists x, m']; auto.
Qed.

Lemma nn_init_inv :
  nn_invariant start_coords location_coords (nn_init start_coords location_coords).
Proof.
  unfold nn_init, range. constructor; simpl.
  - left; reflexivity.
  - intros x Hx. apply in_seq in Hx. lia.
  - apply seq_NoDup.
  - intros x _ [].
Qed.

(** One iteration visits exactly one unvisited stop. *)
Lemma nn_body_step (s : nn_state) :
  nn_invariant start_coords location_coords s -> remaining_points s <> [] ->
  exists x l1 l2 p,
    remaining_points s = l1 ++ x :: l2 /\ ~ In x l1 /\
    nth_error location_coords x = Some p /\
    nn_body location_coords s = Ok (mk_nn p (l1 ++ l2) (route s ++ [x])).
Proof.
  intros [Hc Hb Hn Hf] Hne. unfold nn_body.
  destruct (nearest_scan_some _ _ Hc Hb Hne) as (x & m' & E & Hx).
  rewrite E; simpl.
  destruct (@index_lt _ location_coords x (Hb x Hx)) as (p & Hp & _).
  rewrite Hp; simpl.
  destruct (list_remove_split _ _ Hx) as (l1 & l2 & El & Hn1 & Er).
  rewrite Er; simpl.
  exists x, l1, l2, p. repeat split; auto. apply index_Ok; exact Hp.
Qed.

Lemma nn_body_inv (s s' : nn_state) :
  nn_invariant start_coords location_coords s -> remaining_points s <> [] ->
  nn_body location_coords s = Ok s' ->
  nn_invariant start_coords location_coords s' /\
  S (length (remaining_points s')) = length (remaining_points s) /\
  Permutation (route s' ++ remaining_points s') (route s ++ remaining_points s) /\
  exists x, In x (remaining_points s) /\ ~ In x (route s) /\ route s' = route s ++ [x].
Proof.
  intros Hinv Hne E.
  destruct (nn_body_step _ Hinv Hne) as (x & l1 & l2 & p & El & Hn1 & Hp & E').
  rewrite E' in E. inversion E; subst s'; clear E. simpl.
  destruct Hinv as [Hc Hb Hn Hf]. rewrite El in *.
  assert (Hx2 : ~ In x l2).
  { apply NoDup_remove_2 in Hn. intros H; apply Hn; apply in_or_app; auto. }
  split; [constructor; simpl|split; [|split]].
  - right. eapply nth_error_In; exact Hp.
  - intros y Hy. apply Hb. apply in_app_or in Hy. apply in_or_app; simpl; tauto.
  - eapply NoDup_remove_1; exact Hn.
  - intros y Hy Hr. apply in_app_or in Hr. destruct Hr as [Hr|[<-|[]]].
    + apply (Hf y); [|exact Hr]. apply in_app_or in Hy. apply in_or_app; simpl; tauto.
    + apply in_app_or in Hy. tauto.
  - rewrite !length_app; simpl. lia.
  - rewrite <- app_assoc. apply Permutation_app_head. simpl.
    apply Permutation_middle.
  - exists x. repeat split; auto.
    + apply in_or_app; simpl; auto.
    + apply Hf. apply in_or_app; simpl; auto.
Qed.

Lemma nn_iter_run (i : nat) : forall s : nn_state,
  nn_invariant start_coords location_coords s -> i <= length (remaining_points s) ->
  exists s_i,
    nn_iter i location_coords s = Ok s_i /\
    nn_invariant start_coords location_coords s_i /\
    length (remaining_points s_i) + i = length (remaining_points s) /\
    Permutation (route s_i ++ remaining_points s_i) (route s ++ remaining_points s).
Proof.
  induction i as [|i IH]; intros s Hinv Hle; simpl.
  - exists s. split; [reflexivity|]. split; [exact Hinv|]. split; [lia|].
    apply Permutation_refl.
  - assert (Hne : remaining_points s <> []).
    { intros E. rewrite E in Hle. simpl in Hle. lia. }
    destruct (nn_body_step s Hinv Hne) as (x & l1 & l2 & p & _ & _ & _ & E).
    destruct (nn_body_inv s _ Hinv Hne E) as (Hinv' & Hlen & Hperm & _).
    rewrite E; simpl.
    destruct (IH _ Hinv') as (s_i & E1 & Hi & Hl & Hp); [simpl in *; lia|].
    exists s_i. split; [exact E1|]. split; [exact Hi|]. split; [simpl in *; lia|].
    eapply Permutation_trans; [exact Hp | exact Hperm].
Qed.

(** The loop runs as many iterations as there are unvisited stops, and no
    fewer units of fuel let it finish. *)
Lemma nn_while_run (fuel : nat) : forall s : nn_state,
  nn_invariant start_coords location_coords s ->
  nn_while fuel location_coords s =
  if length (remaining_points s) <=? fuel
  then (s' <- nn_iter (length (remaining_points s)) location_coords s ;; Ok (route s'))
  else OutOfFuel.
Proof.
  induction fuel as [|fuel IH]; intros s Hinv.
  - destruct s as [c [|x r] rt]; reflexivity.
  - destruct (remaining_points s) as [|x r] eqn:Er.
    + destruct s as [c rem rt]; simpl in *; subst rem; reflexivity.
    + assert (Hne : remaining_points s <> []) by (rewrite Er; discriminate).
      destruct (nn_body_step s Hinv Hne) as (y & l1 & l2 & p & _ & _ & _ & E).
      destruct (nn_body_inv s _ Hinv Hne E) as (Hinv' & Hlen & _ & _).
      simpl nn_while. rewrite Er. rewrite E; simpl bind.
      rewrite (IH _ Hinv'). rewrite Er in Hlen. simpl in Hlen.
      injection Hlen as Hlen. simpl remaining_points in *. rewrite Hlen.
      change (length (x :: r)) with (S (length r)).
      change (S (length r) <=? S fuel) with (length r <=? fuel).
      simpl nn_iter. rewrite E. reflexivity.
Qed.

End NearestNeighbor.

(** The loop of [optimize_chunk_with_routes_api] goes through the same states
    as the loop of [optimize_route_with_routes_api]. *)
Lemma chunk_scan_eq {F : Arith} (locs : list coord) (cur : coord) (rem : list nat) :
  forall (best : option nat) (m : num),
  chunk_scan locs cur rem best m = (r <- nearest_scan locs cur rem best m ;; Ok (fst r)).
Proof.
  induction rem as [|idx rest IH]; intros best m; simpl; [reflexivity|].
  destruct (index locs idx) as [p| |]; simpl; try reflexivity.
  destruct (euclid cur p) as [d| |]; simpl; try reflexivity.
  destruct (ltb d m); apply IH.
Qed.

Lemma chunk_while_eq {F : Arith} (locs : list coord) (fuel : nat) :
  forall (cur : coord) (rem rt : list nat),
  chunk_while fuel locs cur rem rt = nn_while fuel locs (mk_nn cur rem rt).
Proof.
  induction fuel as [|fuel IH]; intros cur rem rt.
  - destruct rem; reflexivity.
  - destruct rem as [|x r]; [reflexivity|].
    remember (x :: r) as rem eqn:Erem.
    assert (Ec : chunk_while (S fuel) locs cur rem rt =
                 (nearest_idx <- chunk_scan locs cur rem None inf ;;
                  match nearest_idx with
                  | Some i =>
                      p <- index locs i ;;
                      r <- list_remove rem i ;;
                      chunk_while fuel locs p r (rt ++ [i])
                  | None => chunk_while fuel locs cur rem rt
                  end)) by (subst rem; reflexivity).
    assert (En : nn_while (S fuel) locs (mk_nn cur rem rt) =
                 (s' <- nn_body locs (mk_nn cur rem rt) ;; nn_while fuel locs s'))
      by (subst rem; reflexivity).
    rewrite Ec, En, chunk_scan_eq. unfold nn_body.
    cbn [current_point remaining_points route].
    destruct (nearest_scan locs cur rem None inf) as [[[i|] m]| |];
      cbn [bind fst]; try reflexivity.
    + destruct (index locs i) as [p| |]; cbn [bind]; try reflexivity.
      destruct (list_remove rem i) as [r'| |]; cbn [bind]; try reflexivity.
      apply IH.
    + apply IH.
Qed.

Lemma nn_iter_snoc {F : Arith} (locs : list coord) (k : nat) : forall s : nn_state,
  nn_iter (S k) locs s = (s' <- nn_iter k locs s ;; nn_body locs s').
Proof.
  induction k as [|k IH]; intros s.
  - simpl. destruct (nn_body locs s); reflexivity.
  - change (nn_iter (S (S k)) locs s)
      with (s1 <- nn_body locs s ;; nn_iter (S k) locs s1).
    change (nn_iter (S k) locs s) with (s1 <- nn_body locs s ;; nn_iter k locs s1).
    destruct (nn_body locs s) as [s1| |]; cbn [bind]; try reflexivity.
    apply IH.
Qed.

(** The route the loop returns lists every stop index once. *)
Lemma nearest_neighbor_permutation {F : Arith} (start_coords : coord)
    (location_coords : list coord) (fuel : nat) :
  finite_distances start_coords location_coords = true ->
  length location_coords <= fuel ->
  exists r, nearest_neighbor_route fuel start_coords location_coords = Ok r /\
            Permutation r (seq 0 (length location_coords)).
Proof.
  intros Hfin Hfuel. unfold nearest_neighbor_route.
  pose proof (nn_init_inv start_coords location_coords) as Hinv.
  rewrite (nn_while_run _ _ Hfin fuel _ Hinv).
  assert (Hlen : length (remaining_points (nn_init start_coords location_coords)) =
                 length location_coords).
  { unfold nn_init, range; simpl. rewrite length_seq. lia. }
  rewrite Hlen. destruct (Nat.leb_spec (length location_coords) fuel) as [_|]; [|lia].
  destruct (nn_iter_run _ _ Hfin (length location_coords) _ Hinv) as (s & E & _ & Hl & Hp);
    [lia|].
  rewrite E. cbn [bind]. exists (route s). split; [reflexivity|].
  assert (Hnil : remaining_points s = []).
  { apply length_zero_iff_nil. lia. }
  rewrite Hnil, app_nil_r in Hp. unfold nn_init, range in Hp. simpl in Hp.
  rewrite Nat.sub_0_r in Hp. exact Hp.
Qed.

(** C7: for a depot and [k] stops at finite distances, the nearest-neighbour
    loop, in [optimize_route_with_routes_api] and in
    [optimize_chunk_with_routes_api] alike, stops after exactly [k] iterations:
    the loop condition holds before each of the first [k] iterations, each of
    them appends one stop that was unvisited and removes it from the unvisited
    ones, none is left after the [k]-th, and the loop returns with [k] units of
    fuel and with no fewer. *)
Theorem nearest_neighbor_terminates_after_k_iterations {F : Arith}
    (start_coords : coord) (location_coords : list coord) :
  finite_distances start_coords location_coords = true ->
  let k := length location_coords in
  let s0 := nn_init start_coords location_coords in
  exists s_k,
    nn_iter k location_coords s0 = Ok s_k /\
    remaining_points s_k = [] /\
    length (route s_k) = k /\
    (forall i, i < k ->
       exists s s' x,
         nn_iter i location_coords s0 = Ok s /\
         nn_iter (S i) location_coords s0 = Ok s' /\
         remaining_points s <> [] /\
         In x (remaining_points s) /\ ~ In x (route s) /\
         route s' = route s ++ [x] /\
         list_remove (remaining_points s) x = Ok (remaining_points s')) /\
    (forall fuel,
       nearest_neighbor_route fuel start_coords location_coords =
       if k <=? fuel then Ok (route s_k) else OutOfFuel) /\
    (forall fuel,
       optimize_chunk_with_routes_api fuel start_coords location_coords =
       if k <=? fuel then Ok (route s_k) else OutOfFuel).
Proof.
  intros Hfin k s0.
  pose proof (nn_init_inv start_coords location_coords) as Hinv. fold s0 in Hinv.
  assert (Hlen : length (remaining_points s0) = k).
  { unfold s0, nn_init, range; simpl. rewrite length_seq. lia. }
  destruct (nn_iter_run _ _ Hfin k s0 Hinv) as (s_k & E & _ & Hl & Hp); [lia|].
  rewrite Hlen in Hl.
  assert (Hnil : remaining_points s_k = []) by (apply length_zero_iff_nil; lia).
  assert (Hwhile : forall fuel, nn_while fuel location_coords s0 =
                                if k <=? fuel then Ok (route s_k) else OutOfFuel).
  { intros fuel. rewrite (nn_while_run _ _ Hfin fuel _ Hinv), Hlen, E. reflexivity. }
  exists s_k. split; [exact E|]. split; [exact Hnil|]. split; [|split; [|split]].
  - apply Permutation_length in Hp. rewrite Hnil, app_nil_r in Hp.
    rewrite Hp. unfold s0, nn_init; simpl. exact Hlen.
  - intros i Hi.
    destruct (nn_iter_run _ _ Hfin i s0 Hinv) as (s & Ei & Hinvi & Hli & _); [lia|].
    rewrite Hlen in Hli.
    assert (Hne : remaining_points s <> []).
    { intros Hn. rewrite Hn in Hli. simpl in Hli. lia. }
    destruct (nn_body_step _ _ Hfin s Hinvi Hne) as (x & l1 & l2 & p & El & Hn1 & _ & Eb).
    destruct (nn_body_inv _ _ Hfin s _ Hinvi Hne Eb) as (_ & _ & _ & y & Hy & Hfresh & Hr).
    simpl in Hr. apply app_inj_tail in Hr. destruct Hr as [_ <-].
    exists s, (mk_nn p (l1 ++ l2) (route s ++ [x])), x.
    split; [exact Ei|]. split; [rewrite nn_iter_snoc, Ei; exact Eb|].
    split; [exact Hne|]. split; [exact Hy|]. split; [exact Hfresh|].
    split; [reflexivity|]. simpl.
    destruct (list_remove_split _ _ Hy) as (l1' & l2' & El' & Hn1' & Er).
    rewrite Er. f_equal.
    rewrite El in El'.
    assert (Hsplit : l1 = l1' /\ l2 = l2').
    { clear - El' Hn1 Hn1'. revert l1' El' Hn1'.
      induction l1 as [|a l1 IH]; intros [|b l1'] E Hn; simpl in *.
      - inversion E; auto.
      - inversion E; subst. exfalso; apply Hn; auto.
      - inversion E; subst. exfalso; apply Hn1; auto.
      - inversion E; subst. destruct (IH (fun H => Hn1 (or_intror H)) l1' H1
                                        (fun H => Hn (or_intror H))) as [-> ->]; auto. }
    destruct Hsplit as [-> ->]. reflexivity.
  - exact Hwhile.
  - intros fuel. unfold optimize_chunk_with_routes_api.
    rewrite chunk_while_eq. apply Hwhile.
Qed.

(** C10: on every depot and list of stops, and with every amount of fuel,
    [optimize_chunk_with_routes_api] returns what the nearest-neighbour loop of
    [optimize_route_with_routes_api] returns: the same permutation, the same
    exception, or neither of them an answer yet. *)
Theorem chunk_optimizer_equals_route_loop {F : Arith} (fuel : nat)
    (start_coords : coord) (coords : list coord) :
  optimize_chunk_with_routes_api fuel start_coords coords =
  nearest_neighbor_route fuel start_coords coords.
Proof.
  unfold optimize_chunk_with_routes_api, nearest_neighbor_route, nn_init.
  apply chunk_while_eq.
Qed.

Lemma nearest_neighbor_terminates_witness :
  finite_distances depot0 stops3 = true /\
  exists s_k,
    nn_iter 3 stops3 (nn_init depot0 stops3) = Ok s_k /\ remaining_points s_k = [].
Proof.
  assert (H : finite_distances depot0 stops3 = true) by (vm_compute; reflexivity).
  split; [exact H|].
  destruct (nearest_neighbor_terminates_after_k_iterations depot0 stops3 H)
    as (s_k & E & Hnil & _).
  exists s_k. split; [exact E | exact Hnil].
Defined.

(** A stop at a NaN longitude is outside the data model (coordinates are
    degrees); on it no distance is below [float('inf')], no stop is ever
    selected, and the loop does not end. *)
Example nearest_neighbor_spins_on_nan (fuel : nat) :
  finite_distances depot0 [pt nan 0] = false /\
  nearest_neighbor_route fuel depot0 [pt nan 0] = OutOfFuel.
Proof.
  split; [vm_compute; reflexivity|].
  unfold nearest_neighbor_route.
  assert (Hbody : nn_body [pt nan 0] (nn_init depot0 [pt nan 0])
                  = Ok (nn_init depot0 [pt nan 0])) by (vm_compute; reflexivity).
  induction fuel as [|fuel IH]; [reflexivity|].
  change (nn_while (S fuel) [pt nan 0] (nn_init depot0 [pt nan 0]))
    with (s' <- nn_body [pt nan 0] (nn_init depot0 [pt nan 0]) ;;
          nn_while fuel [pt nan 0] s').
  rewrite Hbody. exact IH.
Qed.

(** C9: with the depot at (0,0) and the stops (1,0), (5,0), (2,0), whatever the
    provider would answer and with any fuel from 3 on,
    [optimize_route_with_routes_api] returns [0; 2; 1]: it visits (1,0), then
    (2,0), then (5,0). *)
Theorem nearest_neighbor_scenario (fuel : nat) (response : http_result) :
  optimize_route_with_routes_api (3 + fuel) depot0 stops3 response = Ok [0; 2; 1] /\
  mapM (index stops3) [0; 2; 1] = Ok [pt 1 0; pt 2 0; pt 5 0].
Proof.
  split; [destruct fuel|]; vm_compute; reflexivity.
Qed.

(** ** Ties in the nearest-neighbour scan *)

Lemma nn_while_more_fuel {F : Arith} (locs : list coord) (fuel : nat) :
  forall (s : nn_state) (r : list nat) (extra : nat),
  nn_while fuel locs s = Ok r -> nn_while (fuel + extra) locs s = Ok r.
Proof.
  induction fuel as [|fuel IH]; intros s r extra H.
  - destruct s as [c [|x rem] rt]; simpl in H; [|discriminate].
    destruct extra; exact H.
  - destruct s as [c [|x rem] rt]; [exact H|].
    change (nn_while (S fuel + extra) locs (mk_nn c (x :: rem) rt))
      with (s' <- nn_body locs (mk_nn c (x :: rem) rt) ;; nn_while (fuel + extra) locs s').
    change (nn_while (S fuel) locs (mk_nn c (x :: rem) rt))
      with (s' <- nn_body locs (mk_nn c (x :: rem) rt) ;; nn_while fuel locs s') in H.
    destruct (nn_body locs (mk_nn c (x :: rem) rt)) as [s'| |]; cbn [bind] in *;
      try discriminate.
    apply IH; exact H.
Qed.

Lemma list_remove_sorted (l l' : list nat) (x : nat) :
  list_remove l x = Ok l' -> StronglySorted lt l -> StronglySorted lt l'.
Proof.
  revert l'. induction l as [|y l IH]; simpl; intros l' H Hs; [discriminate|].
  inversion Hs as [|? ? Hs' Hall]; subst.
  destruct (Nat.eqb y x); [inversion H; subst; exact Hs'|].
  destruct (list_remove l x) as [r| |] eqn:E; simpl in H; try discriminate.
  inversion H; subst l'; clear H.
  constructor; [apply IH; auto|].
  rewrite Forall_forall in *. intros z Hz. apply Hall.
  clear - E Hz. revert r E z Hz.
  induction l as [|a l IHl]; simpl; intros r E z Hz; [discriminate|].
  destruct (Nat.eqb a x); [inversion E; subst; auto|].
  destruct (list_remove l x) as [r'| |] eqn:E'; simpl in E; try discriminate.
  inversion E; subst r. destruct Hz as [Hz|Hz]; [left; exact Hz | right; eapply IHl; eauto].
Qed.

Lemma nn_iter_sorted {F : Arith} (locs : list coord) (i : nat) :
  forall s s_i : nn_state,
  nn_iter i locs s = Ok s_i ->
  StronglySorted lt (remaining_points s) -> StronglySorted lt (remaining_points s_i).
Proof.
  induction i as [|i IH]; intros s s_i H Hs; simpl in H.
  - inversion H; subst; exact Hs.
  - destruct (nn_body locs s) as [s1| |] eqn:Eb; cbn [bind] in H; try discriminate.
    apply (IH s1 s_i H). unfold nn_body in Eb.
    destruct (nearest_scan locs (current_point s) (remaining_points s) None inf)
      as [[[x|] m]| |]; cbn [bind] in Eb; try discriminate.
    + destruct (index locs x) as [p| |]; cbn [bind] in Eb; try discriminate.
      destruct (list_remove (remaining_points s) x) as [r| |] eqn:Er; cbn [bind] in Eb;
        try discriminate.
      inversion Eb; subst s1; simpl. eapply list_remove_sorted; eauto.
    + inversion Eb; subst; exact Hs.
Qed.

Lemma seq_sorted (a n : nat) : StronglySorted lt (seq a n).
Proof.
  revert a. induction n as [|n IH]; intros a; simpl; constructor; [apply IH|].
  apply Forall_forall. intros x Hx. apply in_seq in Hx. lia.
Qed.

Lemma sorted_before (l1 l2 : list nat) (x y : nat) :
  StronglySorted lt (l1 ++ x :: l2) -> In y (l1 ++ x :: l2) -> y < x -> In y l1.
Proof.
  induction l1 as [|a l1 IH]; simpl; intros Hs Hy Hlt.
  - inversion Hs as [|? ? _ Hall]; subst. destruct Hy as [->|Hy]; [lia|].
    rewrite Forall_forall in Hall. specialize (Hall y Hy). lia.
  - inversion Hs as [|? ? Hs' _]; subst.
    destruct Hy as [->|Hy]; [left; reflexivity | right; apply IH; auto].
Qed.

Section Ties.

Context {F : Arith}.
Hypothesis ltb_irrefl : forall x : num, ltb x x = false.
Hypothesis ltb_trans :
  forall x y z : num, ltb x y = true -> ltb y z = true -> ltb x z = true.

Variable locs : list coord.
Variable cur : coord.

(** The scan either keeps what it started from, when no stop is strictly
    nearer than [m], or it answers the first stop of least distance. *)
Lemma nearest_scan_first_min (rem : list nat) :
  forall (best : option nat) (m : num) (best' : option nat) (m' : num),
  nearest_scan locs cur rem best m = Ok (best', m') ->
  (best' = best /\ m' = m /\
   forall y dy, In y rem -> dist_of locs cur y = Ok dy -> ltb dy m = false)
  \/
  (exists l1 x l2,
     rem = l1 ++ x :: l2 /\ best' = Some x /\ dist_of locs cur x = Ok m' /\
     ltb m' m = true /\
     (forall y dy, In y rem -> dist_of locs cur y = Ok dy -> ltb dy m' = false) /\
     (forall y dy, In y l1 -> dist_of locs cur y = Ok dy -> dy <> m')).
Proof.
  induction rem as [|idx rest IH]; intros best m best' m' H; simpl in H.
  - inversion H; subst. left. split; [reflexivity|]. split; [reflexivity|].
    intros y dy [].
  - destruct (index locs idx) as [p| |] eqn:Ep; cbn [bind] in H; try discriminate.
    destruct (euclid cur p) as [d| |] eqn:Ed; cbn [bind] in H; try discriminate.
    assert (Hd : dist_of locs cur idx = Ok d).
    { unfold dist_of. rewrite Ep; cbn [bind]. exact Ed. }
    assert (Hhd : forall y dy, y = idx -> dist_of locs cur y = Ok dy -> dy = d).
    { intros y dy -> Hy. rewrite Hd in Hy. inversion Hy; reflexivity. }
    destruct (ltb d m) eqn:Elt.
    + right.
      destruct (IH _ _ _ _ H) as [(Eb & Em & Hmin)|
                  (l1 & x & l2 & Er & Eb & Hx & Hlt & Hmin & Hbefore)].
      * subst best' m'. exists [], idx, rest.
        split; [reflexivity|]. split; [reflexivity|]. split; [exact Hd|].
        split; [exact Elt|]. split.
        -- intros y dy [Hy|Hy] Hy'.
           ++ rewrite (Hhd y dy (eq_sym Hy) Hy'). apply ltb_irrefl.
           ++ apply (Hmin y dy Hy Hy').
        -- intros y dy [].
      * subst rest best'. exists (idx :: l1), x, l2.
        split; [reflexivity|]. split; [reflexivity|]. split; [exact Hx|].
        split; [apply (ltb_trans _ _ _ Hlt Elt)|]. split.
        -- intros y dy [Hy|Hy] Hy'.
           ++ rewrite (Hhd y dy (eq_sym Hy) Hy').
              destruct (ltb d m') eqn:E; [|reflexivity].
              rewrite <- (ltb_irrefl d). symmetry. apply (ltb_trans _ _ _ E Hlt).
           ++ apply (Hmin y dy Hy Hy').
        -- intros y dy [Hy|Hy] Hy'.
           ++ rewrite (Hhd y dy (eq_sym Hy) Hy'). intros Eq.
              rewrite Eq, ltb_irrefl in Hlt. discriminate.
           ++ apply (Hbefore y dy Hy Hy').
    + destruct (IH _ _ _ _ H) as [(Eb & Em & Hmin)|
                  (l1 & x & l2 & Er & Eb & Hx & Hlt & Hmin & Hbefore)].
      * left. split; [exact Eb|]. split; [exact Em|].
        intros y dy [Hy|Hy] Hy'.
        -- rewrite (Hhd y dy (eq_sym Hy) Hy'). exact Elt.
        -- apply (Hmin y dy Hy Hy').
      * right. subst rest best'. exists (idx :: l1), x, l2.
        split; [reflexivity|]. split; [reflexivity|]. split; [exact Hx|].
        split; [exact Hlt|]. split.
        -- intros y dy [Hy|Hy] Hy'.
           ++ rewrite (Hhd y dy (eq_sym Hy) Hy').
              destruct (ltb d m') eqn:E; [|reflexivity].
              rewrite <- Elt. symmetry. apply (ltb_trans _ _ _ E Hlt).
           ++ apply (Hmin y dy Hy Hy').
        -- intros y dy [Hy|Hy] Hy'.
           ++ rewrite (Hhd y dy (eq_sym Hy) Hy'). intros Eq.
              rewrite Eq, Hlt in Elt. discriminate.
           ++ apply (Hbefore y dy Hy Hy').
Qed.

End Ties.

(** binary64 [<] is irreflexive and transitive, NaN included. *)
Lemma SFltb_irrefl (x : spec_float) : SFltb x x = false.
Proof.
  unfold SFltb, SFcompare.
  destruct x as [[]|[]| |[] m e]; try reflexivity;
    rewrite Z.compare_refl; change (Pos.compare_cont Eq m m) with (Pos.compare m m);
    rewrite Pos.compare_refl; reflexivity.
Qed.

Lemma SFltb_trans (x y z : spec_float) :
  SFltb x y = true -> SFltb y z = true -> SFltb x z = true.
Proof.
  unfold SFltb, SFcompare.
  destruct x as [[]|[]| |[] m1 e1], y as [[]|[]| |[] m2 e2], z as [[]|[]| |[] m3 e3];
    try discriminate; try reflexivity;
    change (Pos.compare_cont Eq) with Pos.compare;
    destruct (Z.compare_spec e1 e2), (Z.compare_spec e2 e3), (Z.compare_spec e1 e3);
    try discriminate; try reflexivity; try lia;
    destruct (Pos.compare_spec m1 m2), (Pos.compare_spec m2 m3), (Pos.compare_spec m1 m3);
    simpl; try discriminate; try reflexivity; try lia.
Qed.

Lemma binary64_ltb_irrefl (x : @num binary64) : ltb x x = false.
Proof. simpl. rewrite ltb_spec. apply SFltb_irrefl. Qed.

Lemma binary64_ltb_trans (x y z : @num binary64) :
  ltb x y = true -> ltb y z = true -> ltb x z = true.
Proof. simpl. rewrite !ltb_spec. apply SFltb_trans. Qed.

(** C8: the nearest-neighbour route is a function of the depot and of the
    ordered list of stops: two runs that return, whatever fuel each was given,
    return the same order. Where [<] is irreflexive and transitive, as it is on
    floats, the stop each iteration appends is a nearest unvisited one, and no
    unvisited stop of lower index is at the same distance: a tie goes to the
    lowest index. *)
Theorem nearest_neighbor_deterministic_lowest_tie {F : Arith}
    (start_coords : coord) (location_coords : list coord) :
  (forall x : num, ltb x x = false) ->
  (forall x y z : num, ltb x y = true -> ltb y z = true -> ltb x z = true) ->
  finite_distances start_coords location_coords = true ->
  (forall fuel1 fuel2 r1 r2,
     nearest_neighbor_route fuel1 start_coords location_coords = Ok r1 ->
     nearest_neighbor_route fuel2 start_coords location_coords = Ok r2 ->
     r1 = r2) /\
  (forall i, i < length location_coords ->
     exists s s' x dx,
       nn_iter i location_coords (nn_init start_coords location_coords) = Ok s /\
       nn_body location_coords s = Ok s' /\
       route s' = route s ++ [x] /\
       In x (remaining_points s) /\
       dist_of location_coords (current_point s) x = Ok dx /\
       (forall y dy, In y (remaining_points s) ->
          dist_of location_coords (current_point s) y = Ok dy -> ltb dy dx = false) /\
       (forall y dy, In y (remaining_points s) -> y < x ->
          dist_of location_coords (current_point s) y = Ok dy -> dy <> dx)).
Proof.
  intros Hirr Htr Hfin. split.
  - intros fuel1 fuel2 r1 r2 H1 H2. unfold nearest_neighbor_route in *.
    apply nn_while_more_fuel with (extra := fuel2) in H1.
    apply nn_while_more_fuel with (extra := fuel1) in H2.
    rewrite Nat.add_comm in H2. rewrite H1 in H2. inversion H2; reflexivity.
  - intros i Hi.
    pose proof (nn_init_inv start_coords location_coords) as Hinv.
    set (s0 := nn_init start_coords location_coords) in *.
    assert (Hlen : length (remaining_points s0) = length location_coords).
    { unfold s0, nn_init, range; simpl. rewrite length_seq. lia. }
    destruct (nn_iter_run _ _ Hfin i s0 Hinv) as (s & Ei & Hinvi & Hli & _); [lia|].
    rewrite Hlen in Hli.
    assert (Hne : remaining_points s <> []).
    { intros Hn. rewrite Hn in Hli. simpl in Hli. lia. }
    assert (Hsorted : StronglySorted lt (remaining_points s)).
    { apply (nn_iter_sorted location_coords i s0 s Ei). apply seq_sorted. }
    destruct (nearest_scan_some _ _ Hfin (current_point s) (remaining_points s)
                (inv_current Hinvi) (inv_bound Hinvi) Hne)
      as (x & m' & Escan & Hx).
    destruct (nearest_scan_first_min Hirr Htr location_coords (current_point s)
                (remaining_points s) None inf (Some x) m' Escan)
      as [(Habs & _)|(l1 & x' & l2 & Er & Ex & Hdx & _ & Hmin & Hbefore)];
      [discriminate|].
    inversion Ex; subst x'; clear Ex.
    destruct (nn_body_step _ _ Hfin s Hinvi Hne) as (x2 & k1 & k2 & p & El & Hn1 & _ & Eb).
    assert (Ex2 : x2 = x).
    { unfold nn_body in Eb. rewrite Escan in Eb. cbn [bind] in Eb.
      destruct (index location_coords x) as [q| |]; cbn [bind] in Eb; try discriminate.
      destruct (list_remove (remaining_points s) x) as [r| |]; cbn [bind] in Eb;
        try discriminate.
      injection Eb as _ _ Hr. apply app_inj_tail in Hr. destruct Hr as [_ Hr].
      symmetry; exact Hr. }
    subst x2.
    exists s, (mk_nn p (k1 ++ k2) (route s ++ [x])), x, m'.
    split; [exact Ei|]. split; [exact Eb|]. split; [reflexivity|].
    split; [exact Hx|]. split; [exact Hdx|]. split; [exact Hmin|].
    intros y dy Hy Hlt Hdy. apply (Hbefore y dy); [|exact Hdy].
    rewrite Er in Hsorted, Hy. apply (sorted_before l1 l2 x y Hsorted Hy Hlt).
Qed.

Lemma nearest_neighbor_lowest_tie_witness :
  finite_distances depot0 stops_tied = true /\
  nearest_neighbor_route 3 depot0 stops_tied = Ok [0; 1; 2] /\
  (forall fuel r, nearest_neighbor_route fuel depot0 stops_tied = Ok r -> r = [0; 1; 2]).
Proof.
  assert (H : finite_distances depot0 stops_tied = true) by (vm_compute; reflexivity).
  assert (H3 : nearest_neighbor_route 3 depot0 stops_tied = Ok [0; 1; 2])
    by (vm_compute; reflexivity).
  split; [exact H|]. split; [exact H3|].
  intros fuel r Hr.
  exact (proj1 (nearest_neighbor_deterministic_lowest_tie depot0 stops_tied
                  binary64_ltb_irrefl binary64_ltb_trans H) fuel 3 r [0; 1; 2] Hr H3).
Defined.

(** ** Savings merge *)

(** C2: on a matrix with the depot alone the savings merge returns [[]]; on a
    matrix with the depot and one stop it returns [[1]], the row of the stop in
    the matrix, and not [[0]], its position among the stops. *)
Theorem savings_single_stop_keeps_matrix_index {F : Arith} (start_idx : nat)
    (row0 row1 : list num) (duration_matrix : matrix) :
  optimize_with_savings_algorithm start_idx [row0] duration_matrix = Ok [] /\
  optimize_with_savings_algorithm start_idx [row0; row1] duration_matrix = Ok [1] /\
  [1] <> [0].
Proof.
  split; [reflexivity|]. split; [reflexivity|]. discriminate.
Qed.

(** C1: on every matrix for the depot and two stops the savings merge returns
    [[0]]: stop 1 is left out, so the answer is no permutation of {0, 1}. With
    three stops it can leave the function by a [TypeError]. *)
Theorem savings_merge_omits_a_stop {F : Arith}
    (a00 a01 a02 a10 a11 a12 a20 a21 a22 : num) :
  let m := [[a00; a01; a02]; [a10; a11; a12]; [a20; a21; a22]] in
  optimize_with_savings_algorithm 0 m m = Ok [0] /\
  ~ In 1 [0] /\
  In 1 (seq 0 2) /\
  optimize_with_savings_algorithm 0 durations4 durations4 = Raise TypeError.
Proof.
  intros m. split; [reflexivity|]. split; [|split].
  - intros [H|[]]. discriminate.
  - simpl. auto.
  - vm_compute. reflexivity.
Qed.

(** ** Chunk partitioner and fallback *)

(** C3: with 26 stops and a provider that answers, the chunked path does not
    return the 26 indices. Where the provider has no route for any pair, the
    savings merge hands over the seed order [[0]], which is sliced into one
    chunk and not into ceil(26/24) = 2, and the function returns [[0]]; where
    the provider reports the driving distances of stops on a line, the savings
    merge raises [TypeError] and the function returns nothing. *)
Theorem chunked_route_loses_stops (fuel : nat) :
  length (stops_on_line 26) = 26 /\
  calculate_distance_matrix (depot0 :: stops_on_line 26) (failed_reply 26)
    = Ok (Some (zeros 27), Some (zeros 27)) /\
  optimize_with_savings_algorithm 0 (zeros 27) (zeros 27) = Ok [0] /\
  chunks_of [0] (MAX_STOPS_PER_REQUEST - 1) = [[0]] /\
  optimize_route_with_routes_api (1 + fuel) depot0 (stops_on_line 26) (failed_reply 26)
    = Ok [0] /\
  optimize_route_with_routes_api fuel depot0 (stops_on_line 26) (line_reply 26)
    = Raise TypeError.
Proof.
  split; [reflexivity|]. split; [vm_compute; reflexivity|].
  split; [vm_compute; reflexivity|]. split; [reflexivity|].
  split; [destruct fuel|]; vm_compute; reflexivity.
Qed.

(** C4, as the code has it: with 26 stops and a provider that fails, the
    function returns the stops in the order they came in, where the
    nearest-neighbour order is the reverse. *)
Lemma absent_matrices_keep_input_order :
  calculate_distance_matrix (depot0 :: rev (stops_on_line 26)) (HttpFail URLError)
    = Ok (None, None) /\
  optimize_route_with_routes_api 26 depot0 (rev (stops_on_line 26)) (HttpFail URLError)
    = Ok (range 0 26) /\
  nearest_neighbor_route 26 depot0 (rev (stops_on_line 26)) = Ok (rev (range 0 26)) /\
  range 0 26 <> rev (range 0 26).
Proof.
  split; [reflexivity|]. split; [vm_compute; reflexivity|].
  split; [vm_compute; reflexivity|]. vm_compute. discriminate.
Qed.

(** C4, amended: when the provider's matrices are absent and the driver has at
    least two stops, the function returns a non-empty sequence that lists every
    stop index once. With more than 25 stops it is the order the stops came in;
    with 25 stops or fewer, at finite distances, it is the nearest-neighbour
    order, and the provider is not asked. *)
Theorem absent_matrices_still_give_a_sequence {F : Arith} (fuel : nat)
    (start_coords : coord) (location_coords : list coord) (response : http_result) :
  2 <= length location_coords ->
  calculate_distance_matrix (start_coords :: location_coords) response = Ok (None, None) ->
  (MAX_STOPS_PER_REQUEST < length location_coords ->
   optimize_route_with_routes_api fuel start_coords location_coords response
     = Ok (range 0 (length location_coords))) /\
  (length location_coords <= MAX_STOPS_PER_REQUEST ->
   optimize_route_with_routes_api fuel start_coords location_coords response
     = nearest_neighbor_route fuel start_coords location_coords) /\
  (MAX_STOPS_PER_REQUEST < length location_coords \/
   (finite_distances start_coords location_coords = true /\
    length location_coords <= fuel) ->
   exists sequence,
     optimize_route_with_routes_api fuel start_coords location_coords response
       = Ok sequence /\
     sequence <> [] /\
     Permutation sequence (range 0 (length location_coords))).
Proof.
  intros Hn Habsent.
  assert (Hbig : MAX_STOPS_PER_REQUEST < length location_coords ->
                 optimize_route_with_routes_api fuel start_coords location_coords response
                 = Ok (range 0 (length location_coords))).
  { intros Hlt. unfold optimize_route_with_routes_api.
    destruct (Nat.ltb_spec (MAX_STOPS_PER_REQUEST + 1) (length location_coords + 1));
      [|lia].
    rewrite Habsent. reflexivity. }
  assert (Hsmall : length location_coords <= MAX_STOPS_PER_REQUEST ->
                   optimize_route_with_routes_api fuel start_coords location_coords response
                   = nearest_neighbor_route fuel start_coords location_coords).
  { intros Hle. unfold optimize_route_with_routes_api.
    destruct (Nat.ltb_spec (MAX_STOPS_PER_REQUEST + 1) (length location_coords + 1));
      [lia|reflexivity]. }
  assert (Hne : forall l, Permutation l (range 0 (length location_coords)) -> l <> []).
  { intros l Hp ->. apply Permutation_length in Hp. unfold range in Hp.
    rewrite length_seq in Hp. simpl in Hp. lia. }
  split; [exact Hbig|]. split; [exact Hsmall|].
  intros [Hlt|[Hfin Hfuel]].
  - exists (range 0 (length location_coords)).
    split; [apply Hbig; exact Hlt|]. split; [apply Hne|]; apply Permutation_refl.
  - destruct (Nat.le_gt_cases (length location_coords) MAX_STOPS_PER_REQUEST) as [Hle|Hlt].
    + destruct (nearest_neighbor_permutation start_coords location_coords fuel Hfin Hfuel)
        as (r & Er & Hp).
      assert (Hp' : Permutation r (range 0 (length location_coords))).
      { unfold range. rewrite Nat.sub_0_r. exact Hp. }
      exists r. split; [rewrite (Hsmall Hle); exact Er|]. split; [apply Hne|]; exact Hp'.
    + exists (range 0 (length location_coords)).
      split; [apply Hbig; exact Hlt|]. split; [apply Hne|]; apply Permutation_refl.
Qed.

Lemma absent_matrices_still_give_a_sequence_witness :
  exists sequence,
    optimize_route_with_routes_api 3 depot0 stops3 (HttpFail URLError) = Ok sequence /\
    sequence <> [] /\
    Permutation sequence (range 0 (length stops3)).
Proof.
  apply (absent_matrices_still_give_a_sequence 3 depot0 stops3 (HttpFail URLError)).
  - simpl. lia.
  - reflexivity.
  - right. split; [vm_compute; reflexivity | simpl; lia].
Defined.

(** ** Matrix builder *)

Section MatrixBuilder.

Context {F : Arith}.

Lemma list_set_spec {A : Type} (l : list A) : forall (i : nat) (v : A) (l' : list A),
  list_set l i v = Ok l' ->
  nth_error l' i = Some v /\ forall k, k <> i -> nth_error l' k = nth_error l k.
Proof.
  induction l as [|a l IH]; intros i v l' H; destruct i as [|i]; simpl in H;
    try discriminate.
  - inversion H; subst. split; [reflexivity|]. intros [|k] Hk; [congruence|reflexivity].
  - destruct (list_set l i v) as [r| |] eqn:E; cbn [bind] in H; try discriminate.
    inversion H; subst. destruct (IH _ _ _ E) as [Hi Hk].
    split; [exact Hi|]. intros [|k] Hne; [reflexivity|]. simpl. apply Hk. congruence.
Qed.

Lemma matrix_set_spec (m m' : matrix) (i j : nat) (v : json num) :
  matrix_set m i j v = Ok m' ->
  (exists x, float64_of v = inr x /\ cell m' i j = Ok x) /\
  (forall a b, a <> i \/ b <> j -> cell m' a b = cell m a b).
Proof.
  unfold matrix_set. intros H.
  destruct (index m i) as [row| |] eqn:Er; cbn [bind] in H; try discriminate.
  destruct (float64_of v) as [e|x] eqn:Ex; cbn [call bind] in H; try discriminate.
  destruct (list_set row j x) as [row'| |] eqn:Es; cbn [bind] in H; try discriminate.
  destruct (list_set_spec _ _ _ _ Es) as [Hj Hother].
  destruct (list_set_spec _ _ _ _ H) as [Hi Hrows].
  apply index_Ok in Er.
  split.
  - exists x. split; [reflexivity|]. unfold cell, index. rewrite Hi; cbn [bind].
    rewrite Hj. reflexivity.
  - intros a b Hab. unfold cell, index.
    destruct (Nat.eq_dec a i) as [->|Ha].
    + rewrite Hi, Er; cbn [bind]. rewrite Hother; [reflexivity|].
      destruct Hab as [Hab|Hab]; congruence.
    + rewrite (Hrows a Ha). reflexivity.
Qed.

Lemma fill_cell_spec (i j : nat) (element : json num) (ms ms' : matrix * matrix) :
  fill_cell i ms (j, element) = Ok ms' ->
  (forall a b, a <> i \/ b <> j -> cell (snd ms') a b = cell (snd ms) a b) /\
  (forall v, reports_traffic element v ->
             exists x, float64_of v = inr x /\ cell (snd ms') i j = Ok x).
Proof.
  unfold fill_cell. intros H.
  destruct (dict_get element "status" JNull) as [st| |] eqn:Est; cbn [bind] in H;
    try discriminate.
  destruct (is_OK st) eqn:Eok.
  - destruct (dict_get element "distance" (JObj [])) as [d| |]; cbn [bind] in H;
      try discriminate.
    destruct (dict_get d "value" (JNum zero)) as [distance| |]; cbn [bind] in H;
      try discriminate.
    destruct (dict_get element "duration" (JObj [])) as [t| |]; cbn [bind] in H;
      try discriminate.
    destruct (dict_get t "value" (JNum zero)) as [duration| |]; cbn [bind] in H;
      try discriminate.
    destruct (dict_has element "duration_in_traffic") as [has| |] eqn:Ehas;
      cbn [bind] in H; try discriminate.
    match type of H with
    | bind ?c _ = _ => destruct c as [duration'| |] eqn:Edur
    end; cbn [bind] in H; try discriminate.
    destruct (matrix_set (fst ms) i j distance) as [dm| |]; cbn [bind] in H;
      try discriminate.
    destruct (matrix_set (snd ms) i j duration') as [tm| |] eqn:Etm; cbn [bind] in H;
      try discriminate.
    inversion H; subst ms'; clear H. cbn [snd].
    destruct (matrix_set_spec _ _ _ _ _ Etm) as [Hcell Hframe].
    split; [exact Hframe|].
    intros v (fields & status & tf & -> & Hst & _ & Htf & Hv).
    cbn [dict_has] in Ehas. rewrite Htf in Ehas. inversion Ehas; subst has.
    cbn [dict_get bind] in Edur. rewrite Htf in Edur.
    cbn [dict_get bind] in Edur. rewrite Hv in Edur.
    inversion Edur; subst duration'. exact Hcell.
  - inversion H; subst ms'. split; [reflexivity|].
    intros v (fields & status & tf & -> & Hst & Hok & _).
    cbn [dict_get] in Est. rewrite Hst in Est. inversion Est; subst st. congruence.
Qed.

Lemma fill_cells_spec (i : nat) (elements : list (json num)) :
  forall (b : nat) (ms ms' : matrix * matrix),
  foldM (fill_cell i) (combine (seq b (length elements)) elements) ms = Ok ms' ->
  (forall a c, a <> i \/ c < b -> cell (snd ms') a c = cell (snd ms) a c) /\
  (forall k element v,
     nth_error elements k = Some element -> reports_traffic element v ->
     exists x, float64_of v = inr x /\ cell (snd ms') i (b + k) = Ok x).
Proof.
  induction elements as [|e rest IH]; intros b ms ms' H;
    cbn [length seq combine foldM] in H.
  - inversion H; subst. split; [reflexivity|]. intros [|k] ? ? Hk; discriminate.
  - destruct (fill_cell i ms (b, e)) as [ms1| |] eqn:E1; cbn [bind] in H; try discriminate.
    destruct (fill_cell_spec _ _ _ _ _ E1) as [Hframe1 Hcell1].
    destruct (IH _ _ _ H) as [Hframe Hcells].
    split.
    + intros a c Hac. rewrite Hframe; [apply Hframe1|]; destruct Hac; auto; right; lia.
    + intros [|k] element v Hk Hv; simpl in Hk.
      * inversion Hk; subst element. rewrite Nat.add_0_r.
        destruct (Hcell1 v Hv) as (x & Hx & Hc). exists x. split; [exact Hx|].
        rewrite Hframe; [exact Hc | right; lia].
      * replace (b + S k) with (S b + k) by lia. eapply Hcells; eauto.
Qed.

Lemma fill_rows_spec (rows : list (json num)) :
  forall (a : nat) (ms ms' : matrix * matrix),
  foldM fill_row (combine (seq a (length rows)) rows) ms = Ok ms' ->
  (forall r c, r < a -> cell (snd ms') r c = cell (snd ms) r c) /\
  (forall k row elements j element v,
     nth_error rows k = Some row ->
     (els <- dict_get row "elements" (JArr []) ;; iter els) = Ok elements ->
     nth_error elements j = Some element -> reports_traffic element v ->
     exists x, float64_of v = inr x /\ cell (snd ms') (a + k) j = Ok x).
Proof.
  induction rows as [|row0 rest IH]; intros a ms ms' H; cbn [length seq combine foldM] in H.
  - inversion H; subst. split; [reflexivity|]. intros [|k] ? ? ? ? ? Hk; discriminate.
  - destruct (fill_row ms (a, row0)) as [ms1| |] eqn:E1; cbn [bind] in H; try discriminate.
    destruct (IH _ _ _ H) as [Hframe Hcells].
    unfold fill_row in E1.
    destruct (dict_get row0 "elements" (JArr [])) as [ev| |] eqn:Eev; cbn [bind] in E1;
      try discriminate.
    destruct (iter ev) as [els0| |] eqn:Eit; cbn [bind] in E1; try discriminate.
    destruct (fill_cells_spec _ _ _ _ _ E1) as [Hframe0 Hcells0].
    split.
    + intros r c Hr. rewrite Hframe; [|lia]. apply Hframe0. left; lia.
    + intros [|k] row elements j element v Hk Hels Hj Hv; simpl in Hk.
      * inversion Hk; subst row. rewrite Eev in Hels; cbn [bind] in Hels.
        rewrite Eit in Hels. inversion Hels; subst elements.
        destruct (Hcells0 j element v Hj Hv) as (x & Hx & Hc). simpl in Hc.
        exists x. split; [exact Hx|]. rewrite Nat.add_0_r.
        rewrite Hframe; [exact Hc | lia].
      * replace (a + S k) with (S a + k) by lia. eapply Hcells; eauto.
Qed.

End MatrixBuilder.

Lemma bind_returns {A B : Type} (c : res A) (k : A -> res B) :
  c <> OutOfFuel -> (forall a, k a <> OutOfFuel) -> bind c k <> OutOfFuel.
Proof.
  intros Hc Hk. destruct c as [a| |]; simpl; [apply Hk | discriminate | congruence].
Qed.

Lemma foldM_returns {A B : Type} (f : B -> A -> res B) (l : list A) :
  (forall acc x, f acc x <> OutOfFuel) -> forall acc, foldM f l acc <> OutOfFuel.
Proof.
  intros Hf. induction l as [|x l IH]; intros acc; simpl; [discriminate|].
  apply bind_returns; [apply Hf | exact IH].
Qed.

Lemma index_returns {A : Type} (l : list A) (i : nat) : index l i <> OutOfFuel.
Proof. unfold index. destruct (nth_error l i); discriminate. Qed.

Lemma list_set_returns {A : Type} (l : list A) :
  forall (i : nat) (v : A), list_set l i v <> OutOfFuel.
Proof.
  induction l as [|a l IH]; intros [|i] v; simpl; try discriminate.
  apply bind_returns; [apply IH | discriminate].
Qed.

Lemma dict_get_returns {F : Arith} (d : json num) (k : string) (default : json num) :
  dict_get d k default <> OutOfFuel.
Proof. destruct d; discriminate. Qed.

Lemma dict_has_returns {F : Arith} (d : json num) (k : string) :
  dict_has d k <> OutOfFuel.
Proof. destruct d; discriminate. Qed.

Lemma iter_returns {F : Arith} (v : json num) : iter v <> OutOfFuel.
Proof. destruct v; discriminate. Qed.

Lemma call_returns {A : Type} (r : exn + A) : call r <> OutOfFuel.
Proof. destruct r; discriminate. Qed.

Lemma matrix_set_returns {F : Arith} (m : matrix) (i j : nat) (v : json num) :
  matrix_set m i j v <> OutOfFuel.
Proof.
  unfold matrix_set.
  apply bind_returns; [apply index_returns|]. intros row.
  apply bind_returns; [apply call_returns|]. intros x.
  apply bind_returns; [apply list_set_returns|]. intros row'. apply list_set_returns.
Qed.

Lemma fill_cell_returns {F : Arith} (i : nat) (ms : matrix * matrix) (je : nat * json num) :
  fill_cell i ms je <> OutOfFuel.
Proof.
  destruct je as [j element]. unfold fill_cell.
  apply bind_returns; [apply dict_get_returns|]. intros st.
  destruct (is_OK st); [|discriminate].
  repeat (apply bind_returns; [try apply dict_get_returns; try apply dict_has_returns;
                               try apply matrix_set_returns | intros ?]);
    try discriminate.
  destruct a3; [|discriminate].
  apply bind_returns; [apply dict_get_returns | intros; apply dict_get_returns].
Qed.

Lemma fill_row_returns {F : Arith} (ms : matrix * matrix) (ir : nat * json num) :
  fill_row ms ir <> OutOfFuel.
Proof.
  destruct ir as [i row]. unfold fill_row.
  apply bind_returns; [apply dict_get_returns|]. intros ev.
  apply bind_returns; [apply iter_returns|]. intros els.
  apply foldM_returns. intros; apply fill_cell_returns.
Qed.

Lemma matrix_of_response_returns {F : Arith} (locations : list coord)
    (response : http_result) :
  matrix_of_response locations response <> OutOfFuel.
Proof.
  unfold matrix_of_response.
  apply bind_returns; [destruct response; discriminate|]. intros data.
  apply bind_returns; [apply dict_get_returns|]. intros st.
  destruct (is_OK st); [|discriminate].
  apply bind_returns; [apply dict_get_returns|]. intros rv.
  apply bind_returns; [apply iter_returns|]. intros rows.
  apply bind_returns; [|discriminate].
  apply foldM_returns. intros; apply fill_row_returns.
Qed.

(** ** The nearest-neighbour order is a permutation *)

(** X1: for a depot and [n] stops at finite distances, and with fuel for [n]
    iterations, the nearest-neighbour loop of [optimize_route_with_routes_api]
    and [optimize_chunk_with_routes_api] return the same list, in which every
    index of 0..n-1 occurs once and nothing else occurs. *)
Theorem nearest_neighbor_returns_a_permutation {F : Arith} (fuel : nat)
    (start_coords : coord) (location_coords : list coord) :
  finite_distances start_coords location_coords = true ->
  length location_coords <= fuel ->
  exists r,
    nearest_neighbor_route fuel start_coords location_coords = Ok r /\
    optimize_chunk_with_routes_api fuel start_coords location_coords = Ok r /\
    Permutation r (seq 0 (length location_coords)) /\
    NoDup r /\
    length r = length location_coords /\
    (forall i, In i r <-> i < length location_coords).
Proof.
  intros Hfin Hfuel.
  destruct (nearest_neighbor_permutation start_coords location_coords fuel Hfin Hfuel)
    as (r & Er & Hp).
  exists r. split; [exact Er|]. split.
  { unfold optimize_chunk_with_routes_api. rewrite chunk_while_eq. exact Er. }
  split; [exact Hp|]. split; [|split].
  - apply (Permutation_NoDup (Permutation_sym Hp)). apply seq_NoDup.
  - rewrite (Permutation_length Hp). apply length_seq.
  - intros i. split; intros H.
    + apply (Permutation_in _ Hp) in H. apply in_seq in H. lia.
    + apply (Permutation_in _ (Permutation_sym Hp)). apply in_seq. lia.
Qed.

Lemma nearest_neighbor_returns_a_permutation_witness :
  exists r,
    nearest_neighbor_route 3 depot0 stops3 = Ok r /\
    optimize_chunk_with_routes_api 3 depot0 stops3 = Ok r /\
    Permutation r (seq 0 (length stops3)) /\
    NoDup r /\
    length r = length stops3 /\
    (forall i, In i r <-> i < length stops3).
Proof.
  apply (nearest_neighbor_returns_a_permutation 3 depot0 stops3).
  - vm_compute. reflexivity.
  - simpl. lia.
Defined.

(** ** Slicing and refining a seed order *)

Lemma firstn_plus {A : Type} (l : list A) : forall a b : nat,
  firstn (a + b) l = firstn a l ++ firstn b (skipn a l).
Proof.
  induction l as [|x l IH]; intros [|a] b; simpl; try reflexivity.
  - destruct b; reflexivity.
  - rewrite IH. reflexivity.
Qed.

Lemma slice_chunk {A : Type} (l : list A) (i c : nat) :
  slice l i (i + c) = firstn c (skipn i l).
Proof. unfold slice. replace (i + c - i) with c by lia. reflexivity. Qed.

Lemma chunks_prefix (l : list nat) (c m : nat) :
  concat (map (fun i => slice l i (i + c)) (map (fun k => 0 + k * c) (seq 0 m)))
  = firstn (m * c) l.
Proof.
  induction m as [|m IH]; [reflexivity|].
  rewrite seq_S, !map_app, concat_app, IH. simpl.
  rewrite slice_chunk, app_nil_r.
  replace (c + m * c) with (m * c + c) by lia. symmetry. apply firstn_plus.
Qed.

Lemma ceil_covers (n c : nat) : 0 < c -> n <= (n + c - 1) / c * c.
Proof.
  intros Hc. pose proof (Nat.div_mod_eq (n + c - 1) c) as E.
  pose proof (Nat.mod_upper_bound (n + c - 1) c) as Hm. nia.
Qed.

Lemma chunks_of_concat (l : list nat) (c : nat) : 0 < c -> concat (chunks_of l c) = l.
Proof.
  intros Hc. unfold chunks_of, range_step. rewrite chunks_prefix.
  apply firstn_all2. rewrite Nat.sub_0_r. apply ceil_covers. exact Hc.
Qed.

Lemma chunks_of_count (l : list nat) (c : nat) :
  length (chunks_of l c) = (length l + c - 1) / c.
Proof.
  unfold chunks_of, range_step. rewrite !length_map, length_seq, Nat.sub_0_r. reflexivity.
Qed.

Lemma chunks_of_size (l : list nat) (c : nat) (chunk : list nat) :
  In chunk (chunks_of l c) -> length chunk <= c.
Proof.
  unfold chunks_of. intros H. apply in_map_iff in H. destruct H as (i & <- & _).
  rewrite slice_chunk. apply firstn_le_length.
Qed.

Lemma mapM_index {A : Type} (xs : list A) (d : A) (l : list nat) :
  (forall i, In i l -> i < length xs) ->
  mapM (index xs) l = Ok (map (fun i => nth i xs d) l).
Proof.
  induction l as [|i l IH]; intros H; simpl; [reflexivity|].
  assert (Hi : i < length xs) by (apply H; left; reflexivity).
  unfold index at 1. rewrite (nth_error_nth' xs d Hi). cbn [bind].
  rewrite IH; [reflexivity|]. intros j Hj. apply H. right; exact Hj.
Qed.

Lemma map_nth_seq {A : Type} (xs : list A) (d : A) :
  map (fun i => nth i xs d) (seq 0 (length xs)) = xs.
Proof.
  apply nth_ext with (d := d) (d' := d).
  - rewrite length_map, length_seq. reflexivity.
  - intros n Hn. rewrite length_map, length_seq in Hn.
    rewrite (nth_indep _ d (nth 0 xs d)) by (rewrite length_map, length_seq; exact Hn).
    rewrite (map_nth (fun i => nth i xs d) (seq 0 (length xs)) 0 n).
    rewrite seq_nth by exact Hn. reflexivity.
Qed.

Lemma finite_distances_sub {F : Arith} (start_coords : coord) (locs locs' : list coord) :
  (forall q, In q locs' -> In q locs) ->
  finite_distances start_coords locs = true ->
  finite_distances start_coords locs' = true.
Proof.
  intros Hsub Hfin. unfold finite_distances in *.
  rewrite forallb_forall in Hfin. apply forallb_forall. intros p Hp.
  assert (Hp' : In p (start_coords :: locs)).
  { destruct Hp as [Hp|Hp]; [left; exact Hp | right; apply Hsub; exact Hp]. }
  specialize (Hfin p Hp'). rewrite forallb_forall in Hfin.
  apply forallb_forall. intros q Hq. apply Hfin. apply Hsub. exact Hq.
Qed.

(** Refining a chunk of valid stop indices permutes it. *)
Lemma refine_chunk_permutes {F : Arith} (fuel : nat) (start_coords : coord)
    (location_coords : list coord) (refined_indices chunk : list nat) :
  finite_distances start_coords location_coords = true ->
  (forall i, In i chunk -> i < length location_coords) ->
  length chunk <= fuel ->
  exists picked,
    refine_chunk fuel start_coords location_coords refined_indices chunk
      = Ok (refined_indices ++ picked) /\
    Permutation picked chunk.
Proof.
  intros Hfin Hbound Hfuel. unfold refine_chunk.
  rewrite (mapM_index location_coords start_coords chunk Hbound). cbn [bind].
  set (chunk_coords := map (fun i => nth i location_coords start_coords) chunk).
  assert (Hsub : forall q, In q chunk_coords -> In q location_coords).
  { intros q Hq. apply in_map_iff in Hq. destruct Hq as (i & <- & Hi).
    apply nth_In. apply Hbound. exact Hi. }
  assert (Hlen : length chunk_coords = length chunk) by apply length_map.
  destruct (nearest_neighbor_permutation start_coords chunk_coords fuel
              (finite_distances_sub _ _ _ Hsub Hfin)) as (r & Er & Hp); [lia|].
  unfold optimize_chunk_with_routes_api. rewrite chunk_while_eq.
  unfold nearest_neighbor_route, nn_init in Er. rewrite Er. cbn [bind].
  rewrite Hlen in Hp.
  rewrite (mapM_index chunk 0 r).
  - cbn [bind]. eexists. split; [reflexivity|].
    eapply Permutation_trans; [apply Permutation_map; exact Hp|].
    rewrite map_nth_seq. apply Permutation_refl.
  - intros i Hi. apply (Permutation_in _ Hp) in Hi. apply in_seq in Hi. lia.
Qed.

Lemma refine_chunks_permute {F : Arith} (fuel : nat) (start_coords : coord)
    (location_coords : list coord) (chunks : list (list nat)) :
  finite_distances start_coords location_coords = true ->
  (forall chunk, In chunk chunks ->
     length chunk <= fuel /\ forall i, In i chunk -> i < length location_coords) ->
  forall refined_indices,
  exists out,
    foldM (refine_chunk fuel start_coords location_coords) chunks refined_indices
      = Ok (refined_indices ++ out) /\
    Permutation out (concat chunks).
Proof.
  intros Hfin. induction chunks as [|chunk chunks IH]; intros Hall acc; simpl.
  - exists []. rewrite app_nil_r. split; [reflexivity | constructor].
  - destruct (Hall chunk (or_introl eq_refl)) as [Hfuel Hbound].
    destruct (refine_chunk_permutes fuel start_coords location_coords acc chunk
                Hfin Hbound Hfuel) as (picked & E & Hp).
    rewrite E. cbn [bind].
    destruct (IH (fun c Hc => Hall c (or_intror Hc)) (acc ++ picked)) as (out & E' & Hp').
    exists (picked ++ out). rewrite app_assoc. split; [exact E'|].
    apply Permutation_app; assumption.
Qed.

(** X2: given a seed order that lists the [n] stops once each, the partitioner
    (lines 221-230 of [optimize_route_with_routes_api]) slices it into
    ceil(n / 24) contiguous chunks of at most 24 indices, and the refined
    chunks, concatenated, list every stop index once. *)
Theorem partitioner_keeps_every_stop {F : Arith} (fuel : nat) (start_coords : coord)
    (location_coords : list coord) (optimized_indices : list nat) :
  finite_distances start_coords location_coords = true ->
  Permutation optimized_indices (seq 0 (length location_coords)) ->
  MAX_STOPS_PER_REQUEST - 1 <= fuel ->
  let chunk_size := MAX_STOPS_PER_REQUEST - 1 in
  let chunks := chunks_of optimized_indices chunk_size in
  length chunks = (length location_coords + chunk_size - 1) / chunk_size /\
  (forall chunk, In chunk chunks -> length chunk <= chunk_size) /\
  concat chunks = optimized_indices /\
  exists refined_indices,
    foldM (refine_chunk fuel start_coords location_coords) chunks [] = Ok refined_indices /\
    length refined_indices = length location_coords /\
    Permutation refined_indices (seq 0 (length location_coords)).
Proof.
  intros Hfin Hseed Hfuel chunk_size chunks.
  assert (Hc : 0 < chunk_size) by (unfold chunk_size, MAX_STOPS_PER_REQUEST; lia).
  assert (Hconcat : concat chunks = optimized_indices)
    by (apply chunks_of_concat; exact Hc).
  split.
  { unfold chunks. rewrite chunks_of_count, (Permutation_length Hseed), length_seq.
    reflexivity. }
  split; [intros chunk; apply chunks_of_size|]. split; [exact Hconcat|].
  destruct (refine_chunks_permute fuel start_coords location_coords chunks Hfin)
    with (refined_indices := @nil nat) as (out & E & Hp).
  { intros chunk Hin. split.
    - apply chunks_of_size in Hin. fold chunk_size in Hin. lia.
    - intros i Hi.
      assert (Hi' : In i optimized_indices).
      { rewrite <- Hconcat. apply in_concat. exists chunk. split; assumption. }
      apply (Permutation_in _ Hseed) in Hi'. apply in_seq in Hi'. lia. }
  exists out. split; [exact E|].
  assert (Hperm : Permutation out (seq 0 (length location_coords))).
  { rewrite Hconcat in Hp. eapply Permutation_trans; [exact Hp | exact Hseed]. }
  split; [|exact Hperm].
  rewrite (Permutation_length Hperm). apply length_seq.
Qed.

Lemma partitioner_keeps_every_stop_witness :
  length (chunks_of (rev (seq 0 26)) 24) = 2 /\
  exists refined_indices,
    foldM (refine_chunk 24 depot0 (stops_on_line 26)) (chunks_of (rev (seq 0 26)) 24) []
      = Ok refined_indices /\
    length refined_indices = 26.
Proof.
  destruct (partitioner_keeps_every_stop 24 depot0 (stops_on_line 26) (rev (seq 0 26)))
    as (Hcount & _ & _ & out & E & Hlen & _).
  - vm_compute. reflexivity.
  - apply Permutation_sym, Permutation_rev.
  - unfold MAX_STOPS_PER_REQUEST. lia.
  - split; [reflexivity|]. exists out. split; [exact E | exact Hlen].
Defined.

(** ** The savings merge loses stops *)

Lemma list_set_total {A : Type} (l : list (list A)) :
  forall (k : nat) (v : list A) (l' : list (list A)) (old : list A),
  list_set l k v = Ok l' -> nth_error l k = Some old ->
  length (concat l') + length old = length (concat l) + length v.
Proof.
  induction l as [|a l IH]; intros [|k] v l' old H Ho; simpl in *; try discriminate.
  - inversion H; inversion Ho; subst. simpl. rewrite !length_app. lia.
  - destruct (list_set l k v) as [r| |] eqn:E; cbn [bind] in H; try discriminate.
    inversion H; subst. simpl. rewrite !length_app. specialize (IH _ _ _ _ E Ho). lia.
Qed.

Lemma list_pop_total {A : Type} (l : list (list A)) :
  forall (k : nat) (l' : list (list A)),
  list_pop l k = Ok l' ->
  exists x, nth_error l k = Some x /\ length (concat l') + length x = length (concat l).
Proof.
  induction l as [|a l IH]; intros [|k] l' H; simpl in *; try discriminate.
  - inversion H; subst. exists a. split; [reflexivity|]. rewrite length_app. lia.
  - destruct (list_pop l k) as [r| |] eqn:E; cbn [bind] in H; try discriminate.
    inversion H; subst. destruct (IH _ _ E) as (x & Hx & Hl).
    exists x. split; [exact Hx|]. simpl. rewrite !length_app. lia.
Qed.

(** Replacing one of two routes by both and removing the one at the larger
    position never adds stops, and loses the replaced one's when it is at the
    larger position. *)
Lemma set_pop_total (routes routes1 routes' : list (list nat)) (a b x : nat)
    (r_a r_b v : list nat) :
  nth_error routes a = Some r_a -> nth_error routes b = Some r_b -> a <> b ->
  x = a \/ x = b ->
  length v = length r_a + length r_b ->
  list_set routes x v = Ok routes1 ->
  list_pop routes1 (Nat.max a b) = Ok routes' ->
  length (concat routes') <= length (concat routes) /\
  (x = Nat.max a b -> x = b ->
   length (concat routes') + length r_b = length (concat routes)).
Proof.
  intros Ha Hb Hab Hx Hv Hset Hpop.
  destruct (list_set_spec _ _ _ _ Hset) as [Hnew Hkeep].
  destruct (list_pop_total _ _ _ Hpop) as (p & Hp & Hlen).
  destruct Hx as [-> | ->].
  - pose proof (list_set_total _ _ _ _ _ Hset Ha) as Ht.
    destruct (Nat.max_spec a b) as [[Hlt Hm]|[Hle Hm]]; rewrite Hm in *.
    + rewrite (Hkeep b (not_eq_sym Hab)), Hb in Hp. inversion Hp; subst p.
      split; [lia|]. intros; lia.
    + rewrite Hnew in Hp. inversion Hp; subst p. split; [lia|]. intros; lia.
  - pose proof (list_set_total _ _ _ _ _ Hset Hb) as Ht.
    destruct (Nat.max_spec a b) as [[Hlt Hm]|[Hle Hm]]; rewrite Hm in *.
    + rewrite Hnew in Hp. inversion Hp; subst p. split; [lia|]. intros; lia.
    + rewrite (Hkeep a Hab), Ha in Hp. inversion Hp; subst p.
      split; [lia|]. intros; lia.
Qed.

Lemma merge_at_total (routes routes' : list (list nat)) (i j a b : nat) :
  a <> b -> merge_at routes i j a b = Ok routes' ->
  length (concat routes') <= length (concat routes) /\
  (a < b -> nth_error routes a = Some [i] -> nth_error routes b = Some [j] ->
   length (concat routes') < length (concat routes)).
Proof.
  intros Hab H. unfold merge_at in H.
  destruct (index routes a) as [r_i| |] eqn:Ea; cbn [bind] in H; try discriminate.
  destruct (at_end r_i i) as [i_at_end| |] eqn:Ei; cbn [bind] in H; try discriminate.
  destruct (index routes b) as [r_j| |] eqn:Eb; cbn [bind] in H; try discriminate.
  destruct (at_end r_j j) as [j_at_end| |] eqn:Ej; cbn [bind] in H; try discriminate.
  apply index_Ok in Ea, Eb.
  destruct (i_at_end && j_at_end) eqn:Eends.
  - destruct (index r_i 0) as [h_i| |] eqn:Ehi; cbn [bind] in H; try discriminate.
    destruct (index r_j 0) as [h_j| |] eqn:Ehj; cbn [bind] in H; try discriminate.
    match type of H with
    | bind ?c _ = _ => destruct c as [routes1| |] eqn:Eset
    end; cbn [bind] in H; try discriminate.
    destruct (Nat.eqb h_i i) eqn:Ehi'; destruct (Nat.eqb h_j j) eqn:Ehj';
      match type of Eset with
      | list_set _ ?x ?v = _ =>
          assert (Hv : length v = length r_i + length r_j)
            by (rewrite length_app, ?length_rev; lia);
          assert (Hx : x = a \/ x = b) by auto;
          destruct (set_pop_total routes routes1 routes' a b x r_i r_j v
                      Ea Eb Hab Hx Hv Eset H) as [Hle Hstrict]
      end;
      (split; [exact Hle|]); intros Hlt Hi Hj;
      rewrite Hi in Ea; rewrite Hj in Eb; inversion Ea; inversion Eb; subst r_i r_j;
      cbn in Ehi, Ehj; inversion Ehi; inversion Ehj; subst h_i h_j;
      rewrite ?Nat.eqb_refl in *; try discriminate.
    assert (Hm : b = Nat.max a b) by lia.
    specialize (Hstrict Hm eq_refl). simpl in Hstrict. lia.
  - inversion H; subst routes'. split; [lia|]. intros Hlt Hi Hj.
    rewrite Hi in Ea; rewrite Hj in Eb; inversion Ea; inversion Eb; subst r_i r_j.
    unfold at_end in Ei, Ej. cbn in Ei, Ej. rewrite Nat.eqb_refl in Ei, Ej.
    inversion Ei; inversion Ej; subst. discriminate.
Qed.

Lemma option_nat_eqb_false (a b : nat) : option_nat_eqb (Some a) (Some b) = false -> a <> b.
Proof. simpl. intros H ->. rewrite Nat.eqb_refl in H. discriminate. Qed.

Lemma merge_pair_total {F : Arith} (routes routes' : list (list nat)) (e : saving_entry) :
  merge_pair routes e = Ok routes' ->
  length (concat routes') <= length (concat routes).
Proof.
  destruct e as [[i j] s]. unfold merge_pair.
  destruct (locate i j routes 0 None None) as [route_i route_j].
  destruct (option_nat_eqb route_i route_j) eqn:E.
  - intros H; inversion H; subst; lia.
  - destruct route_i as [a|]; [|discriminate].
    destruct route_j as [b|]; [|discriminate].
    intros H. apply (merge_at_total routes routes' i j a b (option_nat_eqb_false _ _ E) H).
Qed.

Lemma merge_pairs_total {F : Arith} (savings : list saving_entry) :
  forall routes routes' : list (list nat),
  foldM merge_pair savings routes = Ok routes' ->
  length (concat routes') <= length (concat routes).
Proof.
  induction savings as [|e rest IH]; intros routes routes' H; cbn [foldM] in H.
  - inversion H; subst; lia.
  - destruct (merge_pair routes e) as [routes1| |] eqn:E; cbn [bind] in H;
      try discriminate.
    apply merge_pair_total in E. apply IH in H. lia.
Qed.

(** Where every stop is a route of its own, each is found at its place. *)
Lemma locate_singletons (i j m : nat) : forall (a idx : nat) (route_i route_j : option nat),
  locate i j (map (fun k => [k]) (seq a m)) idx route_i route_j =
  (if (a <=? i) && (i <? a + m) then Some (idx + (i - a)) else route_i,
   if (a <=? j) && (j <? a + m) then Some (idx + (j - a)) else route_j).
Proof.
  induction m as [|m IH]; intros a idx route_i route_j; cbn [seq map locate].
  - replace (a + 0) with a by lia.
    destruct (Nat.leb_spec a i), (Nat.ltb_spec i a), (Nat.leb_spec a j), (Nat.ltb_spec j a);
      simpl; try reflexivity; lia.
  - rewrite IH. unfold mem. cbn [existsb]. rewrite !orb_false_r.
    f_equal.
    + destruct (Nat.leb_spec (S a) i), (Nat.ltb_spec i (S a + m)), (Nat.leb_spec a i),
        (Nat.ltb_spec i (a + S m)), (Nat.eqb_spec i a); simpl; try lia;
        try reflexivity; f_equal; lia.
    + destruct (Nat.leb_spec (S a) j), (Nat.ltb_spec j (S a + m)), (Nat.leb_spec a j),
        (Nat.ltb_spec j (a + S m)), (Nat.eqb_spec j a); simpl; try lia;
        try reflexivity; f_equal; lia.
Qed.

Lemma nth_error_singletons (a m k : nat) :
  k < m -> nth_error (map (fun x => [x]) (seq a m)) k = Some [a + k].
Proof.
  intros Hk. rewrite nth_error_map, nth_error_seq.
  destruct (Nat.ltb_spec k m); [reflexivity | lia].
Qed.

Lemma concat_singletons (l : list nat) : concat (map (fun x => [x]) l) = l.
Proof. induction l as [|x l IH]; simpl; [|rewrite IH]; reflexivity. Qed.

(** The first pair that is merged costs a stop. *)
Lemma first_merge_loses {F : Arith} (n i j : nat) (s : num) (routes' : list (list nat)) :
  1 <= i -> i < j -> j < n ->
  merge_pair (map (fun x => [x]) (range 1 n)) (i, j, s) = Ok routes' ->
  length (concat routes') + 2 <= n.
Proof.
  intros Hi Hij Hj. unfold merge_pair, range. rewrite locate_singletons.
  destruct (Nat.leb_spec 1 i) as [_|?]; [|lia].
  destruct (Nat.ltb_spec i (1 + (n - 1))) as [_|?]; [|lia].
  destruct (Nat.leb_spec 1 j) as [_|?]; [|lia].
  destruct (Nat.ltb_spec j (1 + (n - 1))) as [_|?]; [|lia].
  cbn [andb option_nat_eqb]. replace (0 + (i - 1)) with (i - 1) by lia.
  replace (0 + (j - 1)) with (j - 1) by lia.
  destruct (Nat.eqb_spec (i - 1) (j - 1)) as [?|Hne]; [lia|].
  intros H.
  destruct (merge_at_total _ _ _ _ _ _ Hne H) as [_ Hstrict].
  assert (Hlt : length (concat routes') <
                length (concat (map (fun x => [x]) (seq 1 (n - 1))))).
  { apply Hstrict; [lia| |].
    - rewrite nth_error_singletons by lia. do 2 f_equal. lia.
    - rewrite nth_error_singletons by lia. do 2 f_equal. lia. }
  rewrite concat_singletons, length_seq in Hlt. lia.
Qed.

Lemma insert_desc_perm {F : Arith} (x : saving_entry) (l : list saving_entry) :
  Permutation (insert_desc x l) (x :: l).
Proof.
  induction l as [|y l IH]; simpl; [apply Permutation_refl|].
  destruct (ltb (snd x) (snd y)); [|apply Permutation_refl].
  eapply Permutation_trans; [apply perm_skip; exact IH | apply perm_swap].
Qed.

Lemma sort_desc_perm {F : Arith} (l : list saving_entry) : Permutation (sort_desc l) l.
Proof.
  induction l as [|x l IH]; simpl; [constructor|].
  eapply Permutation_trans; [apply insert_desc_perm | apply perm_skip; exact IH].
Qed.

Section PairSavings.

Context {F : Arith}.
Variable start_idx : nat.
Variable duration_matrix : matrix.
Variable n : nat.
Variable P : saving_entry -> Prop.

Lemma savings_row (i : nat) (js : list nat) : forall acc acc' : list saving_entry,
  foldM (fun savings j =>
           d0i <- cell duration_matrix start_idx i ;;
           d0j <- cell duration_matrix start_idx j ;;
           dij <- cell duration_matrix i j ;;
           Ok (savings ++ [(i, j, sub (add d0i d0j) dij)])) js acc = Ok acc' ->
  length acc' = length acc + length js /\
  (Forall P acc -> (forall j s, In j js -> P (i, j, s)) -> Forall P acc').
Proof.
  induction js as [|j js IH]; intros acc acc' H; cbn [foldM] in H.
  - inversion H; subst. split; [simpl; lia | auto].
  - destruct (cell duration_matrix start_idx i) as [d0i| |]; cbn [bind] in H;
      try discriminate.
    destruct (cell duration_matrix start_idx j) as [d0j| |]; cbn [bind] in H;
      try discriminate.
    destruct (cell duration_matrix i j) as [dij| |]; cbn [bind] in H; try discriminate.
    destruct (IH _ _ H) as [Hlen Hall]. split.
    + rewrite Hlen, length_app. unfold saving_entry in *. simpl. lia.
    + intros Hacc Hjs. apply Hall.
      * apply Forall_app. split; [exact Hacc|]. constructor; [|constructor].
        apply Hjs. left; reflexivity.
      * intros j' s Hj'. apply Hjs. right; exact Hj'.
Qed.

Lemma savings_rows (rows : list nat) : forall acc acc' : list saving_entry,
  foldM (fun savings i =>
           foldM (fun savings j =>
                    d0i <- cell duration_matrix start_idx i ;;
                    d0j <- cell duration_matrix start_idx j ;;
                    dij <- cell duration_matrix i j ;;
                    Ok (savings ++ [(i, j, sub (add d0i d0j) dij)]))
                 (range (i + 1) n) savings) rows acc = Ok acc' ->
  length acc + match rows with
               | [] => 0
               | i :: _ => length (range (i + 1) n)
               end <= length acc' /\
  (Forall P acc ->
   (forall i j s, In i rows -> In j (range (i + 1) n) -> P (i, j, s)) ->
   Forall P acc').
Proof.
  induction rows as [|i rows IH]; intros acc acc' H; cbn [foldM] in H.
  - inversion H; subst. split; [lia | auto].
  - match type of H with
    | bind ?c _ = _ => destruct c as [acc1| |] eqn:E
    end; cbn [bind] in H; try discriminate.
    destruct (savings_row i _ _ _ E) as [Hlen Hall].
    destruct (IH _ _ H) as [Hle Hall']. split.
    + lia.
    + intros Hacc Hrows. apply Hall'.
      * apply Hall; [exact Hacc|]. intros j s Hj. apply Hrows; [left; reflexivity|exact Hj].
      * intros i' j s Hi' Hj. apply Hrows; [right; exact Hi' | exact Hj].
Qed.

End PairSavings.

(** X3: on every matrix for at least two stops the savings merge, when it
    returns, returns fewer indices than there are stops. *)
Theorem savings_merge_never_returns_every_stop {F : Arith} (start_idx : nat)
    (distance_matrix duration_matrix : matrix) (final_route : list nat) :
  3 <= length distance_matrix ->
  optimize_with_savings_algorithm start_idx distance_matrix duration_matrix
    = Ok final_route ->
  length final_route < length distance_matrix - 1.
Proof.
  intros Hn H. unfold optimize_with_savings_algorithm in H.
  set (n := length distance_matrix) in *.
  destruct (Nat.leb_spec n 2) as [?|_]; [lia|].
  destruct (pair_savings start_idx duration_matrix n) as [savings| |] eqn:Es;
    cbn [bind] in H; try discriminate.
  destruct (list_set (repeat false n) start_idx true) as [visited| |];
    cbn [bind] in H; try discriminate.
  destruct (foldM merge_pair (sort_desc savings) (map (fun i => [i]) (range 1 n)))
    as [routes| |] eqn:Em; cbn [bind] in H; try discriminate.
  inversion H; subst final_route; clear H. rewrite length_map.
  unfold pair_savings in Es.
  destruct (savings_rows start_idx duration_matrix n
              (fun e => 1 <= fst (fst e) /\ fst (fst e) < snd (fst e) /\ snd (fst e) < n)
              _ _ _ Es) as [Hlen Hall].
  assert (Hpairs : Forall (fun e => 1 <= fst (fst e) /\ fst (fst e) < snd (fst e) /\
                                    snd (fst e) < n) savings).
  { apply Hall; [constructor|]. intros i j s Hi Hj. unfold range in *.
    apply in_seq in Hi, Hj. simpl. lia. }
  assert (Hsome : 1 <= length savings).
  { unfold range in Hlen. destruct n as [|[|n']]; try lia.
    simpl in Hlen. rewrite length_seq in Hlen. simpl in Hlen. lia. }
  pose proof (sort_desc_perm savings) as Hperm.
  destruct (sort_desc savings) as [|[[i j] s] rest] eqn:Esort.
  - apply Permutation_length in Hperm. simpl in Hperm. lia.
  - assert (Hin : In (i, j, s) savings)
      by (apply (Permutation_in _ Hperm); left; reflexivity).
    rewrite Forall_forall in Hpairs. destruct (Hpairs _ Hin) as (Hi & Hij & Hj).
    simpl in Hi, Hij, Hj. cbn [foldM] in Em.
    destruct (merge_pair (map (fun i => [i]) (range 1 n)) (i, j, s)) as [routes1| |] eqn:E1;
      cbn [bind] in Em; try discriminate.
    apply (first_merge_loses n i j s routes1 Hi Hij Hj) in E1.
    apply merge_pairs_total in Em. lia.
Qed.

Lemma savings_merge_never_returns_every_stop_witness :
  @optimize_with_savings_algorithm binary64 0 (zeros 3) (zeros 3) = Ok [0] /\
  length [0] < length (@zeros binary64 3) - 1.
Proof.
  assert (H : @optimize_with_savings_algorithm binary64 0 (zeros 3) (zeros 3) = Ok [0])
    by reflexivity.
  split; [exact H|].
  apply (savings_merge_never_returns_every_stop 0 (zeros 3) (zeros 3) [0]);
    [simpl; lia | exact H].
Defined.

(** ** What the savings merge returns has no duplicate and no depot *)

Lemma list_set_split {A : Type} (l : list A) : forall (k : nat) (v : A) (l' : list A),
  list_set l k v = Ok l' ->
  exists l1 old l2, l = l1 ++ old :: l2 /\ length l1 = k /\ l' = l1 ++ v :: l2.
Proof.
  induction l as [|a l IH]; intros [|k] v l' H; simpl in H; try discriminate.
  - inversion H; subst. exists [], a, l. repeat split; reflexivity.
  - destruct (list_set l k v) as [r| |] eqn:E; cbn [bind] in H; try discriminate.
    inversion H; subst. destruct (IH _ _ _ E) as (l1 & old & l2 & -> & <- & ->).
    exists (a :: l1), old, l2. repeat split; reflexivity.
Qed.

Lemma list_pop_split {A : Type} (l : list A) : forall (k : nat) (l' : list A),
  list_pop l k = Ok l' ->
  exists l1 x l2, l = l1 ++ x :: l2 /\ length l1 = k /\ l' = l1 ++ l2.
Proof.
  induction l as [|a l IH]; intros [|k] l' H; simpl in H; try discriminate.
  - inversion H; subst. exists [], a, l'. repeat split; reflexivity.
  - destruct (list_pop l k) as [r| |] eqn:E; cbn [bind] in H; try discriminate.
    inversion H; subst. destruct (IH _ _ E) as (l1 & x & l2 & -> & <- & ->).
    exists (a :: l1), x, l2. repeat split; reflexivity.
Qed.

Lemma nth_error_middle {A : Type} (l1 l2 : list A) (x : A) :
  nth_error (l1 ++ x :: l2) (length l1) = Some x.
Proof. rewrite nth_error_app2, Nat.sub_diag by lia. reflexivity. Qed.

Lemma concat_middle {A : Type} (l1 l2 : list (list A)) (x : list A) :
  Permutation (concat (l1 ++ x :: l2)) (x ++ concat (l1 ++ l2)).
Proof.
  rewrite !concat_app. simpl. rewrite !app_assoc.
  apply Permutation_app_tail. apply Permutation_app_comm.
Qed.

(** Replacing one of two routes by the stops of both and removing the route at
    the larger position keeps the stops of the other routes, and keeps or drops
    the stops of one of the two. *)
Lemma set_pop_perm (routes routes1 routes' : list (list nat)) (a b x : nat)
    (r_a r_b v : list nat) :
  nth_error routes a = Some r_a -> nth_error routes b = Some r_b -> a <> b ->
  x = a \/ x = b ->
  Permutation v (r_a ++ r_b) ->
  list_set routes x v = Ok routes1 ->
  list_pop routes1 (Nat.max a b) = Ok routes' ->
  exists dropped, Permutation (concat routes) (dropped ++ concat routes').
Proof.
  intros Ha Hb Hab Hx Hv Hset Hpop.
  destruct (list_set_spec _ _ _ _ Hset) as [_ Hkeep].
  destruct (list_set_split _ _ _ _ Hset) as (l1 & old & l2 & El & Hlen & El1).
  destruct (list_pop_split _ _ _ Hpop) as (k1 & p & k2 & Ek & Hlenk & Ek').
  assert (Hold : nth_error routes x = Some old).
  { rewrite El, <- Hlen. apply nth_error_middle. }
  assert (Hp : nth_error routes1 (Nat.max a b) = Some p).
  { rewrite Ek, <- Hlenk. apply nth_error_middle. }
  assert (Hl : Permutation (concat routes) (old ++ concat (l1 ++ l2))).
  { rewrite El. apply concat_middle. }
  assert (Hl1 : Permutation (concat routes1) (v ++ concat (l1 ++ l2))).
  { rewrite El1. apply concat_middle. }
  assert (Hl' : Permutation (concat routes1) (p ++ concat routes')).
  { rewrite Ek, Ek'. apply concat_middle. }
  destruct (Nat.eq_dec (Nat.max a b) x) as [Hm|Hm].
  - exists old. rewrite Hm in Hp.
    assert (Epv : p = v).
    { rewrite El1, <- Hlen, nth_error_middle in Hp. inversion Hp; reflexivity. }
    subst p. eapply Permutation_trans; [exact Hl|]. apply Permutation_app_head.
    apply (Permutation_app_inv_l v).
    eapply Permutation_trans; [apply Permutation_sym; exact Hl1 | exact Hl'].
  - exists []. simpl.
    rewrite (Hkeep _ Hm) in Hp.
    assert (Hv' : Permutation v (old ++ p)).
    { destruct Hx as [-> | ->].
      - assert (Nat.max a b = b) by lia.
        rewrite H, Hb in Hp. rewrite Ha in Hold. inversion Hp; inversion Hold; subst.
        exact Hv.
      - assert (Nat.max a b = a) by lia.
        rewrite H, Ha in Hp. rewrite Hb in Hold. inversion Hp; inversion Hold; subst.
        eapply Permutation_trans; [exact Hv | apply Permutation_app_comm]. }
    eapply Permutation_trans; [exact Hl|].
    apply (Permutation_app_inv_l p).
    eapply Permutation_trans; [|exact Hl'].
    eapply Permutation_trans; [|apply Permutation_sym; exact Hl1].
    rewrite app_assoc. apply Permutation_app_tail.
    eapply Permutation_trans; [apply Permutation_app_comm|].
    apply Permutation_sym; exact Hv'.
Qed.

Lemma merge_at_perm (routes routes' : list (list nat)) (i j a b : nat) :
  a <> b -> merge_at routes i j a b = Ok routes' ->
  exists dropped, Permutation (concat routes) (dropped ++ concat routes').
Proof.
  intros Hab H. unfold merge_at in H.
  destruct (index routes a) as [r_i| |] eqn:Ea; cbn [bind] in H; try discriminate.
  destruct (at_end r_i i) as [i_at_end| |]; cbn [bind] in H; try discriminate.
  destruct (index routes b) as [r_j| |] eqn:Eb; cbn [bind] in H; try discriminate.
  destruct (at_end r_j j) as [j_at_end| |]; cbn [bind] in H; try discriminate.
  apply index_Ok in Ea, Eb.
  destruct (i_at_end && j_at_end).
  - destruct (index r_i 0) as [h_i| |]; cbn [bind] in H; try discriminate.
    destruct (index r_j 0) as [h_j| |]; cbn [bind] in H; try discriminate.
    match type of H with
    | bind ?c _ = _ => destruct c as [routes1| |] eqn:Eset
    end; cbn [bind] in H; try discriminate.
    destruct (Nat.eqb h_i i); destruct (Nat.eqb h_j j);
      match type of Eset with
      | list_set _ ?x ?v = _ =>
          assert (Hx : x = a \/ x = b) by auto;
          assert (Hv : Permutation v (r_i ++ r_j));
          [| exact (set_pop_perm routes routes1 routes' a b x r_i r_j v
                      Ea Eb Hab Hx Hv Eset H)]
      end.
    + eapply Permutation_trans; [apply Permutation_app_comm|].
      apply Permutation_app_head. apply Permutation_sym, Permutation_rev.
    + apply Permutation_app_comm.
    + apply Permutation_refl.
    + apply Permutation_app_tail. apply Permutation_sym, Permutation_rev.
  - inversion H; subst. exists []. apply Permutation_refl.
Qed.

Lemma merge_pairs_perm {F : Arith} (savings : list saving_entry) :
  forall routes routes' : list (list nat),
  foldM merge_pair savings routes = Ok routes' ->
  exists dropped, Permutation (concat routes) (dropped ++ concat routes').
Proof.
  induction savings as [|e rest IH]; intros routes routes' H; cbn [foldM] in H.
  - inversion H; subst. exists []. apply Permutation_refl.
  - destruct (merge_pair routes e) as [routes1| |] eqn:E; cbn [bind] in H;
      try discriminate.
    destruct (IH _ _ H) as (d2 & Hp2).
    assert (Hp1 : exists d1, Permutation (concat routes) (d1 ++ concat routes1)).
    { destruct e as [[i j] s]. unfold merge_pair in E.
      destruct (locate i j routes 0 None None) as [route_i route_j].
      destruct (option_nat_eqb route_i route_j) eqn:Eq.
      - inversion E; subst. exists []. apply Permutation_refl.
      - destruct route_i as [a|]; [|discriminate].
        destruct route_j as [b|]; [|discriminate].
        apply (merge_at_perm routes routes1 i j a b (option_nat_eqb_false _ _ Eq) E). }
    destruct Hp1 as (d1 & Hp1). exists (d1 ++ d2).
    eapply Permutation_trans; [exact Hp1|]. rewrite <- app_assoc.
    apply Permutation_app_head. exact Hp2.
Qed.

(** X4: on a matrix for at least two stops, a list the savings merge returns
    has no index twice and holds only indices of stops, 0..n-2 for a matrix of
    [n] rows: the depot and indices out of range never appear. *)
Theorem savings_merge_returns_distinct_stops {F : Arith} (start_idx : nat)
    (distance_matrix duration_matrix : matrix) (final_route : list nat) :
  3 <= length distance_matrix ->
  optimize_with_savings_algorithm start_idx distance_matrix duration_matrix
    = Ok final_route ->
  NoDup final_route /\
  forall x, In x final_route -> x < length distance_matrix - 1.
Proof.
  intros Hn H. unfold optimize_with_savings_algorithm in H.
  set (n := length distance_matrix) in *.
  destruct (Nat.leb_spec n 2) as [?|_]; [lia|].
  destruct (pair_savings start_idx duration_matrix n) as [savings| |];
    cbn [bind] in H; try discriminate.
  destruct (list_set (repeat false n) start_idx true) as [visited| |];
    cbn [bind] in H; try discriminate.
  destruct (foldM merge_pair (sort_desc savings) (map (fun i => [i]) (range 1 n)))
    as [routes| |] eqn:Em; cbn [bind] in H; try discriminate.
  inversion H; subst final_route; clear H.
  destruct (merge_pairs_perm _ _ _ Em) as (dropped & Hp).
  rewrite concat_singletons in Hp. unfold range in Hp.
  assert (Hnd : NoDup (dropped ++ concat routes)).
  { apply (Permutation_NoDup Hp). apply seq_NoDup. }
  assert (Hin : forall y, In y (concat routes) -> 1 <= y < n).
  { intros y Hy.
    assert (Hy' : In y (seq 1 (n - 1))).
    { apply (Permutation_in _ (Permutation_sym Hp)). apply in_or_app. right; exact Hy. }
    apply in_seq in Hy'. lia. }
  apply NoDup_app_remove_l in Hnd.
  split.
  - apply Finite.Injective_map_NoDup_in; [|exact Hnd].
    intros x y Hx Hy Hxy. apply Hin in Hx. apply Hin in Hy. lia.
  - intros x Hx. apply in_map_iff in Hx. destruct Hx as (y & <- & Hy).
    apply Hin in Hy. lia.
Qed.

Lemma savings_merge_returns_distinct_stops_witness :
  NoDup [0] /\ forall x, In x [0] -> x < length (@zeros binary64 3) - 1.
Proof.
  apply (savings_merge_returns_distinct_stops 0 (zeros 3) (zeros 3) [0]);
    [simpl; lia | reflexivity].
Defined.

(** ** Shape and defaults of the matrices *)

Section MatrixShape.

Context {F : Arith}.

(** The element has no status OK: the loop leaves its cell alone. *)
Let skipped (element : json num) : Prop :=
  forall st, dict_get element "status" JNull = Ok st -> is_OK st = false.

Let row_lengths (m : matrix) : list nat := map (@length num) m.

Lemma matrix_set_shape (m m' : matrix) (i j : nat) (v : json num) :
  matrix_set m i j v = Ok m' ->
  row_lengths m' = row_lengths m /\ i < length m /\
  (forall row, nth_error m i = Some row -> j < length row).
Proof.
  unfold matrix_set, row_lengths. intros H.
  destruct (index m i) as [row| |] eqn:Er; cbn [bind] in H; try discriminate.
  destruct (float64_of v) as [e|x]; cbn [call bind] in H; try discriminate.
  destruct (list_set row j x) as [row'| |] eqn:Es; cbn [bind] in H; try discriminate.
  destruct (list_set_split _ _ _ _ Es) as (r1 & old & r2 & -> & Hj & ->).
  destruct (list_set_split _ _ _ _ H) as (m1 & oldrow & m2 & -> & Hi & ->).
  apply index_Ok in Er. rewrite <- Hi, nth_error_middle in Er. inversion Er; subst oldrow.
  split; [|split].
  - rewrite !map_app. simpl. rewrite !length_app. reflexivity.
  - rewrite length_app. simpl. lia.
  - intros row Hrow. rewrite <- Hi, nth_error_middle in Hrow. inversion Hrow; subst row.
    rewrite length_app. simpl. lia.
Qed.

Lemma fill_cell_frame (i j : nat) (element : json num) (ms ms' : matrix * matrix) :
  fill_cell i ms (j, element) = Ok ms' ->
  row_lengths (fst ms') = row_lengths (fst ms) /\
  row_lengths (snd ms') = row_lengths (snd ms) /\
  (forall a b, a <> i \/ b <> j \/ skipped element ->
     cell (fst ms') a b = cell (fst ms) a b /\ cell (snd ms') a b = cell (snd ms) a b) /\
  (~ skipped element ->
   i < length (fst ms) /\ forall row, nth_error (fst ms) i = Some row -> j < length row).
Proof.
  unfold fill_cell. intros H.
  destruct (dict_get element "status" JNull) as [st| |] eqn:Est; cbn [bind] in H;
    try discriminate.
  destruct (is_OK st) eqn:Eok.
  - destruct (dict_get element "distance" (JObj [])) as [d| |]; cbn [bind] in H;
      try discriminate.
    destruct (dict_get d "value" (JNum zero)) as [distance| |]; cbn [bind] in H;
      try discriminate.
    destruct (dict_get element "duration" (JObj [])) as [t| |]; cbn [bind] in H;
      try discriminate.
    destruct (dict_get t "value" (JNum zero)) as [duration| |]; cbn [bind] in H;
      try discriminate.
    destruct (dict_has element "duration_in_traffic") as [has| |];
      cbn [bind] in H; try discriminate.
    match type of H with
    | bind ?c _ = _ => destruct c as [duration'| |]
    end; cbn [bind] in H; try discriminate.
    destruct (matrix_set (fst ms) i j distance) as [dm| |] eqn:Edm; cbn [bind] in H;
      try discriminate.
    destruct (matrix_set (snd ms) i j duration') as [tm| |] eqn:Etm; cbn [bind] in H;
      try discriminate.
    inversion H; subst ms'; clear H. cbn [fst snd].
    destruct (matrix_set_shape _ _ _ _ _ Edm) as (Hs1 & Hi & Hj).
    destruct (matrix_set_shape _ _ _ _ _ Etm) as (Hs2 & _ & _).
    destruct (matrix_set_spec _ _ _ _ _ Edm) as [_ Hf1].
    destruct (matrix_set_spec _ _ _ _ _ Etm) as [_ Hf2].
    split; [exact Hs1|]. split; [exact Hs2|]. split.
    + intros a b [Ha|[Hb|Hsk]].
      * split; [apply Hf1 | apply Hf2]; left; exact Ha.
      * split; [apply Hf1 | apply Hf2]; right; exact Hb.
      * specialize (Hsk st Est). congruence.
    + intros _. split; [exact Hi | exact Hj].
  - inversion H; subst ms'. split; [reflexivity|]. split; [reflexivity|]. split.
    + intros a b _. split; reflexivity.
    + intros Hns. exfalso. apply Hns. intros st' Hst'. congruence.
Qed.

Lemma fill_cells_frame (i : nat) (elements : list (json num)) :
  forall (b0 : nat) (ms ms' : matrix * matrix),
  foldM (fill_cell i) (combine (seq b0 (length elements)) elements) ms = Ok ms' ->
  row_lengths (fst ms') = row_lengths (fst ms) /\
  row_lengths (snd ms') = row_lengths (snd ms) /\
  (forall a c,
     a <> i \/ c < b0 \/
     (forall element, nth_error elements (c - b0) = Some element -> skipped element) ->
     cell (fst ms') a c = cell (fst ms) a c /\ cell (snd ms') a c = cell (snd ms) a c) /\
  (forall k element,
     nth_error elements k = Some element -> ~ skipped element ->
     exists n, nth_error (row_lengths (fst ms)) i = Some n /\ b0 + k < n).
Proof.
  induction elements as [|e rest IH]; intros b0 ms ms' H;
    cbn [length seq combine foldM] in H.
  - inversion H; subst. split; [reflexivity|]. split; [reflexivity|]. split.
    + intros a c _. split; reflexivity.
    + intros [|k] ? Hk; discriminate.
  - destruct (fill_cell i ms (b0, e)) as [ms1| |] eqn:E1; cbn [bind] in H; try discriminate.
    destruct (fill_cell_frame _ _ _ _ _ E1) as (Hs1 & Hs2 & Hf1 & Hb1).
    destruct (IH _ _ _ H) as (Hr1 & Hr2 & Hf & Hb).
    split; [congruence|]. split; [congruence|]. split.
    + intros a c Hac.
      assert (Hrest : a <> i \/ c < S b0 \/
                      (forall element, nth_error rest (c - S b0) = Some element ->
                                       skipped element)).
      { destruct Hac as [Ha|[Hc|Hsk]]; [left; exact Ha | right; left; lia |].
        destruct (Nat.le_gt_cases c b0) as [Hle|Hgt]; [right; left; lia|].
        right; right. intros element Hel. apply Hsk.
        replace (c - b0) with (S (c - S b0)) by lia. exact Hel. }
      assert (Hfirst : a <> i \/ c <> b0 \/ skipped e).
      { destruct Hac as [Ha|[Hc|Hsk]]; [left; exact Ha | right; left; lia |].
        destruct (Nat.eq_dec c b0) as [->|Hne]; [|right; left; exact Hne].
        right; right. apply Hsk. rewrite Nat.sub_diag. reflexivity. }
      destruct (Hf a c Hrest) as [Hx Hy]. destruct (Hf1 a c Hfirst) as [Hx1 Hy1].
      split; congruence.
    + intros [|k] element Hk Hns; simpl in Hk.
      * inversion Hk; subst element. destruct (Hb1 Hns) as [Hi Hj].
        destruct (nth_error (fst ms) i) as [row|] eqn:Erow;
          [|apply nth_error_None in Erow; lia].
        exists (length row). split.
        -- unfold row_lengths. rewrite nth_error_map, Erow. reflexivity.
        -- rewrite Nat.add_0_r. apply Hj. reflexivity.
      * destruct (Hb k element Hk Hns) as (n & Hn & Hlt).
        exists n. split; [rewrite <- Hs1; exact Hn | lia].
Qed.

Lemma fill_rows_frame (rows : list (json num)) :
  forall (a0 : nat) (ms ms' : matrix * matrix),
  foldM fill_row (combine (seq a0 (length rows)) rows) ms = Ok ms' ->
  row_lengths (fst ms') = row_lengths (fst ms) /\
  row_lengths (snd ms') = row_lengths (snd ms) /\
  (forall r c,
     r < a0 \/
     (forall row elements element,
        nth_error rows (r - a0) = Some row ->
        (els <- dict_get row "elements" (JArr []) ;; iter els) = Ok elements ->
        nth_error elements c = Some element -> skipped element) ->
     cell (fst ms') r c = cell (fst ms) r c /\ cell (snd ms') r c = cell (snd ms) r c) /\
  (forall k row elements j element,
     nth_error rows k = Some row ->
     (els <- dict_get row "elements" (JArr []) ;; iter els) = Ok elements ->
     nth_error elements j = Some element -> ~ skipped element ->
     exists n, nth_error (row_lengths (fst ms)) (a0 + k) = Some n /\ j < n).
Proof.
  induction rows as [|row0 rest IH]; intros a0 ms ms' H;
    cbn [length seq combine foldM] in H.
  - inversion H; subst. split; [reflexivity|]. split; [reflexivity|]. split.
    + intros r c _. split; reflexivity.
    + intros [|k] ? ? ? ? Hk; discriminate.
  - destruct (fill_row ms (a0, row0)) as [ms1| |] eqn:E1; cbn [bind] in H; try discriminate.
    destruct (IH _ _ _ H) as (Hr1 & Hr2 & Hf & Hb).
    unfold fill_row in E1.
    destruct (dict_get row0 "elements" (JArr [])) as [ev| |] eqn:Eev; cbn [bind] in E1;
      try discriminate.
    destruct (iter ev) as [els0| |] eqn:Eit; cbn [bind] in E1; try discriminate.
    unfold enumerate in E1.
    destruct (fill_cells_frame _ _ _ _ _ E1) as (Hs1 & Hs2 & Hf0 & Hb0).
    assert (Hels0 : (els <- dict_get row0 "elements" (JArr []) ;; iter els) = Ok els0).
    { rewrite Eev. cbn [bind]. exact Eit. }
    split; [congruence|]. split; [congruence|]. split.
    + intros r c Hrc.
      assert (Hrest : r < S a0 \/
                (forall row elements element,
                   nth_error rest (r - S a0) = Some row ->
                   (els <- dict_get row "elements" (JArr []) ;; iter els) = Ok elements ->
                   nth_error elements c = Some element -> skipped element)).
      { destruct Hrc as [Hlt|Hsk]; [left; lia|].
        destruct (Nat.le_gt_cases r a0) as [Hle|Hgt]; [left; lia|]. right.
        intros row elements element Hrow. apply Hsk.
        replace (r - a0) with (S (r - S a0)) by lia. exact Hrow. }
      assert (Hfirst : r <> a0 \/ c < 0 \/
                (forall element, nth_error els0 (c - 0) = Some element -> skipped element)).
      { destruct Hrc as [Hlt|Hsk]; [left; lia|].
        destruct (Nat.eq_dec r a0) as [->|Hne]; [|left; exact Hne].
        right; right. intros element Hel. rewrite Nat.sub_0_r in Hel.
        apply (Hsk row0 els0 element); [rewrite Nat.sub_diag; reflexivity | exact Hels0 |
                                         exact Hel]. }
      destruct (Hf r c Hrest) as [Hx Hy]. destruct (Hf0 r c Hfirst) as [Hx0 Hy0].
      split; congruence.
    + intros [|k] row elements j element Hk Hels Hj Hns; simpl in Hk.
      * inversion Hk; subst row. rewrite Hels0 in Hels. inversion Hels; subst elements.
        destruct (Hb0 j element Hj Hns) as (n & Hn & Hlt).
        exists n. rewrite Nat.add_0_r. split; [exact Hn | exact Hlt].
      * destruct (Hb k row elements j element Hk Hels Hj Hns) as (n & Hn & Hlt).
        exists n. replace (a0 + S k) with (S a0 + k) by lia.
        split; [rewrite <- Hs1; exact Hn | exact Hlt].
Qed.

Lemma zeros_shape (n : nat) : row_lengths (zeros n) = repeat n n.
Proof.
  unfold row_lengths, zeros. rewrite map_repeat, repeat_length. reflexivity.
Qed.

Lemma zeros_cell (n i j : nat) : i < n -> j < n -> cell (zeros n) i j = Ok zero.
Proof.
  intros Hi Hj. unfold cell, zeros, index.
  rewrite (nth_error_repeat _ Hi). cbn [bind]. rewrite (nth_error_repeat _ Hj). reflexivity.
Qed.

End MatrixShape.

(** X5: when [calculate_distance_matrix] returns matrices for [n] locations,
    each has [n] rows of [n] cells; a cell for which the reply has no element,
    or an element whose status is not OK, is 0 in both; and every element of
    status OK in the reply lies inside the matrix (one outside makes the
    function return [(None, None)] instead). *)
Theorem matrix_builder_shape_and_defaults {F : Arith} (locations : list coord)
    (data : json num) (distance_matrix duration_matrix : matrix) :
  calculate_distance_matrix locations (HttpJson data)
    = Ok (Some distance_matrix, Some duration_matrix) ->
  let n := length locations in
  map (@length num) distance_matrix = repeat n n /\
  map (@length num) duration_matrix = repeat n n /\
  (forall i j, i < n -> j < n ->
     (forall element st,
        element_at data i j = Some element ->
        dict_get element "status" JNull = Ok st -> is_OK st = false) ->
     cell distance_matrix i j = Ok zero /\ cell duration_matrix i j = Ok zero) /\
  (forall i j element st,
     element_at data i j = Some element ->
     dict_get element "status" JNull = Ok st -> is_OK st = true ->
     i < n /\ j < n).
Proof.
  intros H n. unfold calculate_distance_matrix in H.
  destruct (matrix_of_response locations (HttpJson data)) as [r| |] eqn:E;
    try discriminate.
  inversion H; subst r; clear H.
  unfold matrix_of_response in E. cbn [bind] in E.
  destruct (dict_get data "status" JNull) as [st0| |]; cbn [bind] in E; try discriminate.
  destruct (is_OK st0); [|discriminate].
  destruct (dict_get data "rows" (JArr [])) as [rv| |] eqn:Erv; cbn [bind] in E;
    try discriminate.
  destruct (iter rv) as [rows| |] eqn:Erows; cbn [bind] in E; try discriminate.
  destruct (foldM fill_row (enumerate rows)
              (zeros (length locations), zeros (length locations))) as [ms| |] eqn:Ef;
    cbn [bind] in E; try discriminate.
  inversion E; subst distance_matrix duration_matrix; clear E.
  unfold enumerate in Ef.
  destruct (fill_rows_frame rows 0 _ _ Ef) as (Hs1 & Hs2 & Hframe & Hbound).
  cbn [fst snd] in *. fold n in Hs1, Hs2, Hframe, Hbound.
  assert (Hat : forall i j element,
            element_at data i j = Some element ->
            exists row elements,
              nth_error rows i = Some row /\
              (els <- dict_get row "elements" (JArr []) ;; iter els) = Ok elements /\
              nth_error elements j = Some element).
  { intros i j element Hel. unfold element_at in Hel. rewrite Erv in Hel.
    cbn [bind] in Hel. rewrite Erows in Hel.
    destruct (nth_error rows i) as [row|]; [|discriminate].
    destruct (els <- dict_get row "elements" (JArr []) ;; iter els)
      as [elements| |] eqn:Eels; try discriminate.
    exists row, elements. split; [reflexivity|]. split; [exact Eels | exact Hel]. }
  split; [rewrite Hs1; apply zeros_shape|]. split; [rewrite Hs2; apply zeros_shape|].
  split.
  - intros i j Hi Hj Hskip.
    destruct (Hframe i j) as [Hd Ht].
    { right. intros row elements element Hrow Hels Hel st Hst.
      apply (Hskip element st); [|exact Hst].
      unfold element_at. rewrite Erv. cbn [bind]. rewrite Erows.
      rewrite Nat.sub_0_r in Hrow. rewrite Hrow, Hels. exact Hel. }
    rewrite Hd, Ht. split; apply zeros_cell; assumption.
  - intros i j element st Hel Hst Hok.
    destruct (Hat i j element Hel) as (row & elements & Hrow & Hels & Hj).
    destruct (Hbound i row elements j element Hrow Hels Hj) as (m & Hm & Hlt).
    { intros Hsk. specialize (Hsk st Hst). congruence. }
    rewrite zeros_shape in Hm. simpl in Hm.
    assert (Hi : i < n).
    { assert (Hlen : i < length (repeat n n))
        by (apply nth_error_Some; rewrite Hm; discriminate).
      rewrite repeat_length in Hlen. exact Hlen. }
    rewrite (nth_error_repeat _ Hi) in Hm. inversion Hm; subst m. split; assumption.
Qed.

Lemma matrix_builder_shape_and_defaults_witness :
  map (@length float) [[1000; 1000]; [1000; 1000]]%float = repeat 2 2.
Proof.
  apply (matrix_builder_shape_and_defaults [depot0; pt 1 0] traffic_reply
           [[1000; 1000]; [1000; 1000]]%float [[120; 120]; [120; 120]]%float).
  vm_compute. reflexivity.
Defined.

(** ** The exported rows *)

Lemma insert_by_key_perm (d : delivery) (l : list delivery) :
  Permutation (insert_by_key d l) (d :: l).
Proof.
  induction l as [|y l IH]; simpl; [apply Permutation_refl|].
  destruct (sort_key y <? sort_key d); [|apply Permutation_refl].
  eapply Permutation_trans; [apply perm_skip; exact IH | apply perm_swap].
Qed.

Lemma sorted_by_sequence_perm (l : list delivery) :
  Permutation (sorted_by_sequence l) l.
Proof.
  induction l as [|x l IH]; simpl; [constructor|].
  eapply Permutation_trans; [apply insert_by_key_perm | apply perm_skip; exact IH].
Qed.

Lemma insert_by_key_sorted (d : delivery) (l : list delivery) :
  StronglySorted (fun a b => sort_key a <= sort_key b) l ->
  StronglySorted (fun a b => sort_key a <= sort_key b) (insert_by_key d l).
Proof.
  induction l as [|y l IH]; intros Hs; simpl.
  - constructor; constructor.
  - inversion Hs as [|? ? Hs' Hall]; subst.
    destruct (Nat.ltb_spec (sort_key y) (sort_key d)) as [Hlt|Hge].
    + constructor; [apply IH; exact Hs'|].
      apply (Permutation_Forall (Permutation_sym (insert_by_key_perm d l))).
      constructor; [lia | exact Hall].
    + constructor; [exact Hs|]. constructor; [exact Hge|].
      rewrite Forall_forall in *. intros z Hz. specialize (Hall z Hz). lia.
Qed.

Lemma sorted_by_sequence_sorted (l : list delivery) :
  StronglySorted (fun a b => sort_key a <= sort_key b) (sorted_by_sequence l).
Proof.
  induction l as [|x l IH]; simpl; [constructor | apply insert_by_key_sorted; exact IH].
Qed.

(** The sequence numbers and identities of the rows are those of the sequenced
    deliveries, in the order of the list the loop runs over. *)
Lemma eta_rows_entries (l : list delivery) : forall (idxs : list nat) (c : nat),
  length idxs = length l ->
  map (fun r => (row_sequence r, row_delivery r, row_postcode r))
      (eta_rows (combine idxs l) c)
  = map (fun d => (sort_key d, PK d, PostcodeRaw d)) (filter sequenced l).
Proof.
  induction l as [|d l IH]; intros [|i idxs] c Hlen; simpl in Hlen; try discriminate;
    try reflexivity.
  cbn [combine eta_rows filter].
  assert (Hseq : sequenced d = match RouteSequence d with
                               | Some _ => true
                               | None => false
                               end) by reflexivity.
  assert (Hkey : sort_key d = match RouteSequence d with
                              | Some s => s
                              | None => 999
                              end) by reflexivity.
  rewrite Hseq. destruct (RouteSequence d) as [s|].
  - cbn [map row_sequence row_delivery row_postcode]. rewrite Hkey.
    f_equal. apply IH. lia.
  - apply IH. lia.
Qed.

Lemma filter_sorted {A : Type} (R : A -> A -> Prop) (f : A -> bool) (l : list A) :
  StronglySorted R l -> StronglySorted R (filter f l).
Proof.
  induction 1 as [|a l Hs IH Hall]; simpl; [constructor|].
  destruct (f a); [|exact IH]. constructor; [exact IH|].
  rewrite Forall_forall in *. intros x Hx. apply filter_In in Hx. apply Hall, Hx.
Qed.

Lemma sorted_map_key {A : Type} (f : A -> nat) (l : list A) :
  StronglySorted (fun a b => f a <= f b) l -> StronglySorted le (map f l).
Proof.
  induction 1 as [|a l Hs IH Hall]; simpl; constructor; [exact IH|].
  rewrite Forall_forall in *. intros k Hk. apply in_map_iff in Hk.
  destruct Hk as (z & <- & Hz). apply Hall. exact Hz.
Qed.

(** X6: the exported rows are the deliveries that carry a RouteSequence, each
    once, with its own sequence number, identity and postcode; deliveries
    without one are left out; and the rows come in ascending sequence
    number. *)
Theorem export_lists_sequenced_deliveries_in_order (deliveries : list delivery) :
  let rows := export_driver_routes_to_csv deliveries in
  length rows = length (filter sequenced deliveries) /\
  Permutation (map (fun r => (row_sequence r, row_delivery r, row_postcode r)) rows)
              (map (fun d => (sort_key d, PK d, PostcodeRaw d))
                   (filter sequenced deliveries)) /\
  StronglySorted le (map row_sequence rows).
Proof.
  intros rows.
  assert (E : map (fun r => (row_sequence r, row_delivery r, row_postcode r)) rows
              = map (fun d => (sort_key d, PK d, PostcodeRaw d))
                    (filter sequenced (sorted_by_sequence deliveries))).
  { unfold rows, export_driver_routes_to_csv, enumerate.
    apply eta_rows_entries. apply length_seq. }
  assert (Hperm : Permutation (filter sequenced (sorted_by_sequence deliveries))
                              (filter sequenced deliveries)).
  { clear. pose proof (sorted_by_sequence_perm deliveries) as Hp.
    induction Hp as [|x l l' Hp IH|x y l|l l' l'' Hp1 IH1 Hp2 IH2]; simpl.
    - constructor.
    - destruct (sequenced x); [apply perm_skip|]; exact IH.
    - destruct (sequenced x), (sequenced y); try apply Permutation_refl. apply perm_swap.
    - eapply Permutation_trans; eauto. }
  split; [|split].
  - rewrite <- (length_map (fun r => (row_sequence r, row_delivery r, row_postcode r))), E.
    rewrite length_map. apply Permutation_length. exact Hperm.
  - rewrite E. apply Permutation_map. exact Hperm.
  - assert (Es : map row_sequence rows
                 = map sort_key (filter sequenced (sorted_by_sequence deliveries))).
    { apply (f_equal (map (fun t => fst (fst t)))) in E.
      rewrite !map_map in E. simpl in E. exact E. }
    rewrite Es.
    apply sorted_map_key. apply filter_sorted. apply sorted_by_sequence_sorted.
Qed.

(** Rows of deliveries that are not the first of the sorted list: 8 minutes of
    driving and 5 of service each. *)
Lemma eta_rows_later (l : list delivery) : forall (idxs : list nat) (c p : nat) (row : csv_row),
  length idxs = length l -> (forall i, In i idxs -> i <> 0) ->
  nth_error (eta_rows (combine idxs l) c) p = Some row ->
  EstimatedArrivalTime row = clock (start_time + c + 8 + 13 * p) /\
  EstimatedDuration row = "13 min"%string.
Proof.
  induction l as [|d l IH]; intros [|i idxs] c p row Hlen Hpos H; simpl in Hlen;
    try discriminate.
  - destruct p; discriminate.
  - cbn [combine eta_rows] in H.
    assert (Hi : (i =? 0) = false).
    { apply Nat.eqb_neq. apply Hpos. left; reflexivity. }
    assert (Hpos' : forall k, In k idxs -> k <> 0) by (intros k Hk; apply Hpos; right; exact Hk).
    destruct (RouteSequence d) as [s|].
    + rewrite Hi in H. destruct p as [|p]; simpl nth_error in H.
      * inversion H; subst row. cbn [EstimatedArrivalTime EstimatedDuration].
        split; [|reflexivity]. unfold clock.
        replace (start_time + c + 8 + 13 * 0) with (start_time + (c + 8)) by lia.
        reflexivity.
      * destruct (IH idxs (c + 8 + 5) p row ltac:(lia) Hpos' H) as [Ha Hd].
        split; [|exact Hd]. rewrite Ha. f_equal. lia.
    + apply (IH idxs c p row); [lia | exact Hpos' | exact H].
Qed.

Lemma sorted_head_least (deliveries : list delivery) (d0 : delivery) (rest : list delivery) :
  sorted_by_sequence deliveries = d0 :: rest ->
  forall d, In d deliveries -> sort_key d0 <= sort_key d.
Proof.
  intros E d Hd.
  pose proof (sorted_by_sequence_sorted deliveries) as Hs. rewrite E in Hs.
  apply (Permutation_in _ (Permutation_sym (sorted_by_sequence_perm deliveries))) in Hd.
  rewrite E in Hd. inversion Hs as [|? ? _ Hall]; subst.
  destruct Hd as [<-|Hd]; [lia|]. rewrite Forall_forall in Hall. apply Hall, Hd.
Qed.

(** X7: the row at position [p] of the export (counting from 0) shows the
    arrival time 09:00 + first leg + 13 p minutes, the first leg being 20
    minutes whenever some delivery has a sequence number below 999, and the
    duration 25 min in the first row and 13 min in the others. The hour is not
    taken modulo 24: with a first leg of 20 minutes it is below 24 exactly for
    the first 68 rows. *)
Theorem export_arrival_times (deliveries : list delivery) (p : nat) (row : csv_row) :
  nth_error (export_driver_routes_to_csv deliveries) p = Some row ->
  EstimatedArrivalTime row = clock (9 * 60 + first_leg deliveries + 13 * p) /\
  EstimatedDuration row
    = (if (p =? 0) && (first_leg deliveries =? 20)
       then "25 min"%string else "13 min"%string) /\
  ((exists d s, In d deliveries /\ RouteSequence d = Some s /\ s < 999) ->
   first_leg deliveries = 20) /\
  (first_leg deliveries = 20 ->
   ((9 * 60 + first_leg deliveries + 13 * p) / 60 < 24 <-> p < 68)).
Proof.
  intros H. unfold export_driver_routes_to_csv, enumerate, first_leg in *.
  split; [|split; [|split]].
  - destruct (sorted_by_sequence deliveries) as [|d l]; [destruct p; discriminate|].
    cbn [length seq combine eta_rows] in H. unfold sequenced.
    destruct (RouteSequence d) as [s|].
    + destruct p as [|p]; simpl nth_error in H.
      * inversion H; subst row. reflexivity.
      * destruct (eta_rows_later l (seq 1 (length l)) (0 + 20 + 5) p row) as [Ha _].
        -- apply length_seq.
        -- intros i Hi. apply in_seq in Hi. lia.
        -- exact H.
        -- rewrite Ha. f_equal; unfold start_time; lia.
    + destruct (eta_rows_later l (seq 1 (length l)) 0 p row) as [Ha _].
      * apply length_seq.
      * intros i Hi. apply in_seq in Hi. lia.
      * exact H.
      * rewrite Ha. f_equal; unfold start_time; lia.
  - destruct (sorted_by_sequence deliveries) as [|d l]; [destruct p; discriminate|].
    cbn [length seq combine eta_rows] in H. unfold sequenced.
    destruct (RouteSequence d) as [s|].
    + destruct p as [|p]; simpl nth_error in H.
      * inversion H; subst row. reflexivity.
      * destruct (eta_rows_later l (seq 1 (length l)) (0 + 20 + 5) p row) as [_ Hd].
        -- apply length_seq.
        -- intros i Hi. apply in_seq in Hi. lia.
        -- exact H.
        -- exact Hd.
    + destruct (eta_rows_later l (seq 1 (length l)) 0 p row) as [_ Hd].
      * apply length_seq.
      * intros i Hi. apply in_seq in Hi. lia.
      * exact H.
      * rewrite Hd. rewrite andb_false_r. reflexivity.
  - intros (d & s & Hd & Hs & Hlt).
    destruct (sorted_by_sequence deliveries) as [|d0 l] eqn:E; [reflexivity|].
    pose proof (sorted_head_least deliveries d0 l E d Hd) as Hle.
    unfold sort_key in Hle. rewrite Hs in Hle. unfold sequenced.
    destruct (RouteSequence d0); [reflexivity | lia].
  - intros ->. split; intros Hp.
    + destruct (Nat.lt_ge_cases p 68) as [Hlt|Hge]; [exact Hlt|]. exfalso.
      assert (24 <= (9 * 60 + 20 + 13 * p) / 60); [|lia].
      apply Nat.div_le_lower_bound; lia.
    + apply Nat.Div0.div_lt_upper_bound; lia.
Qed.

Lemma export_arrival_times_witness :
  exists row,
    nth_error (export_driver_routes_to_csv [delivery_b; delivery_a; delivery_c]) 2
      = Some row /\
    EstimatedArrivalTime row = "09:46"%string /\
    row_delivery row = "DELIVERY#c"%string.
Proof.
  eexists. split; [reflexivity|]. split; [|reflexivity].
  apply (export_arrival_times [delivery_b; delivery_a; delivery_c] 2). reflexivity.
Defined.

(** ** Geocoding *)

Lemma is_OK_string {F : Arith} (v : json num) : is_OK v = true -> v = JStr "OK".
Proof.
  destruct v; simpl; try discriminate. intros H. apply String.eqb_eq in H. now subst.
Qed.

(** X8: [get_coordinates] never raises, and it returns a pair exactly when the
    reply is an object with status OK whose results start with an object that
    has a formatted address and, under geometry and location, a longitude and
    a latitude: the pair is then that longitude followed by that latitude.
    Any other reply, a failed request or a result without a formatted address
    included, gives [None]. *)
Theorem get_coordinates_needs_a_complete_first_result {F : Arith}
    (nonzero : num -> bool) (response : http_result) (lng lat : json num) :
  get_coordinates nonzero response = Some (lng, lat) <->
  exists fields first rest geometry location,
    response = HttpJson (JObj fields) /\
    assoc "status" fields = Some (JStr "OK") /\
    assoc "results" fields = Some (JArr (JObj first :: rest)) /\
    assoc "formatted_address" first <> None /\
    assoc "geometry" first = Some (JObj geometry) /\
    assoc "location" geometry = Some (JObj location) /\
    assoc "lng" location = Some lng /\
    assoc "lat" location = Some lat.
Proof.
  split.
  - unfold get_coordinates, geocode_reply.
    destruct response as [e|data]; cbn [and_then]; [discriminate|].
    destruct data as [| | | |fields0|fields]; cbn [and_then subscript]; try discriminate.
    destruct (assoc "status" fields) as [status|] eqn:Es; cbn [and_then]; [|discriminate].
    destruct (is_OK status) eqn:Eok; cbn [and_then]; [|discriminate].
    apply is_OK_string in Eok. subst status.
    destruct (assoc "results" fields) as [results|] eqn:Er; cbn [and_then]; [|discriminate].
    destruct (truthy nonzero results) eqn:Et; cbn [and_then]; [|discriminate].
    destruct results as [| | |s|items|obj]; cbn [and_then first_item]; try discriminate.
    + destruct s; cbn [and_then subscript]; discriminate.
    + destruct items as [|first rest]; cbn [and_then]; [discriminate|].
      destruct first as [| | | |arr|first]; cbn [and_then subscript]; try discriminate.
      destruct (assoc "geometry" first) as [geometry|] eqn:Eg; cbn [and_then];
        [|discriminate].
      destruct geometry as [| | | |arr|geometry]; cbn [and_then subscript];
        try discriminate.
      destruct (assoc "location" geometry) as [location|] eqn:El; cbn [and_then];
        [|discriminate].
      destruct (assoc "formatted_address" first) as [fa|] eqn:Ef; cbn [and_then];
        [|discriminate].
      destruct location as [| | | |arr|location]; cbn [and_then subscript];
        try discriminate.
      destruct (assoc "lng" location) as [x|] eqn:Ex; cbn [and_then]; [|discriminate].
      destruct (assoc "lat" location) as [y|] eqn:Ey; cbn [and_then]; [|discriminate].
      intros H. injection H as <- <-.
      exists fields, first, rest, geometry, location.
      rewrite Ef. repeat split; try reflexivity; try assumption. discriminate.
  - intros (fields & first & rest & geometry & location & -> & Es & Er & Ef & Eg & El & Ex & Ey).
    unfold get_coordinates, geocode_reply. cbn [and_then subscript].
    rewrite Es. cbn [and_then is_OK]. rewrite String.eqb_refl. rewrite Er.
    cbn [and_then truthy first_item subscript]. rewrite Eg. cbn [and_then subscript].
    rewrite El. cbn [and_then].
    destruct (assoc "formatted_address" first) as [fa|]; [|congruence].
    cbn [and_then subscript]. rewrite Ex. cbn [and_then]. rewrite Ey. reflexivity.
Qed.

Lemma dict_lookup_store {V : Type} (k k' : string) (v : V) (d : list (string * V)) :
  dict_lookup k (dict_store k' v d) = if String.eqb k k' then Some v else dict_lookup k d.
Proof.
  induction d as [|[k1 v1] d IH]; simpl.
  - reflexivity.
  - destruct (String.eqb_spec k' k1) as [->|Hne]; simpl.
    + destruct (String.eqb k k1); reflexivity.
    + rewrite IH. destruct (String.eqb_spec k k1) as [->|Hne1].
      * destruct (String.eqb_spec k1 k'); [congruence | reflexivity].
      * reflexivity.
Qed.

Lemma geocode_fold_lookup {C : Type} (lookup : string -> option C) (a : string)
    (addresses : list string) : forall acc : list (string * C),
  dict_lookup a
    (fold_left (fun address_to_coords address =>
                  match lookup address with
                  | Some coords => dict_store address coords address_to_coords
                  | None => address_to_coords
                  end) addresses acc)
  = match (if existsb (String.eqb a) addresses then lookup a else None) with
    | Some coords => Some coords
    | None => dict_lookup a acc
    end.
Proof.
  induction addresses as [|x l IH]; intros acc; simpl; [reflexivity|].
  rewrite IH. destruct (String.eqb_spec a x) as [->|Hne]; simpl.
  - destruct (existsb (String.eqb x) l).
    + destruct (lookup x) as [c|]; reflexivity.
    + destruct (lookup x) as [c|]; [|reflexivity].
      rewrite dict_lookup_store, String.eqb_refl. reflexivity.
  - destruct (if existsb (String.eqb a) l then lookup a else None); [reflexivity|].
    destruct (lookup x) as [c|]; [|reflexivity].
    rewrite dict_lookup_store. destruct (String.eqb_spec a x); [congruence | reflexivity].
Qed.

(** X9: the dict [geocode_addresses_parallel] returns maps an address to what
    [get_coordinates] gives for it when the address was asked for and was
    geocoded, and has no other key; it is empty exactly when no address was
    geocoded. Neither depends on the order of the addresses. *)
Theorem geocoded_addresses_are_those_found {C : Type} (lookup : string -> option C)
    (addresses : list string) :
  (forall a : string,
     dict_lookup a (geocode_addresses_parallel lookup addresses)
     = if existsb (String.eqb a) addresses then lookup a else None) /\
  (geocode_addresses_parallel lookup addresses = [] <->
   forall a : string, In a addresses -> lookup a = None).
Proof.
  assert (H : forall a : string,
             dict_lookup a (geocode_addresses_parallel lookup addresses)
             = if existsb (String.eqb a) addresses then lookup a else None).
  { intros a. unfold geocode_addresses_parallel. rewrite geocode_fold_lookup. simpl.
    destruct (if existsb (String.eqb a) addresses then lookup a else None); reflexivity. }
  split; [exact H|]. split.
  - intros E a Ha. specialize (H a). rewrite E in H. simpl in H.
    assert (Hin : existsb (String.eqb a) addresses = true).
    { apply existsb_exists. exists a. split; [exact Ha | apply String.eqb_refl]. }
    rewrite Hin in H. congruence.
  - intros Hnone.
    destruct (geocode_addresses_parallel lookup addresses) as [|[k v] rest] eqn:E;
      [reflexivity|].
    specialize (H k). simpl in H. rewrite String.eqb_refl in H.
    destruct (existsb (String.eqb k) addresses) eqn:Hin; [|discriminate].
    apply existsb_exists in Hin. destruct Hin as (x & Hx & Hkx).
    apply String.eqb_eq in Hkx. subst x. rewrite (Hnone k Hx) in H. discriminate.
Qed.

(** ** Persisting the order *)

Lemma replace_at_length {A : Type} (l : list A) : forall (i : nat) (v : A),
  length (replace_at l i v) = length l.
Proof.
  induction l as [|a l IH]; intros [|i] v; simpl; try reflexivity. now rewrite IH.
Qed.

Lemma replace_at_same {A : Type} (l : list A) : forall (i : nat) (a v : A),
  nth_error l i = Some a -> nth_error (replace_at l i v) i = Some v.
Proof.
  induction l as [|x l IH]; intros [|i] a v H; simpl in *; try discriminate;
    [reflexivity | eapply IH; eauto].
Qed.

Lemma replace_at_other {A : Type} (l : list A) : forall (i j : nat) (v : A),
  i <> j -> nth_error (replace_at l i v) j = nth_error l j.
Proof.
  induction l as [|x l IH]; intros [|i] [|j] v H; simpl; try reflexivity;
    [congruence | apply IH; congruence].
Qed.

Lemma request_of_replace (deliveries : list item) (k n : nat) (d : item) (io : nat * nat) :
  nth_error deliveries k = Some d ->
  request_of (replace_at deliveries k (set_sequence d n)) io = request_of deliveries io.
Proof.
  intros Hd. destruct io as [i k']. unfold request_of.
  destruct (Nat.eq_dec k k') as [<-|Hne].
  - rewrite (replace_at_same _ _ _ _ Hd), Hd. reflexivity.
  - rewrite replace_at_other by exact Hne. reflexivity.
Qed.

Lemma accepted_replace (update_item : string -> string -> nat -> bool)
    (deliveries : list item) (k n : nat) (d : item) (io : nat * nat) :
  nth_error deliveries k = Some d ->
  accepted update_item (replace_at deliveries k (set_sequence d n)) io
  = accepted update_item deliveries io.
Proof.
  intros Hd. unfold accepted. now rewrite (request_of_replace _ _ _ _ _ Hd).
Qed.

(** One round of the loop: nothing changes when the update does not go
    through; otherwise one delivery is numbered and one update recorded. *)
Lemma update_one_cases (update_item : string -> string -> nat -> bool)
    (c : nat) (deliveries : list item) (w : list write) (i k : nat) :
  (accepted update_item deliveries (i, k) = false /\
   update_one update_item (c, deliveries, w) (i, k) = (c, deliveries, w)) \/
  (exists d pk sk,
     accepted update_item deliveries (i, k) = true /\
     nth_error deliveries k = Some d /\ item_PK d = Some pk /\ item_SK d = Some sk /\
     update_one update_item (c, deliveries, w) (i, k)
     = (c + 1, replace_at deliveries k (set_sequence d (i + 1)), w ++ [(pk, sk, i + 1)])).
Proof.
  unfold accepted, request_of, update_one.
  destruct (nth_error deliveries k) as [d|] eqn:Ed; [|left; split; reflexivity].
  destruct (item_PK d) as [pk|] eqn:Epk; [|left; split; reflexivity].
  destruct (item_SK d) as [sk|] eqn:Esk; [|left; split; reflexivity].
  destruct (update_item pk sk (i + 1)) eqn:Eu; [|left; split; reflexivity].
  right. exists d, pk, sk. repeat split; auto.
Qed.

(** The loop over positions whose delivery indices are distinct. *)
Lemma update_loop (update_item : string -> string -> nat -> bool)
    (ios : list (nat * nat)) : forall (c : nat) (deliveries : list item) (w : list write),
  NoDup (map snd ios) ->
  exists c' deliveries' w',
    fold_left (update_one update_item) ios (c, deliveries, w) = (c', deliveries', w') /\
    c' = c + length (filter (accepted update_item deliveries) ios) /\
    length w' = length w + length (filter (accepted update_item deliveries) ios) /\
    map (fun r : write => snd r) w'
    = map (fun r : write => snd r) w
      ++ map (fun io => fst io + 1) (filter (accepted update_item deliveries) ios) /\
    (forall r, In r w -> In r w') /\
    length deliveries' = length deliveries /\
    (forall i k, In (i, k) ios -> accepted update_item deliveries (i, k) = true ->
       exists d pk sk,
         nth_error deliveries k = Some d /\ item_PK d = Some pk /\ item_SK d = Some sk /\
         In (pk, sk, i + 1) w' /\
         nth_error deliveries' k = Some (set_sequence d (i + 1))) /\
    (forall k, (forall i, In (i, k) ios -> accepted update_item deliveries (i, k) = false) ->
       nth_error deliveries' k = nth_error deliveries k).
Proof.
  induction ios as [|[i0 k0] ios IH]; intros c deliveries w Hnd.
  - exists c, deliveries, w. simpl. rewrite app_nil_r.
    repeat split; auto; try lia; try (intros i k []).
  - simpl in Hnd. inversion Hnd as [|? ? Hnotin Hnd']; subst.
    cbn [fold_left filter].
    destruct (update_one_cases update_item c deliveries w i0 k0)
      as [[Hacc Hstep] | (d & pk & sk & Hacc & Hd & Hpk & Hsk & Hstep)];
      rewrite Hstep, Hacc.
    + destruct (IH c deliveries w Hnd')
        as (c' & ds' & w' & E & Hc & Hlw & Hw & Hin & Hl & Hset & Hkeep).
      exists c', ds', w'. repeat split; auto.
      * intros i k [Heq|Hik] Ha; [injection Heq as <- <-; congruence|]. now apply Hset.
      * intros k Hk. apply Hkeep. intros i Hik. apply Hk. now right.
    + destruct (IH (c + 1) (replace_at deliveries k0 (set_sequence d (i0 + 1)))
                  (w ++ [(pk, sk, i0 + 1)]) Hnd')
        as (c' & ds' & w' & E & Hc & Hlw & Hw & Hin & Hl & Hset & Hkeep).
      assert (Hfilter : filter (accepted update_item
                                  (replace_at deliveries k0 (set_sequence d (i0 + 1)))) ios
                        = filter (accepted update_item deliveries) ios).
      { apply filter_ext. intros io. now apply accepted_replace. }
      rewrite Hfilter in *.
      exists c', ds', w'. split; [exact E|].
      split; [cbn [length]; lia|].
      split; [rewrite Hlw, length_app; cbn [length]; lia|].
      split; [rewrite Hw, map_app, <- app_assoc; reflexivity|].
      split; [intros r Hr; apply Hin, in_or_app; now left|].
      split; [rewrite Hl; apply replace_at_length|].
      split.
      * intros i k [Heq|Hik] Ha.
        -- injection Heq as <- <-. exists d, pk, sk. repeat split; auto.
           ++ apply Hin, in_or_app. right. now left.
           ++ rewrite Hkeep.
              ** eapply replace_at_same; eauto.
              ** intros i Hi. exfalso. apply Hnotin. apply in_map_iff.
                 exists (i, k0). split; [reflexivity | exact Hi].
        -- assert (Hne : k0 <> k).
           { intros ->. apply Hnotin. apply in_map_iff.
             exists (i, k). split; [reflexivity | exact Hik]. }
           destruct (Hset i k Hik) as (d' & pk' & sk' & Hd' & Hpk' & Hsk' & Hw' & Hs').
           { rewrite accepted_replace by exact Hd. exact Ha. }
           rewrite replace_at_other in Hd' by exact Hne.
           exists d', pk', sk'. repeat split; auto.
      * intros k Hk.
        assert (Hne : k0 <> k).
        { intros ->. specialize (Hk i0 (or_introl eq_refl)). congruence. }
        rewrite Hkeep.
        -- apply replace_at_other; exact Hne.
        -- intros i Hi. rewrite accepted_replace by exact Hd. apply Hk. now right.
Qed.

Lemma in_enumerate {A : Type} (l : list A) (i : nat) (a : A) :
  In (i, a) (enumerate l) <-> nth_error l i = Some a.
Proof.
  assert (G : forall (l : list A) (b : nat),
             In (i, a) (combine (seq b (length l)) l)
             <-> (b <= i /\ nth_error l (i - b) = Some a)).
  { clear l. induction l as [|x l IH]; intros b; simpl.
    - split; [intros [] | intros [_ H]]. destruct (i - b); discriminate.
    - rewrite IH. split.
      + intros [Heq | [Hle Hn]].
        * injection Heq as <- <-. rewrite Nat.sub_diag. split; [lia | reflexivity].
        * split; [lia|]. replace (i - b) with (S (i - S b)) by lia. exact Hn.
      + intros [Hle Hn]. destruct (Nat.eq_dec b i) as [<-|Hne].
        * rewrite Nat.sub_diag in Hn. simpl in Hn. injection Hn as <-. now left.
        * right. split; [lia|]. replace (i - b) with (S (i - S b)) in Hn by lia. exact Hn. }
  unfold enumerate. rewrite G, Nat.sub_0_r. split; [intros [_ H]; exact H | intros H].
  split; [lia | exact H].
Qed.

Lemma enumerate_snd {A : Type} (l : list A) : map snd (enumerate l) = l.
Proof.
  unfold enumerate. generalize 0 as b.
  induction l as [|x l IH]; intros b; simpl; [reflexivity|]. now rewrite IH.
Qed.

(** X10: [update_route_sequence], for a sequence without repeated index. The
    count it returns is the number of positions whose update went through, and
    never more than the length of the sequence. The delivery at position [i] of
    the sequence, when its update went through, is sent to the table with
    sequence number [i + 1] and carries that number afterwards: the numbers
    are positions in the sequence, so a refused update leaves a gap. A
    delivery whose update did not go through (index out of range, key missing,
    update refused), or that the sequence does not name, is left as it was,
    and the loop goes on to the next position. *)
Theorem route_sequence_numbers_are_positions
    (update_item : string -> string -> nat -> bool)
    (deliveries : list item) (optimized_sequence : list nat) :
  NoDup optimized_sequence ->
  exists success_count deliveries' written,
    update_route_sequence update_item deliveries optimized_sequence
    = (success_count, deliveries', written) /\
    success_count
    = length (filter (accepted update_item deliveries) (enumerate optimized_sequence)) /\
    length written = success_count /\
    success_count <= length optimized_sequence /\
    length deliveries' = length deliveries /\
    (forall i k, nth_error optimized_sequence i = Some k ->
       accepted update_item deliveries (i, k) = true ->
       exists d pk sk,
         nth_error deliveries k = Some d /\ item_PK d = Some pk /\ item_SK d = Some sk /\
         In (pk, sk, i + 1) written /\
         nth_error deliveries' k = Some (set_sequence d (i + 1))) /\
    (forall k,
       (forall i, nth_error optimized_sequence i = Some k ->
                  accepted update_item deliveries (i, k) = false) ->
       nth_error deliveries' k = nth_error deliveries k).
Proof.
  intros Hnd. unfold update_route_sequence.
  destruct (update_loop update_item (enumerate optimized_sequence) 0 deliveries [])
    as (c' & ds' & w' & E & Hc & Hlw & _ & _ & Hl & Hset & Hkeep).
  { rewrite enumerate_snd. exact Hnd. }
  exists c', ds', w'. split; [exact E|]. simpl in Hc, Hlw.
  split; [exact Hc|]. split; [lia|]. split.
  - rewrite Hc. etransitivity; [apply filter_length_le|].
    unfold enumerate. rewrite length_combine, length_seq. lia.
  - split; [exact Hl|]. split.
    + intros i k Hik Ha. apply Hset; [apply in_enumerate; exact Hik | exact Ha].
    + intros k Hk. apply Hkeep. intros i Hi. apply Hk. apply in_enumerate. exact Hi.
Qed.

Lemma route_sequence_numbers_are_positions_witness :
  NoDup [2; 0; 1] /\
  exists success_count deliveries' written,
    update_route_sequence refuses_second items3 [2; 0; 1]
    = (success_count, deliveries', written) /\
    success_count
    = length (filter (accepted refuses_second items3) (enumerate [2; 0; 1])) /\
    length written = success_count /\
    success_count <= length [2; 0; 1] /\
    length deliveries' = length items3 /\
    (forall i k, nth_error [2; 0; 1] i = Some k ->
       accepted refuses_second items3 (i, k) = true ->
       exists d pk sk,
         nth_error items3 k = Some d /\ item_PK d = Some pk /\ item_SK d = Some sk /\
         In (pk, sk, i + 1) written /\
         nth_error deliveries' k = Some (set_sequence d (i + 1))) /\
    (forall k,
       (forall i, nth_error [2; 0; 1] i = Some k ->
                  accepted refuses_second items3 (i, k) = false) ->
       nth_error deliveries' k = nth_error items3 k).
Proof.
  assert (H : NoDup [2; 0; 1]).
  { repeat constructor; simpl; intuition congruence. }
  split; [exact H|].
  exact (route_sequence_numbers_are_positions refuses_second items3 [2; 0; 1] H).
Defined.

(** ** From the optimized sequence to the exported rows *)

Lemma filter_permutation {A : Type} (f : A -> bool) (l l' : list A) :
  Permutation l l' -> Permutation (filter f l) (filter f l').
Proof.
  induction 1 as [|x l l' Hp IH|x y l|l l' l'' Hp1 IH1 Hp2 IH2]; simpl.
  - constructor.
  - destruct (f x); [apply perm_skip|]; exact IH.
  - destruct (f x), (f y); try apply Permutation_refl. apply perm_swap.
  - eapply Permutation_trans; eauto.
Qed.

(** A list sorted by a key has one arrangement when the keys are distinct. *)
Lemma sorted_perm_unique {A : Type} (key : A -> nat) : forall l' l : list A,
  Permutation l l' ->
  StronglySorted (fun a b => key a <= key b) l ->
  StronglySorted (fun a b => key a < key b) l' ->
  l = l'.
Proof.
  induction l' as [|x t IH]; intros l Hp Hs Hs'.
  - apply Permutation_sym, Permutation_nil in Hp. exact Hp.
  - destruct l as [|y u]; [apply Permutation_nil in Hp; discriminate|].
    inversion Hs as [|? ? Hsu Hall]; subst. inversion Hs' as [|? ? Hst Hall']; subst.
    assert (Heq : y = x).
    { assert (Hy : In y (x :: t)) by (apply (Permutation_in _ Hp); left; reflexivity).
      assert (Hx : In x (y :: u))
        by (apply (Permutation_in _ (Permutation_sym Hp)); left; reflexivity).
      destruct Hy as [->|Hy]; [reflexivity|]. destruct Hx as [->|Hx]; [reflexivity|].
      rewrite Forall_forall in Hall, Hall'.
      specialize (Hall _ Hx). specialize (Hall' _ Hy). lia. }
    subst y. f_equal. apply IH; auto. eapply Permutation_cons_inv; eauto.
Qed.

Lemma enumerate_sorted {A : Type} (l : list A) :
  StronglySorted (fun a b : nat * A => fst a < fst b) (enumerate l).
Proof.
  unfold enumerate. generalize 0 as b.
  induction l as [|x l IH]; intros b; simpl; constructor; [apply IH|].
  apply Forall_forall. intros [i a] Hin. apply in_combine_l in Hin.
  apply in_seq in Hin. simpl. lia.
Qed.

Lemma sorted_map {A B : Type} (R : A -> A -> Prop) (R' : B -> B -> Prop) (h : A -> B)
    (l : list A) :
  (forall a b, R a b -> R' (h a) (h b)) -> StronglySorted R l -> StronglySorted R' (map h l).
Proof.
  intros HR. induction 1 as [|a l Hs IH Hall]; simpl; constructor; [exact IH|].
  rewrite Forall_forall in *. intros y Hy. apply in_map_iff in Hy.
  destruct Hy as (z & <- & Hz). apply HR, Hall, Hz.
Qed.

Lemma filter_map_nth {A B : Type} (h : A -> B) (f : B -> bool) (l : list A) (d0 : A) :
  filter f (map h l)
  = map (fun k => h (nth k l d0)) (filter (fun k => f (h (nth k l d0))) (seq 0 (length l))).
Proof.
  rewrite <- (map_nth_seq l d0) at 1. rewrite map_map.
  generalize (seq 0 (length l)) as ks.
  induction ks as [|k ks IH]; simpl; [reflexivity|].
  destruct (f (h (nth k l d0))); simpl; now rewrite IH.
Qed.

Lemma NoDup_map_filter {A B : Type} (h : A -> B) (f : A -> bool) (l : list A) :
  NoDup (map h l) -> NoDup (map h (filter f l)).
Proof.
  induction l as [|a l IH]; simpl; intros Hnd; [constructor|].
  inversion Hnd as [|? ? Hnotin Hnd']; subst.
  destruct (f a); simpl; [|apply IH; exact Hnd'].
  constructor; [|apply IH; exact Hnd'].
  intros Hin. apply Hnotin. apply in_map_iff in Hin. destruct Hin as (z & Hz & Hzin).
  apply filter_In in Hzin. apply in_map_iff. exists z. tauto.
Qed.

Lemma map_eq_Forall2 {A B C : Type} (f : A -> C) (g : B -> C) (R : A -> B -> Prop) :
  forall (l' : list B) (l : list A),
  map f l = map g l' ->
  (forall a b, In b l' -> f a = g b -> R a b) ->
  Forall2 R l l'.
Proof.
  induction l' as [|b l' IH]; intros [|a l] E HR; simpl in E; try discriminate;
    constructor.
  - apply HR; [left; reflexivity | congruence].
  - apply IH; [congruence|]. intros a' b' Hb' Hab. apply HR; [right; exact Hb' | exact Hab].
Qed.

(** The sequenced deliveries after the updates, in sorted order, are the
    deliveries of the accepted positions, in the order of the sequence. *)
Lemma sequenced_after_update (update_item : string -> string -> nat -> bool)
    (deliveries deliveries' : list item) (optimized_sequence : list nat) (d0 : item) :
  NoDup optimized_sequence ->
  (forall d, In d deliveries -> item_RouteSequence d = None) ->
  (forall i k, In (i, k) (enumerate optimized_sequence) ->
     accepted update_item deliveries (i, k) = true ->
     exists d, nth_error deliveries k = Some d /\
               nth_error deliveries' k = Some (set_sequence d (i + 1))) ->
  (forall k, (forall i, In (i, k) (enumerate optimized_sequence) ->
                        accepted update_item deliveries (i, k) = false) ->
     nth_error deliveries' k = nth_error deliveries k) ->
  filter sequenced (sorted_by_sequence (map delivery_of_item deliveries'))
  = map (fun io => delivery_of_item
                     (set_sequence (nth (snd io) deliveries d0) (fst io + 1)))
        (filter (accepted update_item deliveries) (enumerate optimized_sequence)).
Proof.
  intros Hnd Hnone Hset Hkeep.
  set (acc := filter (accepted update_item deliveries) (enumerate optimized_sequence)).
  set (g := fun k => delivery_of_item (nth k deliveries' d0)).
  assert (Hacc : forall i k, In (i, k) acc ->
            exists d, nth_error deliveries k = Some d /\
                      nth_error deliveries' k = Some (set_sequence d (i + 1))).
  { intros i k Hin. apply filter_In in Hin. destruct Hin as [Hin Ha]. now apply Hset. }
  apply sorted_perm_unique with (key := sort_key).
  - eapply Permutation_trans;
      [apply filter_permutation, sorted_by_sequence_perm|].
    rewrite (filter_map_nth delivery_of_item sequenced deliveries' d0).
    fold g.
    assert (E : map (fun io => delivery_of_item
                                 (set_sequence (nth (snd io) deliveries d0) (fst io + 1))) acc
                = map g (map snd acc)).
    { rewrite map_map. apply map_ext_in. intros [i k] Hin.
      destruct (Hacc i k Hin) as (d & Hd & Hd'). unfold g. simpl.
      rewrite (nth_error_nth _ _ d0 Hd), (nth_error_nth _ _ d0 Hd'). reflexivity. }
    rewrite E. apply Permutation_map. apply NoDup_Permutation.
    + apply NoDup_filter, seq_NoDup.
    + apply NoDup_map_filter. rewrite enumerate_snd. exact Hnd.
    + intros k. rewrite filter_In, in_seq, in_map_iff. split.
      * intros [[_ Hk] Hseq].
        destruct (existsb (fun io => (snd io =? k) && accepted update_item deliveries io)
                          (enumerate optimized_sequence)) eqn:Eex.
        -- apply existsb_exists in Eex. destruct Eex as ([i k'] & Hin & Hb).
           apply andb_true_iff in Hb. destruct Hb as [Hk' Ha]. simpl in Hk'.
           apply Nat.eqb_eq in Hk'. subst k'.
           exists (i, k). split; [reflexivity|]. apply filter_In. split; assumption.
        -- exfalso.
           assert (Hsame : nth_error deliveries' k = nth_error deliveries k).
           { apply Hkeep. intros i Hin.
             destruct (accepted update_item deliveries (i, k)) eqn:Ea; [|reflexivity].
             assert (Hex : existsb (fun io => (snd io =? k)
                                              && accepted update_item deliveries io)
                                   (enumerate optimized_sequence) = true).
             { apply existsb_exists. exists (i, k). split; [exact Hin|].
               simpl. rewrite Nat.eqb_refl. exact Ea. }
             congruence. }
           simpl in Hk.
           destruct (nth_error deliveries' k) as [d|] eqn:Ed;
             [|apply nth_error_None in Ed; lia].
           unfold g in Hseq. rewrite (nth_error_nth _ _ d0 Ed) in Hseq.
           symmetry in Hsame. apply nth_error_In in Hsame. apply Hnone in Hsame.
           unfold sequenced, delivery_of_item in Hseq. simpl in Hseq.
           rewrite Hsame in Hseq. discriminate.
      * intros ([i k'] & Hk' & Hin). simpl in Hk'. subst k'.
        destruct (Hacc i k Hin) as (d & Hd & Hd').
        split; [split; [lia|]|].
        -- simpl. apply nth_error_Some. rewrite Hd'. discriminate.
        -- unfold g. rewrite (nth_error_nth _ _ d0 Hd'). reflexivity.
  - apply filter_sorted. apply sorted_by_sequence_sorted.
  - apply sorted_map with (R := fun a b : nat * nat => fst a < fst b).
    + intros a b Hab. unfold sort_key, delivery_of_item. simpl. lia.
    + apply filter_sorted. apply enumerate_sorted.
Qed.

Lemma enumerate_fst {A : Type} (l : list A) : map fst (enumerate l) = seq 0 (length l).
Proof.
  unfold enumerate. generalize 0 as b.
  induction l as [|x l IH]; intros b; simpl; [reflexivity|]. now rewrite IH.
Qed.

(** X11: [update_route_sequence] followed by [export_driver_routes_to_csv], as
    the handler runs them on a driver's stops, for a sequence without repeated
    index and stops that carry no RouteSequence beforehand. The data rows of
    the file are the stops whose update went through, in the order of the
    optimized sequence: the row of position [i] has sequence number [i + 1]
    and the identity and postcode of the stop the sequence names there. A stop
    whose update did not go through has no row. When every update goes
    through, the rows are numbered 1, 2, ... up to the length of the
    sequence. *)
Theorem export_follows_the_optimized_sequence
    (update_item : string -> string -> nat -> bool)
    (deliveries : list item) (optimized_sequence : list nat) :
  NoDup optimized_sequence ->
  (forall d, In d deliveries -> item_RouteSequence d = None) ->
  exists success_count deliveries' written,
    update_route_sequence update_item deliveries optimized_sequence
    = (success_count, deliveries', written) /\
    let rows := export_driver_routes_to_csv (map delivery_of_item deliveries') in
    Forall2 (fun row io =>
               row_sequence row = fst io + 1 /\
               exists d, nth_error deliveries (snd io) = Some d /\
                         item_PK d = Some (row_delivery row) /\
                         row_postcode row = get_or (item_PostcodeRaw d) EmptyString)
            rows
            (filter (accepted update_item deliveries) (enumerate optimized_sequence)) /\
    ((forall i k, nth_error optimized_sequence i = Some k ->
                  accepted update_item deliveries (i, k) = true) ->
     map row_sequence rows = seq 1 (length optimized_sequence)).
Proof.
  intros Hnd Hnone. unfold update_route_sequence.
  destruct (update_loop update_item (enumerate optimized_sequence) 0 deliveries [])
    as (c' & ds' & w' & E & _ & _ & _ & _ & _ & Hset & Hkeep).
  { rewrite enumerate_snd. exact Hnd. }
  exists c', ds', w'. split; [exact E|].
  cbv zeta. set (rows := export_driver_routes_to_csv (map delivery_of_item ds')).
  set (d0 := mk_item None None None None None None None None).
  assert (Hsorted := sequenced_after_update update_item deliveries ds' optimized_sequence d0
                       Hnd Hnone).
  assert (Hfilter : filter sequenced (sorted_by_sequence (map delivery_of_item ds'))
                    = map (fun io => delivery_of_item
                                       (set_sequence (nth (snd io) deliveries d0) (fst io + 1)))
                          (filter (accepted update_item deliveries)
                                  (enumerate optimized_sequence))).
  { apply Hsorted.
    - intros i k Hin Ha. destruct (Hset i k Hin Ha) as (d & pk & sk & Hd & _ & _ & _ & Hd').
      exists d. split; assumption.
    - exact Hkeep. }
  assert (Hrows : map (fun r => (row_sequence r, row_delivery r, row_postcode r)) rows
                  = map (fun io =>
                           (fst io + 1,
                            get_or (item_PK (nth (snd io) deliveries d0)) EmptyString,
                            get_or (item_PostcodeRaw (nth (snd io) deliveries d0)) EmptyString))
                        (filter (accepted update_item deliveries)
                                (enumerate optimized_sequence))).
  { unfold rows, export_driver_routes_to_csv, enumerate.
    rewrite eta_rows_entries by apply length_seq.
    rewrite Hfilter, map_map. reflexivity. }
  assert (Hall : Forall2 (fun row io =>
               row_sequence row = fst io + 1 /\
               exists d, nth_error deliveries (snd io) = Some d /\
                         item_PK d = Some (row_delivery row) /\
                         row_postcode row = get_or (item_PostcodeRaw d) EmptyString)
            rows
            (filter (accepted update_item deliveries) (enumerate optimized_sequence))).
  { eapply map_eq_Forall2; [exact Hrows|].
    intros row [i k] Hin Heq. apply filter_In in Hin. destruct Hin as [Hin Ha].
    destruct (Hset i k Hin Ha) as (d & pk & sk & Hd & Hpk & _ & _ & _).
    simpl in Heq. rewrite (nth_error_nth _ _ d0 Hd), Hpk in Heq. simpl in Heq.
    injection Heq as Hs Hp Hc. simpl. split; [exact Hs|].
    exists d. split; [exact Hd|]. split; [congruence | exact Hc]. }
  split; [exact Hall|].
  intros Hevery.
  assert (Hid : filter (accepted update_item deliveries) (enumerate optimized_sequence)
                = enumerate optimized_sequence).
  { apply forallb_filter_id. apply forallb_forall. intros [i k] Hin.
    apply Hevery. apply in_enumerate. exact Hin. }
  apply (f_equal (map (fun t : nat * string * string => fst (fst t)))) in Hrows.
  rewrite !map_map, Hid in Hrows. simpl in Hrows.
  transitivity (map (fun x : csv_row => row_sequence x) rows); [reflexivity|].
  rewrite Hrows.
  rewrite <- seq_shift, <- enumerate_fst, map_map.
  apply map_ext. intros io. lia.
Qed.

Lemma export_follows_the_optimized_sequence_witness :
  NoDup [2; 0; 1] /\
  (forall d, In d items3 -> item_RouteSequence d = None) /\
  exists success_count deliveries' written,
    update_route_sequence accepts_all items3 [2; 0; 1]
    = (success_count, deliveries', written) /\
    let rows := export_driver_routes_to_csv (map delivery_of_item deliveries') in
    Forall2 (fun row io =>
               row_sequence row = fst io + 1 /\
               exists d, nth_error items3 (snd io) = Some d /\
                         item_PK d = Some (row_delivery row) /\
                         row_postcode row = get_or (item_PostcodeRaw d) EmptyString)
            rows
            (filter (accepted accepts_all items3) (enumerate [2; 0; 1])) /\
    ((forall i k, nth_error [2; 0; 1] i = Some k ->
                  accepted accepts_all items3 (i, k) = true) ->
     map row_sequence rows = seq 1 (length [2; 0; 1])).
Proof.
  assert (H : NoDup [2; 0; 1]).
  { repeat constructor; simpl; intuition congruence. }
  assert (H' : forall d, In d items3 -> item_RouteSequence d = None).
  { intros d [<-|[<-|[<-|[]]]]; reflexivity. }
  split; [exact H|]. split; [exact H'|].
  exact (export_follows_the_optimized_sequence accepts_all items3 [2; 0; 1] H H').
Defined.

(** ** Grouping the deliveries by driver *)

Lemma group_append_lookup (k k' : string) (d : item) (g : list (string * list item)) :
  dict_lookup k (group_append k' d g)
  = if String.eqb k k'
    then Some (match dict_lookup k' g with
               | Some l => l ++ [d]
               | None => [d]
               end)
    else dict_lookup k g.
Proof.
  induction g as [|[k1 l1] g IH]; simpl.
  - destruct (String.eqb k k'); reflexivity.
  - destruct (String.eqb_spec k' k1) as [->|Hne]; simpl.
    + destruct (String.eqb k k1); reflexivity.
    + rewrite IH. destruct (String.eqb_spec k k1) as [->|Hne1].
      * destruct (String.eqb_spec k1 k'); [congruence | reflexivity].
      * reflexivity.
Qed.

Lemma group_append_keys (k' : string) (d : item) (g : list (string * list item)) :
  NoDup (map fst g) -> NoDup (map fst (group_append k' d g)) /\
  (forall x, In x (map fst (group_append k' d g)) <-> x = k' \/ In x (map fst g)).
Proof.
  induction g as [|[k1 l1] g IH]; simpl; intros Hnd.
  - split; [repeat constructor; intros [] | intros x; intuition].
  - inversion Hnd as [|? ? Hnotin Hnd']; subst.
    destruct (String.eqb_spec k' k1) as [->|Hne]; simpl.
    + split; [exact Hnd | intros x; intuition].
    + destruct (IH Hnd') as [IH1 IH2]. split.
      * constructor; [|exact IH1]. rewrite IH2. intros [Heq|Hin]; congruence.
      * intros x. rewrite IH2. intuition.
Qed.

Lemma set_add_spec (x : string) (s : list string) :
  (forall a, In a (set_add x s) <-> a = x \/ In a s) /\
  (NoDup s -> NoDup (set_add x s)).
Proof.
  unfold set_add. destruct (existsb (String.eqb x) s) eqn:E.
  - apply existsb_exists in E. destruct E as (y & Hy & Hxy).
    apply String.eqb_eq in Hxy. subst y. split; [|auto].
    intros a. split; [auto | intros [->|H]; assumption].
  - split.
    + intros a. rewrite in_app_iff. simpl. intuition.
    + intros Hnd. apply NoDup_app; [exact Hnd | repeat constructor; intros [] |].
      intros a Ha [Heq|[]]. subst a.
      assert (Hex : existsb (String.eqb x) s = true)
        by (apply existsb_exists; exists x; split; [exact Ha | apply String.eqb_refl]).
      congruence.
Qed.

Lemma group_fold (strip : string -> string) (deliveries : list item) :
  forall (g : list (string * list item)) (u : list string),
  NoDup (map fst g) -> NoDup u ->
  (forall k,
     dict_lookup k (fst (fold_left (group_step strip) deliveries (g, u)))
     = match dict_lookup k g with
       | Some l => Some (l ++ filter (filed_under strip k) deliveries)
       | None => match filter (filed_under strip k) deliveries with
                 | [] => None
                 | l => Some l
                 end
       end) /\
  NoDup (map fst (fst (fold_left (group_step strip) deliveries (g, u)))) /\
  (forall a,
     In a (snd (fold_left (group_step strip) deliveries (g, u)))
     <-> In a u \/ exists d, In d deliveries /\ postcode_of strip d = a /\ is_empty a = false) /\
  NoDup (snd (fold_left (group_step strip) deliveries (g, u))).
Proof.
  induction deliveries as [|d ds IH]; intros g u Hg Hu.
  - simpl. repeat split; auto.
    + intros k. destruct (dict_lookup k g); [rewrite app_nil_r|]; reflexivity.
    + intros [H|(d & [] & _)]. exact H.
  - cbn [fold_left]. unfold group_step at 2 4 6 8.
    destruct (is_empty (postcode_of strip d)) eqn:Ee.
    + destruct (IH g u Hg Hu) as (Ha & Hb & Hc & Hd). repeat split; auto.
      * intros k. rewrite Ha.
        assert (Hf : filter (filed_under strip k) (d :: ds)
                     = filter (filed_under strip k) ds).
        { cbn [filter].
          assert (Hd0 : filed_under strip k d = false)
            by (unfold filed_under; rewrite Ee; reflexivity).
          rewrite Hd0. reflexivity. }
        rewrite Hf. reflexivity.
      * intros H. apply Hc in H. destruct H as [H|(d' & Hin & Hp & He)]; [now left|].
        right. exists d'. repeat split; auto. now right.
      * intros H. apply Hc. destruct H as [H|(d' & [<-|Hin] & Hp & He)]; [now left | |].
        -- subst a. congruence.
        -- right. exists d'. repeat split; auto.
    + set (drv := get_or (item_DriverID d) "Unassigned"%string).
      destruct (group_append_keys drv d g Hg) as [Hg' _].
      destruct (set_add_spec (postcode_of strip d) u) as [Hin' Hu'].
      destruct (IH (group_append drv d g) (set_add (postcode_of strip d) u) Hg' (Hu' Hu))
        as (Ha & Hb & Hc & Hd).
      repeat split; auto.
      * intros k. rewrite Ha, group_append_lookup.
        assert (Hd0 : filed_under strip k d = String.eqb k drv).
        { unfold filed_under. rewrite Ee. fold drv. cbn [negb andb].
          apply String.eqb_sym. }
        assert (Hf : filter (filed_under strip k) (d :: ds)
                     = if String.eqb k drv then d :: filter (filed_under strip k) ds
                       else filter (filed_under strip k) ds).
        { cbn [filter]. rewrite Hd0. reflexivity. }
        rewrite Hf.
        destruct (String.eqb_spec k drv) as [Heq|Hne].
        -- rewrite Heq.
           destruct (dict_lookup drv g); [rewrite <- app_assoc|]; reflexivity.
        -- reflexivity.
      * intros H. apply Hc in H. destruct H as [H|(d' & Hin & Hp & He)].
        -- apply Hin' in H. destruct H as [->|H]; [|now left].
           right. exists d. repeat split; auto. now left.
        -- right. exists d'. repeat split; auto. now right.
      * intros H. apply Hc. destruct H as [H|(d' & [<-|Hin] & Hp & He)].
        -- left. apply Hin'. now right.
        -- left. apply Hin'. left. now rewrite Hp.
        -- right. exists d'. repeat split; auto.
Qed.

(** X12: the grouping loop of the handler. Under each driver it files the
    deliveries of that driver that have a postcode, in the order of the scan,
    a delivery without driver going under ["Unassigned"]; a driver with no
    such delivery has no group, so no group is empty; the drivers are
    distinct; a delivery whose postcode is empty once stripped is in no group.
    The addresses to geocode are the depot and the stripped postcodes of
    the deliveries that have one, each once. *)
Theorem grouping_files_each_delivery_under_its_driver
    (strip : string -> string) (deliveries : list item) :
  (forall driver,
     dict_lookup driver (fst (group_deliveries strip deliveries))
     = match filter (filed_under strip driver) deliveries with
       | [] => None
       | stops => Some stops
       end) /\
  NoDup (map fst (fst (group_deliveries strip deliveries))) /\
  (forall a,
     In a (snd (group_deliveries strip deliveries))
     <-> a = START_LOCATION \/
         exists d, In d deliveries /\ postcode_of strip d = a /\ is_empty a = false) /\
  NoDup (snd (group_deliveries strip deliveries)).
Proof.
  unfold group_deliveries.
  destruct (group_fold strip deliveries [] [START_LOCATION]) as (Ha & Hb & Hc & Hd).
  - constructor.
  - repeat constructor. intros [].
  - repeat split; auto.
    + intros H. apply Hc in H. destruct H as [[<-|[]]|H]; [now left | now right].
    + intros H. apply Hc. destruct H as [->|H]; [left; now left | now right].
Qed.

(** ** The handler *)

Lemma depot_is_asked_for (strip : string -> string) (deliveries : list item) :
  In START_LOCATION (snd (group_deliveries strip deliveries)).
Proof.
  unfold group_deliveries.
  destruct (group_fold strip deliveries [] [START_LOCATION]) as (_ & _ & Hc & _).
  - constructor.
  - repeat constructor. intros [].
  - apply Hc. left. now left.
Qed.

Lemma depot_lookup {F : Arith} (strip : string -> string) (lookup : string -> option coord)
    (deliveries : list item) :
  dict_lookup START_LOCATION
    (geocode_addresses_parallel lookup (snd (group_deliveries strip deliveries)))
  = lookup START_LOCATION.
Proof.
  unfold geocode_addresses_parallel. rewrite geocode_fold_lookup.
  assert (Hin : existsb (String.eqb START_LOCATION)
                        (snd (group_deliveries strip deliveries)) = true).
  { apply existsb_exists. exists START_LOCATION.
    split; [apply depot_is_asked_for | apply String.eqb_refl]. }
  rewrite Hin. destruct (lookup START_LOCATION); reflexivity.
Qed.

(** X13: what stops the handler before it touches anything. A failed scan
    gives status 500; a scan without item gives status 400; and for any other
    scan, when the depot address cannot be geocoded, the handler answers 400,
    with one of its two geocoding messages, whatever the deliveries and the
    other addresses are. In the three cases no table item is updated and no
    file is uploaded. *)
Theorem handler_stops_without_deliveries_or_depot {F : Arith}
    (strip : string -> string) (sv : services) (fuel : nat) :
  match scan sv with
  | inl _ =>
      lambda_handler strip sv fuel
      = (no_effects, Ok (mk_response 500 (Message "Failed to scan DynamoDB table")))
  | inr [] =>
      lambda_handler strip sv fuel
      = (no_effects, Ok (mk_response 400 (Message "No deliveries found")))
  | inr (_ :: _) =>
      geocode sv START_LOCATION = None ->
      exists text,
        lambda_handler strip sv fuel = (no_effects, Ok (mk_response 400 (Message text))) /\
        (text = "Failed to fetch coordinates"%string \/
         text = "Failed to geocode start location"%string)
  end.
Proof.
  unfold lambda_handler. destruct (scan sv) as [e|[|d ds]]; try reflexivity.
  intros Hdepot.
  pose proof (depot_lookup strip (geocode sv) (d :: ds)) as Hl.
  destruct (group_deliveries strip (d :: ds)) as [grouped unique]. simpl in Hl.
  destruct (geocode_addresses_parallel (geocode sv) unique) as [|entry rest].
  - eexists. split; [reflexivity | now left].
  - rewrite Hl, Hdepot. eexists. split; [reflexivity | now right].
Qed.

(** X14: a driver with fewer than two geocoded stops is passed over. The run
    over the drivers gives the same effects and the same results as it does
    without that driver: none of the driver's deliveries is numbered, no file
    is written for the driver, and the results do not mention the driver. *)
Theorem driver_with_one_located_stop_is_passed_over {F : Arith}
    (strip : string -> string) (sv : services) (fuel : nat)
    (address_to_coords : list (string * coord)) (start_coords : coord)
    (driver : string) (stops : list item) (later : list (string * list item)) :
  length (geocoded_stops strip address_to_coords stops) < 2 ->
  forall (earlier : list (string * list item)) (results : run_results) (done : effects),
  optimize_drivers strip sv fuel address_to_coords start_coords
    (earlier ++ (driver, stops) :: later) results done
  = optimize_drivers strip sv fuel address_to_coords start_coords
      (earlier ++ later) results done.
Proof.
  intros Hfew. induction earlier as [|[driver' stops'] earlier IH]; intros results done.
  - cbn [app optimize_drivers]. unfold optimize_driver. rewrite length_map.
    destruct (Nat.ltb_spec (length (geocoded_stops strip address_to_coords stops)) 2);
      [reflexivity | lia].
  - cbn [app optimize_drivers].
    destruct (optimize_driver strip sv fuel address_to_coords start_coords results done
                driver' stops') as [done' [results'| |]]; try reflexivity.
    apply IH.
Qed.

Lemma driver_with_one_located_stop_is_passed_over_witness :
  length (geocoded_stops stripped [(START_LOCATION, depot0); ("W5 2BS"%string, pt 5 0)]
                         [item_d]) < 2 /\
  optimize_drivers stripped services0 3
    [(START_LOCATION, depot0); ("W5 2BS"%string, pt 5 0)] depot0
    ([] ++ ("Driver 2"%string, [item_d]) :: [("Driver 1"%string, items3)])
    (mk_results 0 0 [] []) no_effects
  = optimize_drivers stripped services0 3
      [(START_LOCATION, depot0); ("W5 2BS"%string, pt 5 0)] depot0
      ([] ++ [("Driver 1"%string, items3)]) (mk_results 0 0 [] []) no_effects.
Proof.
  assert (H : length (geocoded_stops stripped
                        [(START_LOCATION, depot0); ("W5 2BS"%string, pt 5 0)] [item_d]) < 2).
  { vm_compute. lia. }
  split; [exact H|].
  exact (driver_with_one_located_stop_is_passed_over stripped services0 3 _ depot0
           "Driver 2"%string [item_d] [("Driver 1"%string, items3)] H []
           (mk_results 0 0 [] []) no_effects).
Defined.

(** The updates the loop records are the requests of the accepted positions,
    in order. *)
Lemma update_loop_written (update_item : string -> string -> nat -> bool)
    (ios : list (nat * nat)) : forall (c : nat) (deliveries : list item) (w : list write),
  snd (fold_left (update_one update_item) ios (c, deliveries, w))
  = w ++ flat_map (fun io => if accepted update_item deliveries io
                             then match request_of deliveries io with
                                  | Some r => [r]
                                  | None => []
                                  end
                             else []) ios.
Proof.
  induction ios as [|[i0 k0] ios IH]; intros c deliveries w.
  - simpl. now rewrite app_nil_r.
  - cbn [fold_left flat_map].
    destruct (update_one_cases update_item c deliveries w i0 k0)
      as [[Hacc Hstep] | (d & pk & sk & Hacc & Hd & Hpk & Hsk & Hstep)];
      rewrite Hstep, Hacc.
    + rewrite IH. reflexivity.
    + rewrite IH, <- app_assoc. f_equal.
      assert (Hreq : request_of deliveries (i0, k0) = Some (pk, sk, i0 + 1)).
      { unfold request_of. rewrite Hd, Hpk, Hsk. reflexivity. }
      rewrite Hreq. cbn [app]. f_equal.
      apply flat_map_ext. intros io.
      rewrite (accepted_replace _ _ _ _ _ _ Hd), (request_of_replace _ _ _ _ _ Hd).
      reflexivity.
Qed.

Lemma accepted_requests (update_item : string -> string -> nat -> bool)
    (deliveries : list item) (ios : list (nat * nat)) :
  (forall io, In io ios -> accepted update_item deliveries io = true) ->
  Forall2 (fun r io => request_of deliveries io = Some r)
    (flat_map (fun io => if accepted update_item deliveries io
                         then match request_of deliveries io with
                              | Some r => [r]
                              | None => []
                              end
                         else []) ios) ios.
Proof.
  induction ios as [|io ios IH]; intros H; cbn [flat_map]; [constructor|].
  assert (Ha : accepted update_item deliveries io = true) by (apply H; now left).
  rewrite Ha. unfold accepted in Ha.
  destruct (request_of deliveries io) as [r|] eqn:Er; [|discriminate].
  cbn [app]. constructor; [exact Er|]. apply IH. intros io' Hin. apply H. now right.
Qed.

(** The stops the handler hands to the optimizer: their original indices
    increase, and each is a stop of the driver whose postcode was geocoded. *)
Lemma geocoded_stops_spec {F : Arith} (strip : string -> string)
    (address_to_coords : list (string * coord)) (stops : list item) :
  StronglySorted lt
    (map (fun t : coord * nat * string => snd (fst t))
         (geocoded_stops strip address_to_coords stops)) /\
  (forall c idx p, In (c, idx, p) (geocoded_stops strip address_to_coords stops) ->
     exists d, nth_error stops idx = Some d /\ p = postcode_of strip d /\
               dict_lookup p address_to_coords = Some c).
Proof.
  split.
  - unfold geocoded_stops, enumerate. generalize 0 as b.
    assert (G : forall (l : list item) (b : nat),
              StronglySorted lt
                (map (fun t : coord * nat * string => snd (fst t))
                   (flat_map (fun '(index, stop) =>
                      let postcode := postcode_of strip stop in
                      match dict_lookup postcode address_to_coords with
                      | Some coords => [(coords, index, postcode)]
                      | None => []
                      end) (combine (seq b (length l)) l))) /\
              Forall (fun x => b <= x)
                (map (fun t : coord * nat * string => snd (fst t))
                   (flat_map (fun '(index, stop) =>
                      let postcode := postcode_of strip stop in
                      match dict_lookup postcode address_to_coords with
                      | Some coords => [(coords, index, postcode)]
                      | None => []
                      end) (combine (seq b (length l)) l)))).
    { induction l as [|x l IH]; intros b; cbn [length seq combine flat_map].
      - split; constructor.
      - destruct (IH (S b)) as [IH1 IH2].
        assert (IH3 : Forall (fun x => b < x)
                  (map (fun t : coord * nat * string => snd (fst t))
                     (flat_map (fun '(index, stop) =>
                        let postcode := postcode_of strip stop in
                        match dict_lookup postcode address_to_coords with
                        | Some coords => [(coords, index, postcode)]
                        | None => []
                        end) (combine (seq (S b) (length l)) l)))).
        { eapply Forall_impl; [|exact IH2]. intros a Ha. simpl in Ha. lia. }
        destruct (dict_lookup (postcode_of strip x) address_to_coords) as [c|];
          cbn [app map fst snd].
        + split; [constructor; assumption|].
          constructor; [lia|]. eapply Forall_impl; [|exact IH3]. intros a Ha.
          simpl in Ha. lia.
        + split; [exact IH1|]. eapply Forall_impl; [|exact IH3]. intros a Ha.
          simpl in Ha. lia. }
    intros b. apply G.
  - intros c idx p Hin. unfold geocoded_stops in Hin. apply in_flat_map in Hin.
    destruct Hin as ([index stop] & Hin & Hx). apply in_enumerate in Hin.
    cbv zeta in Hx.
    destruct (dict_lookup (postcode_of strip stop) address_to_coords) as [c'|] eqn:El;
      [|destruct Hx].
    destruct Hx as [Heq|[]]. injection Heq as <- <- <-.
    exists stop. repeat split; auto.
Qed.

Lemma sorted_lt_NoDup (l : list nat) : StronglySorted lt l -> NoDup l.
Proof.
  induction 1 as [|a l Hs IH Hall]; constructor; [|exact IH].
  intros Hin. rewrite Forall_forall in Hall. specialize (Hall a Hin). lia.
Qed.

Lemma estimated_duration_text (k : nat) :
  decimal_int (estimated_duration (Z.of_nat k)) = decimal (13 * k + 12).
Proof.
  unfold decimal_int, estimated_duration.
  destruct (Z.ltb_spec (20 + (Z.of_nat k - 1) * 8 + Z.of_nat k * 5) 0) as [Hlt|Hge];
    [lia|].
  f_equal. lia.
Qed.

Lemma rows_after_update (update_item : string -> string -> nat -> bool)
    (deliveries deliveries' : list item) (optimized_sequence : list nat)
    (c' : nat) (w' : list write) (d0 : item) :
  NoDup optimized_sequence ->
  (forall d, In d deliveries -> item_RouteSequence d = None) ->
  fold_left (update_one update_item) (enumerate optimized_sequence) (0, deliveries, [])
  = (c', deliveries', w') ->
  map (fun r => (row_sequence r, row_delivery r, row_postcode r))
      (export_driver_routes_to_csv (map delivery_of_item deliveries'))
  = map (fun io =>
           (fst io + 1,
            get_or (item_PK (nth (snd io) deliveries d0)) EmptyString,
            get_or (item_PostcodeRaw (nth (snd io) deliveries d0)) EmptyString))
        (filter (accepted update_item deliveries) (enumerate optimized_sequence)).
Proof.
  intros Hnd Hnone E.
  destruct (update_loop update_item (enumerate optimized_sequence) 0 deliveries [])
    as (c'' & ds'' & w'' & E' & _ & _ & _ & _ & _ & Hset & Hkeep).
  { rewrite enumerate_snd. exact Hnd. }
  rewrite E in E'. injection E' as <- <- <-.
  unfold export_driver_routes_to_csv, enumerate at 1.
  rewrite eta_rows_entries by apply length_seq.
  rewrite (sequenced_after_update update_item deliveries deliveries' optimized_sequence d0
             Hnd Hnone).
  - rewrite map_map. reflexivity.
  - intros i k Hin Ha. destruct (Hset i k Hin Ha) as (d & pk & sk & Hd & _ & _ & _ & Hd').
    exists d. split; assumption.
  - exact Hkeep.
Qed.

Lemma Forall2_map_eq {A B C : Type} (f : A -> C) (g : B -> C) (R : A -> B -> Prop)
    (l : list A) (l' : list B) :
  Forall2 R l l' -> (forall a b, R a b -> f a = g b) -> map f l = map g l'.
Proof.
  intros H HR. induction H as [|a b l l' Hab H IH]; simpl; [reflexivity|].
  rewrite (HR a b Hab), IH. reflexivity.
Qed.

Lemma NoDup_map_nth {A : Type} (l : list A) (d : A) (route : list nat) :
  NoDup l -> NoDup route -> (forall i, In i route -> i < length l) ->
  NoDup (map (fun i => nth i l d) route).
Proof.
  intros Hl Hr Hlt. apply Finite.Injective_map_NoDup_in; [|exact Hr].
  intros x y Hx Hy Hxy. apply (proj1 (NoDup_nth l d) Hl); auto.
Qed.

(** One round of the per-driver loop, for whatever route the optimizer
    returns, when the table and the bucket accept every request. *)
Lemma driver_round {F : Arith}
    (strip : string -> string) (sv : services) (fuel : nat)
    (address_to_coords : list (string * coord)) (start_coords : coord)
    (results : run_results) (done : effects) (driver : string) (stops : list item)
    (route : list nat) :
  let located := geocoded_stops strip address_to_coords stops in
  let k := length located in
  let location_coords := map (fun t : coord * nat * string => fst (fst t)) located in
  2 <= k ->
  optimize_route_with_routes_api fuel start_coords location_coords
    (matrix_reply sv (start_coords :: location_coords)) = Ok route ->
  route <> [] -> NoDup route -> (forall i, In i route -> i < k) ->
  (forall d, In d stops ->
     item_PK d <> None /\ item_SK d <> None /\ item_RouteSequence d = None) ->
  (forall pk sk n, update_item sv pk sk n = true) ->
  (forall key rows, put_object sv key rows = None) ->
  exists written rows,
    optimize_driver strip sv fuel address_to_coords start_coords results done driver stops
    = (mk_effects (updates done ++ written)
                  (uploads done ++ [(s3_key_of driver (time_now sv driver), rows)]),
       Ok (mk_results
             (optimized_drivers results + 1)
             (total_deliveries_sequenced results + length route)
             (dict_store driver
                (mk_driver_route (length route)
                   ("s3://" ++ BUCKET_NAME ++ "/"
                    ++ s3_key_of driver (time_now sv driver))%string
                   (START_LOCATION
                    :: map (fun i => nth i (map (fun t => snd t) located) EmptyString) route))
                (driver_routes results))
             (dict_store driver (decimal (13 * length route + 12) ++ " minutes")%string
                (route_durations results)))) /\
    Forall2 (fun w io => request_of stops io = Some w) written
      (enumerate (map (fun i => nth i (map (fun t => snd (fst t)) located) 0) route)) /\
    map (fun w : write => snd w) written = seq 1 (length route) /\
    map (fun r => (row_sequence r, row_delivery r)) rows
    = map (fun w : write => (snd w, fst (fst w))) written.
Proof.
  cbv zeta. intros Hk2 Hopt Hne Hndr Hroute_lt Hkeys Hupd Hput.
  destruct (geocoded_stops_spec strip address_to_coords stops) as [Hsorted Hloc].
  unfold optimize_driver. cbv zeta.
  remember (geocoded_stops strip address_to_coords stops) as located eqn:Eloc.
  remember (map (fun t : coord * nat * string => fst (fst t)) located) as coords eqn:Ecoords.
  remember (map (fun t : coord * nat * string => snd (fst t)) located) as oi eqn:Eoi.
  remember (map (fun t : coord * nat * string => snd t) located) as pm eqn:Epm.
  remember (length located) as k eqn:Ek.
  assert (Hlc : length coords = k) by (subst; apply length_map).
  assert (Hloi : length oi = k) by (subst; apply length_map).
  assert (Hlpm : length pm = k) by (subst; apply length_map).
  set (oseq := map (fun i => nth i oi 0) route).
  assert (HmapO : mapM (index oi) route = Ok oseq).
  { apply mapM_index. intros i Hi. rewrite Hloi. auto. }
  assert (HmapP : mapM (index pm) route = Ok (map (fun i => nth i pm EmptyString) route)).
  { apply mapM_index. intros i Hi. rewrite Hlpm. auto. }
  assert (Hlen_oseq : length oseq = length route) by (unfold oseq; apply length_map).
  assert (Hnd : NoDup oseq).
  { apply NoDup_map_nth; [now apply sorted_lt_NoDup | exact Hndr|].
    intros i Hi. rewrite Hloi. auto. }
  assert (Hacc : forall io, In io (enumerate oseq) ->
                   accepted (update_item sv) stops io = true).
  { intros [i idx] Hin. apply in_enumerate in Hin. apply nth_error_In in Hin.
    unfold oseq in Hin. apply in_map_iff in Hin. destruct Hin as (j & Hj & Hjin).
    assert (Hidx : In idx oi).
    { rewrite <- Hj. apply nth_In. rewrite Hloi. auto. }
    rewrite Eoi in Hidx.
    apply in_map_iff in Hidx. destruct Hidx as ([[c idx'] p] & Hidx & Hin). simpl in Hidx.
    subst idx'. destruct (Hloc c idx p Hin) as (d & Hd & _).
    destruct (Hkeys d (nth_error_In _ _ Hd)) as (Hpk & Hsk & _).
    unfold accepted, request_of. rewrite Hd.
    destruct (item_PK d) as [pk|]; [|congruence].
    destruct (item_SK d) as [sk|]; [|congruence]. apply Hupd. }
  assert (Hnone : forall d, In d stops -> item_RouteSequence d = None).
  { intros d Hd. apply Hkeys. exact Hd. }
  assert (Hall : filter (accepted (update_item sv) stops) (enumerate oseq) = enumerate oseq).
  { apply forallb_filter_id. apply forallb_forall. exact Hacc. }
  destruct (fold_left (update_one (update_item sv)) (enumerate oseq) (0, stops, []))
    as [[c' ds'] w'] eqn:E.
  set (d0 := mk_item None None None None None None None None).
  pose proof (rows_after_update (update_item sv) stops ds' oseq c' w' d0 Hnd Hnone E) as Hrows.
  pose proof (update_loop_written (update_item sv) (enumerate oseq) 0 stops []) as Hw.
  rewrite E in Hw. cbn [snd app] in Hw.
  destruct (update_loop (update_item sv) (enumerate oseq) 0 stops [])
    as (c'' & ds'' & w'' & E' & Hc & _ & Hnum & _).
  { rewrite enumerate_snd. exact Hnd. }
  rewrite E in E'. injection E' as <- <- <-.
  rewrite Hall in Hc, Hnum, Hrows.
  assert (Hck : c' = length route).
  { rewrite Hc. unfold enumerate. rewrite length_combine, length_seq. lia. }
  assert (Hreq : Forall2 (fun w io => request_of stops io = Some w) w' (enumerate oseq)).
  { rewrite Hw. apply accepted_requests. exact Hacc. }
  exists w', (export_driver_routes_to_csv (map delivery_of_item ds')).
  split; [|split; [exact Hreq|split]].
  - destruct (Nat.ltb_spec (length coords) 2) as [Hlt|_]; [lia|].
    rewrite Hopt.
    destruct route as [|r0 rt] eqn:Er; [congruence|].
    cbv beta iota. rewrite <- Er in *. rewrite HmapO, HmapP. cbn [bind].
    unfold update_route_sequence. rewrite E. cbv beta iota zeta. rewrite Hput.
    cbn [updates uploads]. rewrite Hlen_oseq, estimated_duration_text, Hck. reflexivity.
  - cbn [map app] in Hnum. rewrite Hnum.
    rewrite <- Hlen_oseq, <- seq_shift, <- (enumerate_fst oseq), map_map.
    apply map_ext. intros io. lia.
  - apply (f_equal (map (fun t : nat * string * string => (fst (fst t), snd (fst t)))))
      in Hrows.
    rewrite !map_map in Hrows. cbn [fst snd] in Hrows.
    etransitivity; [exact Hrows|]. symmetry.
    eapply Forall2_map_eq; [exact Hreq|].
    intros [[pk sk] n] [i idx] Hr. cbn [fst snd]. unfold request_of in Hr.
    destruct (nth_error stops idx) as [d|] eqn:Ed; [|discriminate].
    rewrite (nth_error_nth _ _ d0 Ed).
    destruct (item_PK d) as [pk'|]; [|discriminate].
    destruct (item_SK d) as [sk'|]; [|discriminate].
    injection Hr as <- <- <-. reflexivity.
Qed.

(** X15: one driver, end to end, on the nearest-neighbour path. For a driver
    with between 2 and 25 geocoded stops at finite distances, whose stops
    have their keys and no RouteSequence yet, with a table and a bucket that
    accept every request, the handler's round for the driver completes. Its
    route is the nearest-neighbour order, a permutation of the geocoded
    stops. Each geocoded stop gets one table update, in route order, with the
    numbers 1 to k; the exported file lists the same deliveries with the
    same numbers in the same order; and the results count one more driver
    and k more deliveries, and report for the driver k stops, the depot
    followed by the postcodes in route order, and 13 k + 12 minutes. *)
Theorem driver_route_is_numbered_end_to_end {F : Arith}
    (strip : string -> string) (sv : services) (fuel : nat)
    (address_to_coords : list (string * coord)) (start_coords : coord)
    (results : run_results) (done : effects) (driver : string) (stops : list item) :
  let located := geocoded_stops strip address_to_coords stops in
  let k := length located in
  2 <= k -> k <= 25 -> k <= fuel ->
  finite_distances start_coords (map (fun t => fst (fst t)) located) = true ->
  (forall d, In d stops ->
     item_PK d <> None /\ item_SK d <> None /\ item_RouteSequence d = None) ->
  (forall pk sk n, update_item sv pk sk n = true) ->
  (forall key rows, put_object sv key rows = None) ->
  exists route written rows,
    nearest_neighbor_route fuel start_coords (map (fun t => fst (fst t)) located)
    = Ok route /\
    Permutation route (seq 0 k) /\
    optimize_driver strip sv fuel address_to_coords start_coords results done driver stops
    = (mk_effects (updates done ++ written)
                  (uploads done ++ [(s3_key_of driver (time_now sv driver), rows)]),
       Ok (mk_results
             (optimized_drivers results + 1)
             (total_deliveries_sequenced results + k)
             (dict_store driver
                (mk_driver_route k
                   ("s3://" ++ BUCKET_NAME ++ "/"
                    ++ s3_key_of driver (time_now sv driver))%string
                   (START_LOCATION
                    :: map (fun i => nth i (map (fun t => snd t) located) EmptyString) route))
                (driver_routes results))
             (dict_store driver (decimal (13 * k + 12) ++ " minutes")%string
                (route_durations results)))) /\
    Forall2 (fun w io => request_of stops io = Some w) written
      (enumerate (map (fun i => nth i (map (fun t => snd (fst t)) located) 0) route)) /\
    map (fun w : write => snd w) written = seq 1 k /\
    map (fun r => (row_sequence r, row_delivery r)) rows
    = map (fun w : write => (snd w, fst (fst w))) written.
Proof.
  cbv zeta. intros Hk2 Hk25 Hfuel Hfin Hkeys Hupd Hput.
  set (located := geocoded_stops strip address_to_coords stops) in *.
  set (coords := map (fun t : coord * nat * string => fst (fst t)) located) in *.
  assert (Hlc : length coords = length located) by apply length_map.
  destruct (nearest_neighbor_permutation start_coords coords fuel Hfin)
    as (route & Hnn & Hperm); [lia|].
  rewrite Hlc in Hperm.
  assert (Hlen : length route = length located).
  { rewrite (Permutation_length Hperm). apply length_seq. }
  assert (Hopt : optimize_route_with_routes_api fuel start_coords coords
                   (matrix_reply sv (start_coords :: coords)) = Ok route).
  { unfold optimize_route_with_routes_api.
    destruct (Nat.ltb_spec (MAX_STOPS_PER_REQUEST + 1) (length coords + 1)) as [Hlt|_];
      [unfold MAX_STOPS_PER_REQUEST in Hlt; lia | exact Hnn]. }
  destruct (driver_round strip sv fuel address_to_coords start_coords results done driver
              stops route Hk2 Hopt) as (written & rows & Hrun & Hreq & Hnum & Hrows);
    auto.
  - intros ->. simpl in Hlen. lia.
  - apply (Permutation_NoDup (Permutation_sym Hperm)). apply seq_NoDup.
  - intros i Hi. apply (Permutation_in _ Hperm) in Hi. apply in_seq in Hi.
    fold located. lia.
  - exists route, written, rows. rewrite Hlen in Hrun, Hnum.
    repeat split; assumption.
Qed.

Lemma driver_route_is_numbered_end_to_end_witness :
  (2 <= length (geocoded_stops stripped address_book0 items3) /\
   length (geocoded_stops stripped address_book0 items3) <= 25 /\
   length (geocoded_stops stripped address_book0 items3) <= 3 /\
   finite_distances depot0
     (map (fun t => fst (fst t)) (geocoded_stops stripped address_book0 items3)) = true /\
   (forall d, In d items3 ->
      item_PK d <> None /\ item_SK d <> None /\ item_RouteSequence d = None) /\
   (forall pk sk n, update_item services0 pk sk n = true) /\
   (forall key rows, put_object services0 key rows = None)) /\
  exists route written rows,
    nearest_neighbor_route 3 depot0
      (map (fun t => fst (fst t)) (geocoded_stops stripped address_book0 items3))
    = Ok route /\
    Permutation route (seq 0 (length (geocoded_stops stripped address_book0 items3))) /\
    optimize_driver stripped services0 3 address_book0 depot0 (mk_results 0 0 [] [])
      no_effects "Driver 1"%string items3
    = (mk_effects (updates no_effects ++ written)
                  (uploads no_effects
                   ++ [(s3_key_of "Driver 1"%string (time_now services0 "Driver 1"%string),
                        rows)]),
       Ok (mk_results
             (optimized_drivers (mk_results 0 0 [] []) + 1)
             (total_deliveries_sequenced (mk_results 0 0 [] [])
              + length (geocoded_stops stripped address_book0 items3))
             (dict_store "Driver 1"%string
                (mk_driver_route (length (geocoded_stops stripped address_book0 items3))
                   ("s3://" ++ BUCKET_NAME ++ "/"
                    ++ s3_key_of "Driver 1"%string
                         (time_now services0 "Driver 1"%string))%string
                   (START_LOCATION
                    :: map (fun i =>
                              nth i (map (fun t => snd t)
                                         (geocoded_stops stripped address_book0 items3))
                                  EmptyString) route))
                (driver_routes (mk_results 0 0 [] [])))
             (dict_store "Driver 1"%string
                (decimal (13 * length (geocoded_stops stripped address_book0 items3) + 12)
                 ++ " minutes")%string
                (route_durations (mk_results 0 0 [] []))))) /\
    Forall2 (fun w io => request_of items3 io = Some w) written
      (enumerate
         (map (fun i =>
                 nth i (map (fun t => snd (fst t))
                            (geocoded_stops stripped address_book0 items3)) 0) route)) /\
    map (fun w : write => snd w) written
    = seq 1 (length (geocoded_stops stripped address_book0 items3)) /\
    map (fun r => (row_sequence r, row_delivery r)) rows
    = map (fun w : write => (snd w, fst (fst w))) written.
Proof.
  assert (H1 : 2 <= length (geocoded_stops stripped address_book0 items3))
    by (vm_compute; lia).
  assert (H2 : length (geocoded_stops stripped address_book0 items3) <= 25)
    by (vm_compute; lia).
  assert (H3 : length (geocoded_stops stripped address_book0 items3) <= 3)
    by (vm_compute; lia).
  assert (H4 : finite_distances depot0
                 (map (fun t => fst (fst t))
                      (geocoded_stops stripped address_book0 items3)) = true)
    by (vm_compute; reflexivity).
  assert (H5 : forall d, In d items3 ->
                 item_PK d <> None /\ item_SK d <> None /\ item_RouteSequence d = None).
  { intros d [<-|[<-|[<-|[]]]]; repeat split; discriminate. }
  assert (H6 : forall pk sk n, update_item services0 pk sk n = true)
    by (intros; reflexivity).
  assert (H7 : forall key rows, put_object services0 key rows = None)
    by (intros; reflexivity).
  split; [exact (conj H1 (conj H2 (conj H3 (conj H4 (conj H5 (conj H6 H7))))))|].
  exact (driver_route_is_numbered_end_to_end stripped services0 3 address_book0 depot0
           (mk_results 0 0 [] []) no_effects "Driver 1"%string items3
           H1 H2 H3 H4 H5 H6 H7).
Defined.

(** ** Routes of more than 25 stops in the handler *)

Lemma matrix_builder_length {F : Arith} (locations : list coord) (response : http_result)
    (distance_matrix duration_matrix : matrix) :
  calculate_distance_matrix locations response
    = Ok (Some distance_matrix, Some duration_matrix) ->
  length distance_matrix = length locations.
Proof.
  intros H. unfold calculate_distance_matrix in H.
  destruct (matrix_of_response locations response) as [r| |] eqn:E; try discriminate.
  inversion H; subst r; clear H.
  unfold matrix_of_response in E.
  destruct response as [e|data]; cbn [bind] in E; [discriminate|].
  destruct (dict_get data "status" JNull) as [st0| |]; cbn [bind] in E; try discriminate.
  destruct (is_OK st0); [|discriminate].
  destruct (dict_get data "rows" (JArr [])) as [rv| |]; cbn [bind] in E; try discriminate.
  destruct (iter rv) as [rows| |]; cbn [bind] in E; try discriminate.
  destruct (foldM fill_row (enumerate rows)
              (zeros (length locations), zeros (length locations))) as [ms| |] eqn:Ef;
    cbn [bind] in E; try discriminate.
  inversion E; subst distance_matrix duration_matrix; clear E.
  unfold enumerate in Ef.
  destruct (fill_rows_frame rows 0 _ _ Ef) as (Hs1 & _).
  cbn [fst] in Hs1. rewrite zeros_shape in Hs1.
  apply (f_equal (@length nat)) in Hs1. rewrite length_map, repeat_length in Hs1.
  exact Hs1.
Qed.

(** What the savings merge returns: distinct stop indices, fewer than there
    are stops. *)
Lemma savings_result {F : Arith} (start_idx : nat)
    (distance_matrix duration_matrix : matrix) (final_route : list nat) :
  3 <= length distance_matrix ->
  optimize_with_savings_algorithm start_idx distance_matrix duration_matrix
    = Ok final_route ->
  NoDup final_route /\
  (forall x, In x final_route -> x < length distance_matrix - 1) /\
  length final_route < length distance_matrix - 1.
Proof.
  intros Hn H. unfold optimize_with_savings_algorithm in H.
  set (n := length distance_matrix) in *.
  destruct (Nat.leb_spec n 2) as [?|_]; [lia|].
  destruct (pair_savings start_idx duration_matrix n) as [savings| |] eqn:Es;
    cbn [bind] in H; try discriminate.
  destruct (list_set (repeat false n) start_idx true) as [visited| |];
    cbn [bind] in H; try discriminate.
  destruct (foldM merge_pair (sort_desc savings) (map (fun i => [i]) (range 1 n)))
    as [routes| |] eqn:Em; cbn [bind] in H; try discriminate.
  inversion H; subst final_route; clear H.
  destruct (merge_pairs_perm _ _ _ Em) as (dropped & Hp).
  rewrite concat_singletons in Hp. unfold range in Hp.
  assert (Hnd : NoDup (dropped ++ concat routes)).
  { apply (Permutation_NoDup Hp). apply seq_NoDup. }
  assert (Hin : forall y, In y (concat routes) -> 1 <= y < n).
  { intros y Hy.
    assert (Hy' : In y (seq 1 (n - 1))).
    { apply (Permutation_in _ (Permutation_sym Hp)). apply in_or_app. right; exact Hy. }
    apply in_seq in Hy'. lia. }
  apply NoDup_app_remove_l in Hnd.
  split; [|split].
  - apply Finite.Injective_map_NoDup_in; [|exact Hnd].
    intros x y Hx Hy Hxy. apply Hin in Hx. apply Hin in Hy. lia.
  - intros x Hx. apply in_map_iff in Hx. destruct Hx as (y & <- & Hy).
    apply Hin in Hy. lia.
  - rewrite length_map. unfold pair_savings in Es.
    destruct (savings_rows start_idx duration_matrix n
                (fun e => 1 <= fst (fst e) /\ fst (fst e) < snd (fst e) /\ snd (fst e) < n)
                _ _ _ Es) as [Hlen Hall].
    assert (Hpairs : Forall (fun e => 1 <= fst (fst e) /\ fst (fst e) < snd (fst e) /\
                                      snd (fst e) < n) savings).
    { apply Hall; [constructor|]. intros i j s Hi Hj. unfold range in *.
      apply in_seq in Hi, Hj. simpl. lia. }
    assert (Hsome : 1 <= length savings).
    { unfold range in Hlen. destruct n as [|[|n']]; try lia.
      simpl in Hlen. rewrite length_seq in Hlen. simpl in Hlen. lia. }
    pose proof (sort_desc_perm savings) as Hperm.
    destruct (sort_desc savings) as [|[[i j] s] rest] eqn:Esort.
    + apply Permutation_length in Hperm. simpl in Hperm. lia.
    + assert (Hin' : In (i, j, s) savings)
        by (apply (Permutation_in _ Hperm); left; reflexivity).
      rewrite Forall_forall in Hpairs. destruct (Hpairs _ Hin') as (Hi & Hij & Hj).
      simpl in Hi, Hij, Hj. cbn [foldM] in Em.
      destruct (merge_pair (map (fun i => [i]) (range 1 n)) (i, j, s))
        as [routes1| |] eqn:E1; cbn [bind] in Em; try discriminate.
      apply (first_merge_loses n i j s routes1 Hi Hij Hj) in E1.
      apply merge_pairs_total in Em. lia.
Qed.

(** With more than 25 stops and two matrices, a route the optimizer returns
    has distinct stop indices, fewer than there are stops. *)
Lemma chunked_route_is_short {F : Arith} (fuel : nat) (start_coords : coord)
    (location_coords : list coord) (response : http_result)
    (distance_matrix duration_matrix : matrix) (route : list nat) :
  MAX_STOPS_PER_REQUEST < length location_coords ->
  finite_distances start_coords location_coords = true ->
  MAX_STOPS_PER_REQUEST - 1 <= fuel ->
  calculate_distance_matrix (start_coords :: location_coords) response
    = Ok (Some distance_matrix, Some duration_matrix) ->
  optimize_route_with_routes_api fuel start_coords location_coords response = Ok route ->
  NoDup route /\ (forall i, In i route -> i < length location_coords) /\
  length route < length location_coords.
Proof.
  intros Hk Hfin Hfuel Hm. unfold optimize_route_with_routes_api.
  destruct (Nat.ltb_spec (MAX_STOPS_PER_REQUEST + 1) (length location_coords + 1))
    as [_|Hge]; [|lia].
  rewrite Hm. cbn [bind].
  pose proof (matrix_builder_length _ _ _ _ Hm) as Hlen. cbn [length] in Hlen.
  destruct (optimize_with_savings_algorithm 0 distance_matrix duration_matrix)
    as [r0|e|] eqn:Es; cbn [bind]; try discriminate.
  destruct (savings_result 0 distance_matrix duration_matrix r0) as (Hnd & Hin & Hshort);
    [unfold MAX_STOPS_PER_REQUEST in Hk; lia | exact Es |].
  rewrite Hlen in Hin, Hshort.
  replace (S (length location_coords) - 1) with (length location_coords) in Hin, Hshort
    by lia.
  assert (Hpos : 0 < MAX_STOPS_PER_REQUEST - 1) by (unfold MAX_STOPS_PER_REQUEST; lia).
  destruct (refine_chunks_permute fuel start_coords location_coords
              (chunks_of r0 (MAX_STOPS_PER_REQUEST - 1)) Hfin) with (refined_indices := @nil nat)
    as (out & Hout & Hperm).
  { intros chunk Hc. split.
    - pose proof (chunks_of_size r0 (MAX_STOPS_PER_REQUEST - 1) chunk Hc) as Hsz. lia.
    - intros i Hi. apply Hin. rewrite <- (chunks_of_concat r0 _ Hpos).
      apply in_concat. exists chunk. split; assumption. }
  rewrite (chunks_of_concat r0 _ Hpos) in Hperm.
  cbn [app] in Hout. rewrite Hout. intros H. injection H as <-.
  split; [|split].
  - apply (Permutation_NoDup (Permutation_sym Hperm)). exact Hnd.
  - intros i Hi. apply Hin. apply (Permutation_in _ Hperm). exact Hi.
  - rewrite (Permutation_length Hperm). exact Hshort.
Qed.

(** X16: a driver with more than 25 geocoded stops, when the provider
    returns the two matrices, never has all the stops numbered. Whatever the
    table and the bucket answer, the round of the driver makes fewer table
    updates than the driver has geocoded stops; and when it completes, it
    adds fewer than that many deliveries to the count of sequenced
    deliveries, and either leaves the results as they were or reports for
    the driver fewer stops than were geocoded. *)
Theorem large_route_is_never_fully_numbered {F : Arith}
    (strip : string -> string) (sv : services) (fuel : nat)
    (address_to_coords : list (string * coord)) (start_coords : coord)
    (results : run_results) (done : effects) (driver : string) (stops : list item)
    (distance_matrix duration_matrix : matrix) :
  let located := geocoded_stops strip address_to_coords stops in
  let k := length located in
  let location_coords := map (fun t : coord * nat * string => fst (fst t)) located in
  let round :=
    optimize_driver strip sv fuel address_to_coords start_coords results done driver stops in
  MAX_STOPS_PER_REQUEST < k ->
  finite_distances start_coords location_coords = true ->
  MAX_STOPS_PER_REQUEST - 1 <= fuel ->
  calculate_distance_matrix (start_coords :: location_coords)
    (matrix_reply sv (start_coords :: location_coords))
  = Ok (Some distance_matrix, Some duration_matrix) ->
  (exists written,
     updates (fst round) = updates done ++ written /\ length written < k) /\
  (forall results', snd round = Ok results' ->
     total_deliveries_sequenced results' < total_deliveries_sequenced results + k /\
     (results' = results \/
      exists entry, dict_lookup driver (driver_routes results') = Some entry /\
                    dr_stops entry < k)).
Proof.
  cbv zeta. intros Hk Hfin Hfuel Hm.
  destruct (geocoded_stops_spec strip address_to_coords stops) as [Hsorted _].
  unfold optimize_driver. cbv zeta.
  remember (geocoded_stops strip address_to_coords stops) as located eqn:Eloc.
  remember (map (fun t : coord * nat * string => fst (fst t)) located) as coords eqn:Ecoords.
  remember (map (fun t : coord * nat * string => snd (fst t)) located) as oi eqn:Eoi.
  remember (map (fun t : coord * nat * string => snd t) located) as pm eqn:Epm.
  remember (length located) as k eqn:Ek.
  assert (Hlc : length coords = k) by (subst; apply length_map).
  assert (Hloi : length oi = k) by (subst; apply length_map).
  assert (Hlpm : length pm = k) by (subst; apply length_map).
  assert (Hkpos : 0 < k) by lia.
  assert (Hstay : (exists written : list write,
                     updates done = updates done ++ written /\ length written < k)).
  { exists []. rewrite app_nil_r. split; [reflexivity | exact Hkpos]. }
  destruct (Nat.ltb_spec (length coords) 2) as [Hlt|_].
  { cbn [fst snd]. split; [exact Hstay|]. intros r Hr. injection Hr as <-.
    split; [lia | now left]. }
  destruct (optimize_route_with_routes_api fuel start_coords coords
              (matrix_reply sv (start_coords :: coords))) as [route|e|] eqn:Eopt;
    [|cbn [fst snd]; split; [exact Hstay | discriminate]..].
  rewrite <- Hlc in Hk.
  destruct (chunked_route_is_short fuel start_coords coords _ _ _ route Hk Hfin Hfuel Hm Eopt)
    as (Hndr & Hin & Hshort).
  rewrite Hlc in Hin, Hshort.
  destruct route as [|r0 rt] eqn:Er.
  { cbn [fst snd]. split; [exact Hstay|]. intros r Hr. injection Hr as <-.
    split; [lia | now left]. }
  rewrite <- Er in *.
  set (oseq := map (fun i => nth i oi 0) route).
  assert (HmapO : mapM (index oi) route = Ok oseq).
  { apply mapM_index. intros i Hi. rewrite Hloi. auto. }
  assert (HmapP : mapM (index pm) route = Ok (map (fun i => nth i pm EmptyString) route)).
  { apply mapM_index. intros i Hi. rewrite Hlpm. auto. }
  assert (Hlen_oseq : length oseq = length route) by (unfold oseq; apply length_map).
  assert (Hnd : NoDup oseq).
  { apply NoDup_map_nth; [now apply sorted_lt_NoDup | exact Hndr|].
    intros i Hi. rewrite Hloi. auto. }
  rewrite HmapO, HmapP. cbn [bind]. unfold update_route_sequence.
  destruct (update_loop (update_item sv) (enumerate oseq) 0 stops [])
    as (c' & ds' & w' & E & Hc & Hlw & _).
  { rewrite enumerate_snd. exact Hnd. }
  rewrite E. cbv beta iota zeta.
  assert (Hbound : length (filter (accepted (update_item sv) stops) (enumerate oseq))
                   <= length route).
  { etransitivity; [apply filter_length_le|].
    unfold enumerate. rewrite length_combine, length_seq. lia. }
  cbn [length] in Hlw.
  assert (Hwritten : exists written : list write,
             updates done ++ w' = updates done ++ written /\ length written < k).
  { exists w'. split; [reflexivity | lia]. }
  destruct (put_object sv (s3_key_of driver (time_now sv driver))
              (export_driver_routes_to_csv (map delivery_of_item ds'))) as [e|].
  - cbn [fst snd updates]. split; [exact Hwritten | discriminate].
  - cbn [fst snd updates]. split; [exact Hwritten|].
    intros r Hr. injection Hr as <-. cbn [total_deliveries_sequenced driver_routes].
    split; [lia|]. right. eexists. split.
    + rewrite dict_lookup_store, String.eqb_refl. reflexivity.
    + cbn [dr_stops]. lia.
Qed.

Lemma large_route_is_never_fully_numbered_witness :
  (MAX_STOPS_PER_REQUEST < length (geocoded_stops stripped address_book26 items26) /\
   finite_distances depot0
     (map (fun t : coord * nat * string => fst (fst t))
          (geocoded_stops stripped address_book26 items26)) = true /\
   MAX_STOPS_PER_REQUEST - 1 <= 24 /\
   calculate_distance_matrix
     (depot0 :: map (fun t : coord * nat * string => fst (fst t))
                    (geocoded_stops stripped address_book26 items26))
     (matrix_reply services26
        (depot0 :: map (fun t : coord * nat * string => fst (fst t))
                       (geocoded_stops stripped address_book26 items26)))
   = Ok (Some (zeros 27), Some (zeros 27))) /\
  (exists written,
     updates (fst (optimize_driver stripped services26 24 address_book26 depot0
                     (mk_results 0 0 [] []) no_effects "Driver 1"%string items26))
     = updates no_effects ++ written /\
     length written < length (geocoded_stops stripped address_book26 items26)) /\
  (forall results',
     snd (optimize_driver stripped services26 24 address_book26 depot0
            (mk_results 0 0 [] []) no_effects "Driver 1"%string items26) = Ok results' ->
     total_deliveries_sequenced results'
     < total_deliveries_sequenced (mk_results 0 0 [] [])
       + length (geocoded_stops stripped address_book26 items26) /\
     (results' = mk_results 0 0 [] [] \/
      exists entry, dict_lookup "Driver 1"%string (driver_routes results') = Some entry /\
                    dr_stops entry
                    < length (geocoded_stops stripped address_book26 items26))).
Proof.
  assert (H1 : MAX_STOPS_PER_REQUEST
               < length (geocoded_stops stripped address_book26 items26))
    by (vm_compute; lia).
  assert (H2 : finite_distances depot0
                 (map (fun t : coord * nat * string => fst (fst t))
                      (geocoded_stops stripped address_book26 items26)) = true)
    by (vm_compute; reflexivity).
  assert (H3 : MAX_STOPS_PER_REQUEST - 1 <= 24) by (vm_compute; lia).
  assert (H4 : calculate_distance_matrix
                 (depot0 :: map (fun t : coord * nat * string => fst (fst t))
                                (geocoded_stops stripped address_book26 items26))
                 (matrix_reply services26
                    (depot0 :: map (fun t : coord * nat * string => fst (fst t))
                                   (geocoded_stops stripped address_book26 items26)))
               = Ok (Some (zeros 27), Some (zeros 27)))
    by (vm_compute; reflexivity).
  split; [exact (conj H1 (conj H2 (conj H3 H4)))|].
  exact (large_route_is_never_fully_numbered stripped services26 24 address_book26 depot0
           (mk_results 0 0 [] []) no_effects "Driver 1"%string items26
           (zeros 27) (zeros 27) H1 H2 H3 H4).
Defined.

(** ** The replies that give matrices *)

Lemma list_set_success {A : Type} (l : list A) : forall (i : nat) (v : A),
  i < length l -> exists l', list_set l i v = Ok l'.
Proof.
  induction l as [|a l IH]; intros [|i] v Hi; simpl in *; try lia.
  - eexists. reflexivity.
  - destruct (IH i v) as [l' E]; [lia|]. rewrite E. cbn [bind]. eexists. reflexivity.
Qed.

Lemma shape_row {F : Arith} (m : matrix) (n i : nat) (row : list num) :
  map (@length num) m = repeat n n -> nth_error m i = Some row ->
  length row = n /\ i < n.
Proof.
  intros Hs Hr.
  assert (H : nth_error (map (@length num) m) i = Some (length row))
    by (rewrite nth_error_map, Hr; reflexivity).
  rewrite Hs in H.
  assert (Hi : i < n).
  { rewrite <- (repeat_length n n). apply nth_error_Some. rewrite H. discriminate. }
  rewrite (nth_error_repeat _ Hi) in H. injection H as H.
  split; [symmetry; exact H | exact Hi].
Qed.

Lemma shape_length {F : Arith} (m : matrix) (n : nat) :
  map (@length num) m = repeat n n -> length m = n.
Proof.
  intros Hs. apply (f_equal (@length nat)) in Hs.
  rewrite length_map, repeat_length in Hs. exact Hs.
Qed.

(** A cell can be set exactly when it is inside the matrix and the value
    converts. *)
Lemma matrix_set_iff {F : Arith} (m : matrix) (n i j : nat) (v : json num) :
  map (@length num) m = repeat n n ->
  (exists m', matrix_set m i j v = Ok m') <-> (i <? n) && (j <? n) && converts v = true.
Proof.
  intros Hs. split.
  - intros [m' H].
    destruct (matrix_set_shape _ _ _ _ _ H) as (_ & Hi & Hj).
    destruct (matrix_set_spec _ _ _ _ _ H) as [(x & Hx & _) _].
    destruct (nth_error m i) as [row|] eqn:Er; [|apply nth_error_None in Er; lia].
    destruct (shape_row m n i row Hs Er) as [Hrow Hin].
    specialize (Hj row eq_refl). rewrite Hrow in Hj.
    unfold converts. rewrite Hx.
    apply andb_true_iff. split; [|reflexivity].
    apply andb_true_iff. split; apply Nat.ltb_lt; assumption.
  - intros H. apply andb_true_iff in H. destruct H as [H Hc].
    apply andb_true_iff in H. destruct H as [Hi Hj].
    apply Nat.ltb_lt in Hi, Hj.
    unfold matrix_set, index.
    destruct (nth_error m i) as [row|] eqn:Er.
    + destruct (shape_row m n i row Hs Er) as [Hrow _]. cbn [bind].
      unfold converts in Hc. destruct (float64_of v) as [e|x]; [discriminate|].
      cbn [call bind].
      destruct (list_set_success row j x) as [row' E1]; [lia|]. rewrite E1. cbn [bind].
      apply list_set_success. rewrite (shape_length m n Hs). exact Hi.
    + apply nth_error_None in Er. rewrite (shape_length m n Hs) in Er. lia.
Qed.

Lemma fill_cell_iff {F : Arith} (n i j : nat) (element : json num) (ms : matrix * matrix) :
  map (@length num) (fst ms) = repeat n n ->
  map (@length num) (snd ms) = repeat n n ->
  (exists ms', fill_cell i ms (j, element) = Ok ms') <-> cell_ok n i (j, element) = true.
Proof.
  intros Hs1 Hs2. unfold fill_cell, cell_ok, element_values.
  destruct (dict_get element "status" JNull) as [st| |]; cbn [bind];
    [|split; [intros [? H]; discriminate | discriminate]..].
  destruct (is_OK st); [|split; [reflexivity | intros _; eexists; reflexivity]].
  destruct (dict_get element "distance" (JObj [])) as [d| |]; cbn [bind];
    [|split; [intros [? H]; discriminate | discriminate]..].
  destruct (dict_get d "value" (JNum zero)) as [distance| |]; cbn [bind];
    [|split; [intros [? H]; discriminate | discriminate]..].
  destruct (dict_get element "duration" (JObj [])) as [t| |]; cbn [bind];
    [|split; [intros [? H]; discriminate | discriminate]..].
  destruct (dict_get t "value" (JNum zero)) as [duration| |]; cbn [bind];
    [|split; [intros [? H]; discriminate | discriminate]..].
  destruct (dict_has element "duration_in_traffic") as [in_traffic| |]; cbn [bind];
    [|split; [intros [? H]; discriminate | discriminate]..].
  destruct (if in_traffic
            then (dit <- dict_get element "duration_in_traffic" (JObj []) ;;
                  dict_get dit "value" duration)
            else Ok duration) as [duration'| |]; cbn [bind];
    [|split; [intros [? H]; discriminate | discriminate]..].
  pose proof (matrix_set_iff (fst ms) n i j distance Hs1) as H1.
  pose proof (matrix_set_iff (snd ms) n i j duration' Hs2) as H2.
  split.
  - intros [ms' H].
    destruct (matrix_set (fst ms) i j distance) as [dm| |]; cbn [bind] in H;
      try discriminate.
    destruct (matrix_set (snd ms) i j duration') as [tm| |]; cbn [bind] in H;
      try discriminate.
    assert (E1 : (i <? n) && (j <? n) && converts distance = true)
      by (apply H1; eexists; reflexivity).
    assert (E2 : (i <? n) && (j <? n) && converts duration' = true)
      by (apply H2; eexists; reflexivity).
    apply andb_true_iff in E2. destruct E2 as [_ E2]. rewrite E1, E2. reflexivity.
  - intros H. apply andb_true_iff in H. destruct H as [E1 E2].
    destruct (proj2 H1 E1) as [dm Hdm]. rewrite Hdm. cbn [bind].
    apply andb_true_iff in E1. destruct E1 as [E1 _].
    destruct (proj2 H2) as [tm Htm]; [rewrite E1, E2; reflexivity|].
    rewrite Htm. cbn [bind]. eexists. reflexivity.
Qed.

Lemma fill_cells_iff {F : Arith} (n i : nat) (elements : list (json num)) :
  forall (b : nat) (ms : matrix * matrix),
  map (@length num) (fst ms) = repeat n n ->
  map (@length num) (snd ms) = repeat n n ->
  (exists ms', foldM (fill_cell i) (combine (seq b (length elements)) elements) ms = Ok ms')
  <-> forallb (cell_ok n i) (combine (seq b (length elements)) elements) = true.
Proof.
  induction elements as [|e rest IH]; intros b ms Hs1 Hs2;
    cbn [length seq combine foldM forallb].
  - split; [reflexivity | intros _; eexists; reflexivity].
  - pose proof (fill_cell_iff n i b e ms Hs1 Hs2) as Hcell.
    destruct (fill_cell i ms (b, e)) as [ms1| |] eqn:E1; cbn [bind].
    + destruct (fill_cell_frame _ _ _ _ _ E1) as (Hf1 & Hf2 & _).
      assert (Hok : cell_ok n i (b, e) = true) by (apply Hcell; eexists; reflexivity).
      rewrite Hok. cbn [andb]. apply IH; congruence.
    + split; [intros [? H]; discriminate|].
      intros H. apply andb_true_iff in H. destruct H as [H _].
      apply Hcell in H. destruct H as [? H]. discriminate.
    + split; [intros [? H]; discriminate|].
      intros H. apply andb_true_iff in H. destruct H as [H _].
      apply Hcell in H. destruct H as [? H]. discriminate.
Qed.

Lemma fill_rows_iff {F : Arith} (n : nat) (rows : list (json num)) :
  forall (a : nat) (ms : matrix * matrix),
  map (@length num) (fst ms) = repeat n n ->
  map (@length num) (snd ms) = repeat n n ->
  (exists ms', foldM fill_row (combine (seq a (length rows)) rows) ms = Ok ms')
  <-> forallb (row_ok n) (combine (seq a (length rows)) rows) = true.
Proof.
  induction rows as [|row rest IH]; intros a ms Hs1 Hs2;
    cbn [length seq combine foldM forallb].
  - split; [reflexivity | intros _; eexists; reflexivity].
  - assert (Hrow : (exists ms1, fill_row ms (a, row) = Ok ms1) <-> row_ok n (a, row) = true).
    { unfold fill_row, row_ok.
      destruct (dict_get row "elements" (JArr [])) as [ev| |]; cbn [bind];
        [|split; [intros [? H]; discriminate | discriminate]..].
      destruct (iter ev) as [els| |]; cbn [bind];
        [|split; [intros [? H]; discriminate | discriminate]..].
      apply (fill_cells_iff n a els 0 ms Hs1 Hs2). }
    destruct (fill_row ms (a, row)) as [ms1| |] eqn:E1; cbn [bind].
    + assert (Hok : row_ok n (a, row) = true) by (apply Hrow; eexists; reflexivity).
      rewrite Hok. cbn [andb].
      assert (Hshape : map (@length num) (fst ms1) = map (@length num) (fst ms) /\
                       map (@length num) (snd ms1) = map (@length num) (snd ms)).
      { unfold fill_row in E1.
        destruct (dict_get row "elements" (JArr [])) as [ev| |]; cbn [bind] in E1;
          try discriminate.
        destruct (iter ev) as [els| |]; cbn [bind] in E1; try discriminate.
        unfold enumerate in E1.
        destruct (fill_cells_frame _ _ _ _ _ E1) as (Hf1 & Hf2 & _). split; assumption. }
      destruct Hshape as [Hf1 Hf2]. apply IH; congruence.
    + split; [intros [? H]; discriminate|].
      intros H. apply andb_true_iff in H. destruct H as [H _].
      apply Hrow in H. destruct H as [? H]. discriminate.
    + split; [intros [? H]; discriminate|].
      intros H. apply andb_true_iff in H. destruct H as [H _].
      apply Hrow in H. destruct H as [? H]. discriminate.
Qed.

(** The builder returns matrices for the complete replies and for no other. *)
Lemma matrices_iff_complete {F : Arith} (locations : list coord) (data : json num) :
  (exists distance_matrix duration_matrix,
     calculate_distance_matrix locations (HttpJson data)
     = Ok (Some distance_matrix, Some duration_matrix))
  <-> complete_reply (length locations) data = true.
Proof.
  unfold calculate_distance_matrix, matrix_of_response, complete_reply. cbn [bind].
  destruct (dict_get data "status" JNull) as [st| |]; cbn [bind];
    [|split; [intros (? & ? & H); discriminate | discriminate]..].
  destruct (is_OK st); cbn [andb];
    [|split; [intros (? & ? & H); discriminate | discriminate]].
  destruct (dict_get data "rows" (JArr [])) as [rv| |]; cbn [bind];
    [|split; [intros (? & ? & H); discriminate | discriminate]..].
  destruct (iter rv) as [rows| |]; cbn [bind];
    [|split; [intros (? & ? & H); discriminate | discriminate]..].
  pose proof (fill_rows_iff (length locations) rows 0
                (zeros (length locations), zeros (length locations))
                (zeros_shape _) (zeros_shape _)) as Hrows.
  fold (enumerate rows) in Hrows.
  destruct (foldM fill_row (enumerate rows)
              (zeros (length locations), zeros (length locations))) as [ms| |];
    cbn [bind].
  - split; [intros _; apply Hrows; eexists; reflexivity|].
    intros _. eexists. eexists. reflexivity.
  - split; [intros (? & ? & H); discriminate|].
    intros H. apply Hrows in H. destruct H as [? H]. discriminate.
  - split; [intros (? & ? & H); discriminate|].
    intros H. apply Hrows in H. destruct H as [? H]. discriminate.
Qed.

(** C6: [calculate_distance_matrix] never raises. It returns the two matrices
    or [(None, None)], and [(None, None)] it is when the request fails, when
    anything raises while the reply is read, and when the status of the reply
    is not OK. It returns the two matrices exactly for the complete replies:
    those of status OK that the two loops read to the end. For such a reply,
    and whenever it returns matrices, a cell of status OK whose
    [duration_in_traffic] holds a value has that value in the duration matrix,
    whatever its [duration] says. *)
Theorem matrix_builder_failures_and_traffic {F : Arith} (locations : list coord) :
  (forall e, calculate_distance_matrix locations (HttpFail e) = Ok (None, None)) /\
  (forall response e,
     matrix_of_response locations response = Raise e ->
     calculate_distance_matrix locations response = Ok (None, None)) /\
  (forall data,
     (forall st, dict_get data "status" JNull = Ok st -> is_OK st = false) ->
     calculate_distance_matrix locations (HttpJson data) = Ok (None, None)) /\
  (forall response,
     calculate_distance_matrix locations response = Ok (None, None) \/
     exists distance_matrix duration_matrix,
       calculate_distance_matrix locations response
         = Ok (Some distance_matrix, Some duration_matrix)) /\
  (forall data distance_matrix duration_matrix i j element v,
     calculate_distance_matrix locations (HttpJson data)
       = Ok (Some distance_matrix, Some duration_matrix) ->
     element_at data i j = Some element ->
     reports_traffic element v ->
     exists x, float64_of v = inr x /\ cell duration_matrix i j = Ok x) /\
  (forall data,
     complete_reply (length locations) data = true ->
     exists distance_matrix duration_matrix,
       calculate_distance_matrix locations (HttpJson data)
         = Ok (Some distance_matrix, Some duration_matrix) /\
       forall i j element v,
         element_at data i j = Some element ->
         reports_traffic element v ->
         exists x, float64_of v = inr x /\ cell duration_matrix i j = Ok x) /\
  (forall data distance_matrix duration_matrix,
     calculate_distance_matrix locations (HttpJson data)
       = Ok (Some distance_matrix, Some duration_matrix) ->
     complete_reply (length locations) data = true).
Proof.
  assert (Htraffic : forall data distance_matrix duration_matrix i j element v,
     calculate_distance_matrix locations (HttpJson data)
       = Ok (Some distance_matrix, Some duration_matrix) ->
     element_at data i j = Some element ->
     reports_traffic element v ->
     exists x, float64_of v = inr x /\ cell duration_matrix i j = Ok x).
  { intros data dm tm i j element v H Hat Hv.
    unfold calculate_distance_matrix in H.
    destruct (matrix_of_response locations (HttpJson data)) as [r| |] eqn:E;
      try discriminate.
    inversion H; subst r; clear H.
    unfold matrix_of_response in E. cbn [bind] in E.
    destruct (dict_get data "status" JNull) as [st| |]; cbn [bind] in E; try discriminate.
    destruct (is_OK st); [|discriminate].
    unfold element_at in Hat.
    destruct (dict_get data "rows" (JArr [])) as [rv| |]; cbn [bind] in E, Hat;
      try discriminate.
    destruct (iter rv) as [rows| |]; cbn [bind] in E; try discriminate.
    destruct (foldM fill_row (enumerate rows)
                (zeros (length locations), zeros (length locations))) as [ms| |] eqn:Ef;
      cbn [bind] in E; try discriminate.
    inversion E; subst dm tm; clear E.
    destruct (nth_error rows i) as [row|] eqn:Erow; [|discriminate].
    destruct (elements <- dict_get row "elements" (JArr []) ;; iter elements)
      as [elements| |] eqn:Eels; try discriminate.
    unfold enumerate in Ef.
    destruct (fill_rows_spec rows 0 _ _ Ef) as [_ Hcells].
    apply (Hcells i row elements j element v Erow Eels Hat Hv). }
  split; [intros e; reflexivity|].
  split; [intros response e H; unfold calculate_distance_matrix; rewrite H; reflexivity|].
  split; [|split; [|split; [exact Htraffic|split]]].
  - intros data Hst. unfold calculate_distance_matrix, matrix_of_response. cbn [bind].
    destruct (dict_get data "status" JNull) as [st| |] eqn:Est; cbn [bind].
    + rewrite (Hst st eq_refl). reflexivity.
    + reflexivity.
    + exfalso. exact (dict_get_returns _ _ _ Est).
  - intros response. unfold calculate_distance_matrix.
    pose proof (matrix_of_response_returns locations response) as Hret.
    destruct (matrix_of_response locations response) as [r| |] eqn:E;
      [|left; reflexivity|congruence].
    unfold matrix_of_response in E.
    destruct response as [e|data]; cbn [bind] in E; [discriminate|].
    destruct (dict_get data "status" JNull) as [st| |]; cbn [bind] in E; try discriminate.
    destruct (is_OK st); [|inversion E; left; reflexivity].
    destruct (dict_get data "rows" (JArr [])) as [rv| |]; cbn [bind] in E;
      try discriminate.
    destruct (iter rv) as [rows| |]; cbn [bind] in E; try discriminate.
    destruct (foldM fill_row (enumerate rows)
                (zeros (length locations), zeros (length locations))) as [ms| |];
      cbn [bind] in E; try discriminate.
    inversion E. right. exists (fst ms), (snd ms). reflexivity.
  - intros data Hc. apply matrices_iff_complete in Hc.
    destruct Hc as (dm & tm & E). exists dm, tm. split; [exact E|].
    intros i j element v. apply (Htraffic data dm tm i j element v E).
  - intros data dm tm E. apply matrices_iff_complete. exists dm, tm. exact E.
Qed.

Lemma matrix_builder_failures_and_traffic_witness :
  complete_reply 2 traffic_reply = true /\
  element_at traffic_reply 0 1 = Some element_in_traffic /\
  reports_traffic element_in_traffic (JNum 120%float) /\
  exists distance_matrix duration_matrix,
    calculate_distance_matrix [depot0; pt 1 0] (HttpJson traffic_reply)
    = Ok (Some distance_matrix, Some duration_matrix) /\
    cell duration_matrix 0 1 = Ok 120%float.
Proof.
  assert (Hc : complete_reply (length [depot0; pt 1 0]) traffic_reply = true)
    by (vm_compute; reflexivity).
  assert (Hat : element_at traffic_reply 0 1 = Some element_in_traffic) by reflexivity.
  assert (Hv : reports_traffic element_in_traffic (JNum 120%float)).
  { unfold reports_traffic, element_in_traffic.
    eexists _, _, _. split; [reflexivity|]. repeat split; reflexivity. }
  split; [exact Hc|]. split; [exact Hat|]. split; [exact Hv|].
  destruct (matrix_builder_failures_and_traffic [depot0; pt 1 0])
    as (_ & _ & _ & _ & _ & Hcomplete & _).
  destruct (Hcomplete traffic_reply Hc) as (dm & tm & E & Ht).
  exists dm, tm. split; [exact E|].
  destruct (Ht 0 1 element_in_traffic (JNum 120%float) Hat Hv) as (x & Hx & Hcell).
  cbn in Hx. injection Hx as <-. exact Hcell.
Defined.

(** ** Arrival times and reported duration of a route of three stops *)

(** A round of the per-driver loop keeps the durations in step with the
    routes: the duration reported for a driver goes with the number of stops
    reported for that driver. *)
Lemma round_keeps_durations {F : Arith} (strip : string -> string) (sv : services)
    (fuel : nat) (address_to_coords : list (string * coord)) (start_coords : coord)
    (results : run_results) (done : effects) (driver : string) (stops : list item)
    (results' : run_results) :
  (forall d entry,
     dict_lookup d (driver_routes results) = Some entry ->
     dict_lookup d (route_durations results)
     = Some (decimal_int (estimated_duration (Z.of_nat (dr_stops entry)))
             ++ " minutes")%string) ->
  snd (optimize_driver strip sv fuel address_to_coords start_coords results done
         driver stops) = Ok results' ->
  forall d entry,
    dict_lookup d (driver_routes results') = Some entry ->
    dict_lookup d (route_durations results')
    = Some (decimal_int (estimated_duration (Z.of_nat (dr_stops entry)))
            ++ " minutes")%string.
Proof.
  unfold optimize_driver. cbv zeta. intros Hinv H.
  destruct (length (map (fun t : coord * nat * string => fst (fst t))
                        (geocoded_stops strip address_to_coords stops)) <? 2).
  { cbn [snd] in H. injection H as <-. exact Hinv. }
  destruct (optimize_route_with_routes_api fuel start_coords _ _) as [route|e|];
    cbn [snd] in H; try discriminate.
  destruct route as [|r0 rt].
  { cbn [snd] in H. injection H as <-. exact Hinv. }
  destruct (original_optimized_sequence <-
              mapM (index (map (fun t : coord * nat * string => snd (fst t))
                               (geocoded_stops strip address_to_coords stops))) (r0 :: rt) ;;
            route_postcodes <-
              mapM (index (map (fun t : coord * nat * string => snd t)
                               (geocoded_stops strip address_to_coords stops))) (r0 :: rt) ;;
            Ok (original_optimized_sequence, route_postcodes)) as [[oseq ps]| |];
    cbn [snd] in H; try discriminate.
  destruct (update_route_sequence (update_item sv) stops oseq) as [[c' ds'] w'].
  destruct (put_object sv (s3_key_of driver (time_now sv driver))
              (export_driver_routes_to_csv (map delivery_of_item ds'))) as [e|];
    cbn [snd] in H; try discriminate.
  injection H as <-. cbn [driver_routes route_durations].
  intros d entry. rewrite !dict_lookup_store.
  destruct (String.eqb d driver); [|apply Hinv].
  intros Hentry. injection Hentry as <-. reflexivity.
Qed.

Lemma rounds_keep_durations {F : Arith} (strip : string -> string) (sv : services)
    (fuel : nat) (address_to_coords : list (string * coord)) (start_coords : coord)
    (grouped_deliveries : list (string * list item)) :
  forall (results : run_results) (done done' : effects) (results' : run_results),
  (forall d entry,
     dict_lookup d (driver_routes results) = Some entry ->
     dict_lookup d (route_durations results)
     = Some (decimal_int (estimated_duration (Z.of_nat (dr_stops entry)))
             ++ " minutes")%string) ->
  optimize_drivers strip sv fuel address_to_coords start_coords grouped_deliveries
    results done = (done', Ok results') ->
  forall d entry,
    dict_lookup d (driver_routes results') = Some entry ->
    dict_lookup d (route_durations results')
    = Some (decimal_int (estimated_duration (Z.of_nat (dr_stops entry)))
            ++ " minutes")%string.
Proof.
  induction grouped_deliveries as [|[driver stops] rest IH];
    intros results done done' results' Hinv H; cbn [optimize_drivers] in H.
  - injection H as _ <-. exact Hinv.
  - destruct (optimize_driver strip sv fuel address_to_coords start_coords results done
                driver stops) as [done1 [results1| |]] eqn:E; try discriminate.
    apply (IH results1 done1 done' results'); [|exact H].
    apply (round_keeps_durations strip sv fuel address_to_coords start_coords results
             done driver stops results1 Hinv).
    rewrite E. reflexivity.
Qed.

(** C5: a route of three sequenced stops. Whatever the order in which the
    three deliveries are handed to [export_driver_routes_to_csv], the file
    has three data rows, in the order of the sequence numbers: the first stop
    of the sequence arrives at 09:20, the second at 09:33 and the third at
    09:46, each row carrying the identity of its own stop. And in the
    response of [lambda_handler], a driver reported with a route of three
    stops is reported with the duration "51 minutes": for [k] stops it is
    20 + (k-1)*8 + k*5, the last arrival plus its service time, with nothing
    added for a return to the depot. *)
Theorem eta_of_three_stops :
  (forall (d1 d2 d3 : delivery) (s1 s2 s3 : nat) (deliveries : list delivery),
     RouteSequence d1 = Some s1 -> RouteSequence d2 = Some s2 ->
     RouteSequence d3 = Some s3 -> s1 < s2 -> s2 < s3 ->
     Permutation deliveries [d1; d2; d3] ->
     export_driver_routes_to_csv deliveries
     = [mk_row s1 (PK d1) (PostcodeRaw d1) (Address d1) (CustomerName d1)
               (CustomerPhone d1) "09:20" "25 min";
        mk_row s2 (PK d2) (PostcodeRaw d2) (Address d2) (CustomerName d2)
               (CustomerPhone d2) "09:33" "13 min";
        mk_row s3 (PK d3) (PostcodeRaw d3) (Address d3) (CustomerName d3)
               (CustomerPhone d3) "09:46" "13 min"]%string) /\
  (forall (F : Arith) (strip : string -> string) (sv : services) (fuel : nat)
          (done : effects) (results : run_results) (driver : string)
          (entry : driver_route),
     lambda_handler strip sv fuel = (done, Ok (mk_response 200 (Completed results))) ->
     dict_lookup driver (driver_routes results) = Some entry ->
     dict_lookup driver (route_durations results)
     = Some (decimal_int (20 + (Z.of_nat (dr_stops entry) - 1) * 8
                          + Z.of_nat (dr_stops entry) * 5) ++ " minutes")%string /\
     (dr_stops entry = 3 ->
      dict_lookup driver (route_durations results) = Some "51 minutes"%string)) /\
  estimated_duration 3 = 51%Z /\
  (forall k : Z, estimated_duration k = 20 + (k - 1) * 8 + k * 5)%Z /\
  (estimated_duration 3 = (9 * 60 + 46 + 5) - 9 * 60)%Z.
Proof.
  split; [|split; [|split; [reflexivity|split; [intros k; reflexivity|reflexivity]]]].
  - intros d1 d2 d3 s1 s2 s3 deliveries H1 H2 H3 H12 H23 Hperm.
    assert (Hsorted : sorted_by_sequence deliveries = [d1; d2; d3]).
    { apply sorted_perm_unique with (key := sort_key).
      - eapply Permutation_trans; [apply sorted_by_sequence_perm | exact Hperm].
      - apply sorted_by_sequence_sorted.
      - unfold sort_key. repeat constructor; rewrite ?H1, ?H2, ?H3; lia. }
    unfold export_driver_routes_to_csv. rewrite Hsorted. unfold enumerate.
    cbn [length seq combine eta_rows]. rewrite H1, H2, H3. reflexivity.
  - intros F strip sv fuel done results driver entry H Hentry.
    assert (Hd : dict_lookup driver (route_durations results)
                 = Some (decimal_int (estimated_duration (Z.of_nat (dr_stops entry)))
                         ++ " minutes")%string).
    { unfold lambda_handler in H.
      destruct (scan sv) as [e|[|d ds]]; try discriminate.
      destruct (group_deliveries strip (d :: ds)) as [grouped unique].
      destruct (geocode_addresses_parallel (geocode sv) unique) as [|a0 rest];
        [discriminate|].
      destruct (dict_lookup START_LOCATION (a0 :: rest)) as [start_coords|];
        [|discriminate].
      destruct (optimize_drivers strip sv fuel (a0 :: rest) start_coords grouped
                  (mk_results 0 0 [] []) no_effects) as [done1 [results1| |]] eqn:E;
        try discriminate.
      injection H as _ <-.
      apply (rounds_keep_durations strip sv fuel (a0 :: rest) start_coords grouped
               (mk_results 0 0 [] []) no_effects done1 results1); [|exact E|exact Hentry].
      intros d0 entry0 H0. discriminate. }
    split; [exact Hd|]. intros Hk. rewrite Hd, Hk. reflexivity.
Qed.

Lemma eta_of_three_stops_witness :
  export_driver_routes_to_csv [delivery_b; delivery_a; delivery_c]
  = [mk_row 1 (PK delivery_a) (PostcodeRaw delivery_a) (Address delivery_a)
            (CustomerName delivery_a) (CustomerPhone delivery_a) "09:20" "25 min";
     mk_row 2 (PK delivery_b) (PostcodeRaw delivery_b) (Address delivery_b)
            (CustomerName delivery_b) (CustomerPhone delivery_b) "09:33" "13 min";
     mk_row 3 (PK delivery_c) (PostcodeRaw delivery_c) (Address delivery_c)
            (CustomerName delivery_c) (CustomerPhone delivery_c) "09:46" "13 min"]%string /\
  exists done results entry,
    lambda_handler stripped services0 3 = (done, Ok (mk_response 200 (Completed results))) /\
    dict_lookup "Driver 1"%string (driver_routes results) = Some entry /\
    dr_stops entry = 3 /\
    dict_lookup "Driver 1"%string (route_durations results) = Some "51 minutes"%string.
Proof.
  split.
  - apply (proj1 eta_of_three_stops delivery_a delivery_b delivery_c 1 2 3
             [delivery_b; delivery_a; delivery_c]); try reflexivity; try lia.
    apply perm_swap.
  - assert (E : exists done results entry,
               lambda_handler stripped services0 3
               = (done, Ok (mk_response 200 (Completed results))) /\
               dict_lookup "Driver 1"%string (driver_routes results) = Some entry /\
               dr_stops entry = 3).
    { vm_compute. eexists. eexists. eexists. split; [reflexivity|]. split; reflexivity. }
    destruct E as (done & results & entry & E & Hentry & Hk).
    exists done, results, entry.
    split; [exact E|]. split; [exact Hentry|]. split; [exact Hk|].
    exact (proj2 (proj1 (proj2 eta_of_three_stops) binary64 stripped services0 3
                    done results "Driver 1"%string entry E Hentry) Hk).
Defined.
